(** * datasource-cache: tier orchestrator and redis tier

    A shallow embedding of [cache.go] (the orchestrator's [Get], [MGet] and
    [MSet]), of [provider_redis.go] (the chunked redis [MGet]) and of the
    older redis provider that still lives next to it, followed by the
    properties the specification states about them.

    Conventions.
    - [*Key[V]] is a pointer: maps of the source are keyed by the address,
      never by the [Key] string.  A key pointer is a [nat] address, and
      [deref] reads the (never mutated) [Key] record behind it.
    - [*T] may be nil: it is [option T].
    - [map[K]V] is [gmap K V]; a nil map and an empty map are both [∅]
      (the source only takes [len] of them and ranges over them).
    - [uint16] and [time.Duration] are [Z]; no arithmetic is done on them. *)

From Stdlib Require Import ZArith Lia.
From stdpp Require Import base option list gmap strings.

Open Scope Z_scope.

(** ** Errors (pkg/errors and go-multierror, as far as the source uses them) *)

#[warnings="-register-all"]
Inductive error : Type :=
| errors_New (msg : string)
| errors_Wrap (cause : error) (msg : string)
| errors_WithStack (cause : error)
| multierror_Error (Errors : list error)
| external_error (code : nat).

(** [multierror.Append(err, e)]: a nil [err] becomes a fresh multi-error, a
    multi-error is extended, any other error becomes the first element; an
    appended multi-error is flattened.  The result is never nil. *)
Definition multierror_Append (err : option error) (e : error) : error :=
  let base := match err with
              | None => []
              | Some (multierror_Error es) => es
              | Some e0 => [e0]
              end in
  let extra := match e with
               | multierror_Error es => es
               | _ => [e]
               end in
  multierror_Error (base ++ extra).

(** ** Contexts *)

Inductive Context : Type :=
| context_Background
| context_TODO
| context_Derived (id : nat).

(** ** types.go *)

Record Key (V : Type) : Type := mkKey {
  KeyOf : string;          (* field [Key] *)
  OriginalValue : V
}.
Arguments mkKey {V} _ _.
Arguments KeyOf {V} _.
Arguments OriginalValue {V} _.

(** [assign_all src dst] is the loop [for k, v := range src { dst[k] = v }]. *)
Definition assign_all `{Countable K} {A : Type} (src dst : gmap K A) : gmap K A :=
  map_fold (fun k v acc => <[k := v]> acc) dst src.

(** ** chunkBy (the same body in both redis providers)

    [for chunkSize < len(items) { items, chunks = items[chunkSize:], append(chunks, items[0:chunkSize:chunkSize]) }]
    The loop does not end when [chunkSize] is 0 and [items] is not empty, and
    the slice expression panics when [chunkSize] is negative: both are [None].
    The recursion is on a fuel, [chunkBy] supplies [len(items)] of it. *)
Fixpoint chunkBy_loop {A : Type} (fuel : nat) (items : list A) (chunkSize : Z)
    (chunks : list (list A)) : option (list (list A)) :=
  if chunkSize <? Z.of_nat (length items) then
    if chunkSize <? 0 then None
    else
      match fuel with
      | O => None
      | S fuel' =>
          chunkBy_loop fuel' (drop (Z.to_nat chunkSize) items) chunkSize
                       (chunks ++ [take (Z.to_nat chunkSize) items])
      end
  else Some (chunks ++ [items]).

Definition chunkBy {A : Type} (items : list A) (chunkSize : Z) : option (list (list A)) :=
  chunkBy_loop (length items) items chunkSize [].

(** ** The redis tier *)

(** What [client.MGet(ctx, keys...)] hands back: [cmd.Err()] and [cmd.Val()].
    A slot of [Val] is nil or the stored bytes. *)
Record SliceCmd : Type := mkSliceCmd {
  cmd_Err : option error;
  cmd_Val : list (option string)
}.

Module provider_redis.
Section Redis.
Context {T V : Type}.
(** [Entity] capability of [T]. *)
Variable GetCacheModelVersion : T -> Z.
(** [msgpack.Unmarshal]: the item, or [None] for a decode error. *)
Variable Unmarshal : string -> option T.
(** The key records behind the pointers. *)
Variable deref : nat -> Key V.

Record RedisCache : Type := mkRedisCache {
  client_MGet : list string -> SliceCmd;
  chunkSize : Z
}.

Record redisChunkResponse : Type := mkResp {
  Error : option error;
  Missing : list nat;
  Results : gmap nat (option T)
}.

(** The body of [for i, v := range cmd.Val()]; [slot i] is the key the
    source attributes slot [i] to ([chCopy[i]] in provider_redis.go,
    [keys[i]] in the older provider).  [None]: index out of range. *)
Fixpoint classify (slot : nat -> option nat) (requiredModelVersion : Z)
    (i : nat) (vals : list (option string))
    (missing : list nat) (results : gmap nat (option T))
    : option (list nat * gmap nat (option T)) :=
  match vals with
  | [] => Some (missing, results)
  | None :: vals' =>
      k ← slot i;
      classify slot requiredModelVersion (S i) vals' (missing ++ [k]) results
  | Some toUnpack :: vals' =>
      match Unmarshal toUnpack with
      | None =>
          k ← slot i;
          classify slot requiredModelVersion (S i) vals' (missing ++ [k]) results
      | Some item =>
          if negb (GetCacheModelVersion item =? requiredModelVersion) then
            classify slot requiredModelVersion (S i) vals' missing results
          else
            k ← slot i;
            classify slot requiredModelVersion (S i) vals' missing
                     (<[k := Some item]> results)
      end
  end.

(** The collector loop over [respChannels]. *)
Fixpoint collect (resps : list redisChunkResponse)
    (missing : list nat) (results : gmap nat (option T))
    : list nat * gmap nat (option T) :=
  match resps with
  | [] => (missing, results)
  | resp :: rest =>
      match Error resp with
      | Some _ => collect rest missing results
      | None =>
          collect rest
            (if (0 <? Z.of_nat (length (Missing resp))) then missing ++ Missing resp else missing)
            (assign_all (Results resp) results)
      end
  end.

(** What one [MGet] hands back, with the batch commands it sent. *)
Record MGetOutcome : Type := mkOutcome {
  found : gmap nat (option T);
  missingKeys_out : list nat;
  err_out : option error;
  batch_calls : list (list string)
}.

(** *** provider_redis.go *)

(** One chunk goroutine: the command it sends and its response. *)
Definition fetch_chunk (r : RedisCache) (requiredModelVersion : Z)
    (chCopy : list nat) : option redisChunkResponse :=
  let strSlice := map (fun v => KeyOf (deref v)) chCopy in
  let cmd := client_MGet r strSlice in
  match cmd_Err cmd with
  | Some e => Some (mkResp (Some (errors_WithStack e)) [] ∅)
  | None =>
      '(missing, results) ← classify (fun i => chCopy !! i) requiredModelVersion
                                     O (cmd_Val cmd) [] ∅;
      Some (mkResp None missing results)
  end.

Definition MGet (r : RedisCache) (keys : list nat) (requiredModelVersion : Z)
    : option MGetOutcome :=
  chunks ← chunkBy keys (chunkSize r);
  resps ← mapM (fetch_chunk r requiredModelVersion) chunks;
  let '(missing, results) := collect resps [] ∅ in
  Some (mkOutcome results missing None
                  (map (map (fun v => KeyOf (deref v))) chunks)).

(** *** the older provider (go-redis v8): chunks of key strings, slots
    looked up in the whole [keys] slice *)

Definition fetch_chunk_v8 (r : RedisCache) (keys : list nat)
    (requiredModelVersion : Z) (chCopy : list string) : option redisChunkResponse :=
  let cmd := client_MGet r chCopy in
  match cmd_Err cmd with
  | Some e => Some (mkResp (Some (errors_WithStack e)) [] ∅)
  | None =>
      '(missing, results) ← classify (fun i => keys !! i) requiredModelVersion
                                     O (cmd_Val cmd) [] ∅;
      Some (mkResp None missing results)
  end.

Definition MGet_v8 (r : RedisCache) (keys : list nat) (requiredModelVersion : Z)
    : option MGetOutcome :=
  let toGet1 := map (fun k => KeyOf (deref k)) keys in
  chunks ← chunkBy toGet1 (chunkSize r);
  resps ← mapM (fetch_chunk_v8 r keys requiredModelVersion) chunks;
  let '(missing, results) := collect resps [] ∅ in
  Some (mkOutcome results missing None chunks).

(** A client over fixed store contents: the command fails as [fails] says,
    and otherwise returns one slot per requested key. *)
Definition store_client (store : string -> option string)
    (fails : list string -> option error) : list string -> SliceCmd :=
  fun ks =>
    match fails ks with
    | Some e => mkSliceCmd (Some e) []
    | None => mkSliceCmd None (map store ks)
    end.

(** [NewRedisCache]. *)
Definition NewRedisCache (client : list string -> SliceCmd) : RedisCache :=
  mkRedisCache client 100.

End Redis.
End provider_redis.

(** ** The orchestrator (cache.go, types.go, builder.go)

    A tier is an interface value: its methods act on the state [W] of
    whatever is behind the tiers and the origin.  Every call the
    orchestrator makes acts on the [world] of the run-time state and is
    recorded, with its arguments and what came back, in its [trace]: what
    a call did is read off the world, what was called and in which order
    off the trace.  The goroutine that [MGet]
    starts and does not wait for is recorded in [goroutines]; its body is
    [run_backfill], to be run at any later state and with the cache as it
    is then: the closure holds the pointer [c], and [c.builder.ttl] is read
    when the write is made. *)

Module cache.
Section Orchestrator.
Context {T V W : Type}.
Variable deref : nat -> Key V.

Record Provider : Type := mkProvider {
  provider_id : nat;
  provider_Get : Context -> nat -> Z -> W -> (option T * option error) * W;
  provider_MGet : Context -> list nat -> Z -> W ->
                  (gmap nat (option T) * list nat * option error) * W;
  provider_MSet : Context -> gmap string (option T) -> Z -> W -> option error * W
}.

Definition GetFromSourceFn : Type :=
  Context -> list nat -> W -> (gmap nat (option T) * option error) * W.
Definition GetSingleFromSourceFn : Type :=
  Context -> nat -> W -> (option T * option error) * W.

Record Builder : Type := mkBuilder {
  providers : list Provider;
  ttl : Z;
  modelVersion : Z
}.

Record Cache : Type := mkCache { builder : Builder }.

Record missingData : Type := mkMissingData {
  provider : Provider;
  missingKeys : list nat
}.

Inductive Event : Type :=
| EvGet (tier : nat) (ctx : Context) (key : nat) (version : Z)
        (v : option T) (err : option error)
| EvMGet (tier : nat) (ctx : Context) (keys : list nat) (version : Z)
         (found : gmap nat (option T)) (missing : list nat) (err : option error)
| EvMSet (tier : nat) (ctx : Context) (values : gmap string (option T)) (ttl : Z)
         (err : option error)
| EvSourceOne (ctx : Context) (key : nat) (v : option T) (err : option error)
| EvSource (ctx : Context) (keys : list nat)
           (values : gmap nat (option T)) (err : option error)
| EvLog (ctx : Context) (e : error).

(** The goroutine of [MGet]: what its closure captured, beside [c]. *)
Record Goroutine : Type := mkGoroutine {
  go_missingIn : list missingData;
  go_valuesFromSource : gmap nat (option T);
  go_ctx : Context
}.

Record RT : Type := mkRT {
  world : W;
  trace : list Event;
  goroutines : list Goroutine
}.

Definition emit (e : Event) (s : RT) : RT :=
  mkRT (world s) (trace s ++ [e]) (goroutines s).

Definition spawn (g : Goroutine) (s : RT) : RT :=
  mkRT (world s) (trace s) (goroutines s ++ [g]).

(** [zerolog.Ctx(ctx).Err(err).Send()] *)
Definition zerolog_Err (ctx : Context) (e : error) (s : RT) : RT :=
  emit (EvLog ctx e) s.

Definition call_Get (p : Provider) (ctx : Context) (key : nat) (version : Z)
    (s : RT) : (option T * option error) * RT :=
  let '((v, err), w) := provider_Get p ctx key version (world s) in
  ((v, err), emit (EvGet (provider_id p) ctx key version v err)
                  (mkRT w (trace s) (goroutines s))).

Definition call_MGet (p : Provider) (ctx : Context) (keys : list nat) (version : Z)
    (s : RT) : (gmap nat (option T) * list nat * option error) * RT :=
  let '((found, missing, err), w) := provider_MGet p ctx keys version (world s) in
  ((found, missing, err),
   emit (EvMGet (provider_id p) ctx keys version found missing err)
        (mkRT w (trace s) (goroutines s))).

Definition call_MSet (p : Provider) (ctx : Context)
    (values : gmap string (option T)) (ttl : Z) (s : RT) : option error * RT :=
  let '(err, w) := provider_MSet p ctx values ttl (world s) in
  (err, emit (EvMSet (provider_id p) ctx values ttl err)
             (mkRT w (trace s) (goroutines s))).

Definition call_single (fn : GetSingleFromSourceFn) (ctx : Context) (key : nat)
    (s : RT) : (option T * option error) * RT :=
  let '((v, err), w) := fn ctx key (world s) in
  ((v, err), emit (EvSourceOne ctx key v err) (mkRT w (trace s) (goroutines s))).

Definition call_source (fn : GetFromSourceFn) (ctx : Context) (keys : list nat)
    (s : RT) : (gmap nat (option T) * option error) * RT :=
  let '((values, err), w) := fn ctx keys (world s) in
  ((values, err), emit (EvSource ctx keys values err) (mkRT w (trace s) (goroutines s))).

(** *** Get *)

(** The loop over [c.builder.providers]. *)
Fixpoint Get_tiers (ps : list Provider) (ctx : Context) (key : nat) (version : Z)
    (missingIn : list Provider) (s : RT) : (option T * list Provider) * RT :=
  match ps with
  | [] => ((None, missingIn), s)
  | provider :: rest =>
      let '((v, err), s1) := call_Get provider ctx key version s in
      match err with
      | Some e => Get_tiers rest ctx key version missingIn (zerolog_Err ctx e s1)
      | None =>
          match v with
          | Some x => ((Some x, missingIn), s1)
          | None => Get_tiers rest ctx key version (missingIn ++ [provider]) s1
          end
      end
  end.

(** The loop [for _, m := range missingIn] of [Get]. *)
Fixpoint Get_write_back (missingIn : list Provider) (ctx : Context)
    (setMap : gmap string (option T)) (ttl : Z) (s : RT) : RT :=
  match missingIn with
  | [] => s
  | m :: rest =>
      let '(err, s1) := call_MSet m ctx setMap ttl s in
      Get_write_back rest ctx setMap ttl
        (match err with Some e => zerolog_Err ctx e s1 | None => s1 end)
  end.

(** From [if len(missingIn) > 0] to the end of [Get]. *)
Definition Get_finish (c : Cache) (ctx : Context) (key : nat)
    (missingIn : list Provider) (finalValue : option T) (s : RT)
    : (option T * option error) * RT :=
  let s' :=
    if 0 <? Z.of_nat (length missingIn) then
      let setMap : gmap string (option T) := {[ KeyOf (deref key) := finalValue ]} in
      Get_write_back missingIn ctx setMap (ttl (builder c)) s
    else s in
  ((finalValue, None), s').

Definition Get (c : Cache) (ctx : Context) (key : nat)
    (fn : option GetSingleFromSourceFn) (s : RT) : (option T * option error) * RT :=
  let '((finalValue, missingIn), s1) :=
    Get_tiers (providers (builder c)) ctx key (modelVersion (builder c)) [] s in
  match finalValue with
  | None =>
      match fn with
      | None => ((None, Some (errors_New "get single from source is not defined")), s1)
      | Some f =>
          let '((finalValue', err), s2) := call_single f ctx key s1 in
          match err with
          | Some e => ((None, Some (errors_Wrap e "can not get from source")), s2)
          | None => Get_finish c ctx key missingIn finalValue' s2
          end
      end
  | Some _ => Get_finish c ctx key missingIn finalValue s1
  end.

(** *** MGet *)

(** The loop over [c.builder.providers]; it returns [toQuery], [missingIn]
    and [finalResults] as the loop leaves them. *)
Fixpoint MGet_tiers (ps : list Provider) (ctx : Context) (version : Z)
    (toQuery : list nat) (missingIn : list missingData)
    (finalResults : gmap nat (option T)) (s : RT)
    : (list nat * list missingData * gmap nat (option T)) * RT :=
  match ps with
  | [] => ((toQuery, missingIn, finalResults), s)
  | p :: rest =>
      let '((found, missing, err), s1) := call_MGet p ctx toQuery version s in
      match err with
      | Some e =>
          MGet_tiers rest ctx version toQuery missingIn finalResults (zerolog_Err ctx e s1)
      | None =>
          let missingIn' :=
            if 0 <? Z.of_nat (length missing)
            then missingIn ++ [mkMissingData p missing] else missingIn in
          let finalResults' := assign_all found finalResults in
          if Z.of_nat (length missing) =? 0
          then ((missing, missingIn', finalResults'), s1)
          else MGet_tiers rest ctx version missing missingIn' finalResults' s1
      end
  end.

(** [toSet] of one [missingData], built by the inner loop of the goroutine. *)
Fixpoint build_toSet (ks : list nat) (valuesFromSource : gmap nat (option T))
    (toSet : gmap string (option T)) : gmap string (option T) :=
  match ks with
  | [] => toSet
  | k :: rest =>
      match valuesFromSource !! k with
      | Some v => build_toSet rest valuesFromSource (<[ KeyOf (deref k) := v ]> toSet)
      | None => build_toSet rest valuesFromSource toSet
      end
  end.

(** The body of the goroutine: [for _, m := range missingIn].  The write
    runs under [context.Background()], the log line under the caller's
    context. *)
Fixpoint backfill_loop (c : Cache) (missingIn : list missingData)
    (valuesFromSource : gmap nat (option T)) (ctx : Context) (s : RT) : RT :=
  match missingIn with
  | [] => s
  | m :: rest =>
      let toSet := build_toSet (missingKeys m) valuesFromSource ∅ in
      let '(err, s1) :=
        call_MSet (provider m) context_Background toSet (ttl (builder c)) s in
      backfill_loop c rest valuesFromSource ctx
        (match err with Some e => zerolog_Err ctx e s1 | None => s1 end)
  end.

(** The goroutine [g] run at the state [s], [c] being the cache as it is
    at that time. *)
Definition run_backfill (c : Cache) (g : Goroutine) (s : RT) : RT :=
  backfill_loop c (go_missingIn g) (go_valuesFromSource g) (go_ctx g) s.

(** From [if len(missingIn) > 0 && len(valuesFromSource) > 0] to the end. *)
Definition MGet_finish (c : Cache) (ctx : Context) (missingIn : list missingData)
    (valuesFromSource finalResults : gmap nat (option T)) (s : RT)
    : (gmap nat (option T) * option error) * RT :=
  let s' :=
    if (0 <? Z.of_nat (length missingIn)) && (0 <? Z.of_nat (size valuesFromSource))
    then spawn (mkGoroutine missingIn valuesFromSource ctx) s
    else s in
  ((finalResults, None), s').

Definition MGet (c : Cache) (ctx : Context) (keys : list nat)
    (fn : option GetFromSourceFn) (s : RT)
    : (gmap nat (option T) * option error) * RT :=
  let '((toQuery, missingIn, finalResults), s1) :=
    MGet_tiers (providers (builder c)) ctx (modelVersion (builder c)) keys [] ∅ s in
  if 0 <? Z.of_nat (length toQuery) then
    match fn with
    | None => ((∅, Some (errors_New "get single from source is not defined")), s1)
    | Some f =>
        let '((newValues, err), s2) := call_source f ctx toQuery s1 in
        match err with
        | Some e => ((∅, Some (errors_Wrap e "can not get from source")), s2)
        | None =>
            MGet_finish c ctx missingIn newValues (assign_all newValues finalResults) s2
        end
    end
  else MGet_finish c ctx missingIn ∅ finalResults s1.

(** *** MSet *)

Fixpoint MSet_loop (ps : list Provider) (ctx : Context)
    (records : gmap string (option T)) (ttl : Z)
    (finalErr : option error) (s : RT) : option error * RT :=
  match ps with
  | [] => (finalErr, s)
  | m :: rest =>
      let '(err, s1) := call_MSet m ctx records ttl s in
      MSet_loop rest ctx records ttl
        (match err with
         | Some e => Some (multierror_Append finalErr e)
         | None => finalErr
         end) s1
  end.

Definition MSet (c : Cache) (ctx : Context) (records : gmap string (option T))
    (s : RT) : option error * RT :=
  MSet_loop (providers (builder c)) ctx records (ttl (builder c)) None s.

(** *** builder.go *)

Definition time_Minute : Z := 60 * 1000000000.

Definition NewCacheBuilder (modelVersion : Z) (providers : list Provider) : Builder :=
  mkBuilder providers (5 * time_Minute) modelVersion.

Definition Build (b : Builder) : Cache := mkCache b.

Definition WithTtl (b : Builder) (ttl : Z) : Builder :=
  mkBuilder (providers b) ttl (modelVersion b).

(** *** Reading a trace *)

(** The writes: tier, context, values, ttl. *)
Definition mset_of (e : Event) : option (nat * Context * gmap string (option T) * Z) :=
  match e with
  | EvMSet tier ctx values ttl _ => Some (tier, ctx, values, ttl)
  | _ => None
  end.

(** The tiers whose [MGet] came back without error and with missing keys. *)
Definition miss_of (e : Event) : option (nat * list nat) :=
  match e with
  | EvMGet tier _ _ _ _ (k :: ks) None => Some (tier, k :: ks)
  | _ => None
  end.

Definition is_read (e : Event) : bool :=
  match e with
  | EvGet _ _ _ _ _ _ | EvMGet _ _ _ _ _ _ _ | EvLog _ _ => true
  | _ => false
  end.

Definition is_origin (e : Event) : bool :=
  match e with
  | EvSourceOne _ _ _ _ | EvSource _ _ _ _ => true
  | _ => false
  end.

Definition is_tier_call (e : Event) : bool :=
  match e with
  | EvGet _ _ _ _ _ _ | EvMGet _ _ _ _ _ _ _ | EvMSet _ _ _ _ _ => true
  | _ => false
  end.

End Orchestrator.
End cache.

(** ** Vocabulary of the statements *)

(** The errors a multi-error is made of; any other error stands for itself. *)
Definition flatten_error (e : error) : list error :=
  match e with
  | multierror_Error es => es
  | _ => [e]
  end.

(** The error that stands for a list of failures: nil for none, and
    otherwise one multi-error of all of them, in order. *)
Definition aggregate (failures : list error) : option error :=
  match failures with
  | [] => None
  | _ => Some (multierror_Error (failures ≫= flatten_error))
  end.

(** How the redis tier's batch path treats the slot of a key, given the
    store contents: absent or undecodable is missing, a decoded item of the
    required version is found, a decoded item of another version is left
    out of both. *)
Inductive slot_class (T : Type) : Type :=
| SlotMissing
| SlotFound (item : T)
| SlotDropped.
Arguments SlotMissing {T}.
Arguments SlotFound {T} _.
Arguments SlotDropped {T}.

Definition class_of {T V : Type} (GetCacheModelVersion : T -> Z)
    (Unmarshal : string -> option T) (deref : nat -> Key V)
    (store : string -> option string) (requiredModelVersion : Z) (k : nat)
    : slot_class T :=
  match store (KeyOf (deref k)) with
  | None => SlotMissing
  | Some b =>
      match Unmarshal b with
      | None => SlotMissing
      | Some item =>
          if GetCacheModelVersion item =? requiredModelVersion
          then SlotFound item else SlotDropped
      end
  end.

(** [missing] and [results] hold the keys of [seen], each by its class. *)
Definition classified {T : Type} (class : nat -> slot_class T) (seen : list nat)
    (missing : list nat) (results : gmap nat (option T)) : Prop :=
  (forall k, k ∈ missing <-> k ∈ seen /\ class k = SlotMissing) /\
  (forall k v, results !! k = Some v <->
               exists item, v = Some item /\ k ∈ seen /\ class k = SlotFound item).

(** The chunks whose batch command did not fail. *)
Definition chunk_ok {V : Type} (deref : nat -> Key V)
    (fails : list string -> option error) (chunk : list nat) : bool :=
  match fails (map (fun v => KeyOf (deref v)) chunk) with
  | None => true
  | Some _ => false
  end.

(** What a chunk goroutine answers, over fixed store contents: an error
    when its command failed, and otherwise the keys of its chunk by class. *)
Definition chunk_response {T V : Type} (GetCacheModelVersion : T -> Z)
    (Unmarshal : string -> option T) (deref : nat -> Key V)
    (store : string -> option string) (fails : list string -> option error)
    (requiredModelVersion : Z) (chunk : list nat)
    (resp : @provider_redis.redisChunkResponse T) : Prop :=
  if chunk_ok deref fails chunk
  then provider_redis.Error resp = None /\
       classified (class_of GetCacheModelVersion Unmarshal deref store requiredModelVersion)
                  chunk (provider_redis.Missing resp) (provider_redis.Results resp)
  else provider_redis.Error resp <> None.

Import cache.

(** ** Concrete tiers and origins, after the mocks of cache_one_level_test.go *)

Record EntityToCache : Type := mkEntity {
  Id : Z;
  Value : string;
  ModelVersion : Z
}.

Definition entity7 : EntityToCache := mkEntity 1 "random_content" 7.

(** Key number [n] has the [Key] string "key" followed by [n] primes. *)
Fixpoint primes (n : nat) : string :=
  match n with
  | O => EmptyString
  | S n' => "'" +:+ primes n'
  end.

Definition test_key (n : nat) : Key nat := mkKey ("key" +:+ primes n) n.

(** A tier with fixed answers. *)
Definition mock_provider (id : nat)
    (get : option EntityToCache * option error)
    (mget : list nat -> gmap nat (option EntityToCache) * list nat * option error)
    (mset : option error) : @Provider EntityToCache unit :=
  mkProvider id (fun _ _ _ w => (get, w)) (fun _ ks _ w => (mget ks, w))
             (fun _ _ _ w => (mset, w)).

Definition all_found (ks : list nat) : gmap nat (option EntityToCache) :=
  list_to_map (map (fun k => (k, Some entity7)) ks).

(** Nothing is cached; writes succeed. *)
Definition tier_absent (id : nat) : @Provider EntityToCache unit :=
  mock_provider id (None, None) (fun ks => (∅, ks, None)) None.

(** Everything is cached. *)
Definition tier_hit (id : nat) : @Provider EntityToCache unit :=
  mock_provider id (Some entity7, None) (fun ks => (all_found ks, [], None)) None.

(** Key 1 is cached, every other key is missing. *)
Definition tier_only_key1 (id : nat) : @Provider EntityToCache unit :=
  mock_provider id (None, None)
    (fun ks => ({[ 1%nat := Some entity7 ]}, filter (fun k => k <> 1%nat) ks, None)) None.

Definition origin_fails : @GetFromSourceFn EntityToCache unit :=
  fun _ _ w => ((∅, Some (external_error 2)), w).

Definition origin_all : @GetFromSourceFn EntityToCache unit :=
  fun _ ks w => ((all_found ks, None), w).

Definition cache_of (ps : list (@Provider EntityToCache unit)) : @Cache EntityToCache unit :=
  Build (NewCacheBuilder 7 ps).

Definition s0 : @RT EntityToCache unit := mkRT tt [] [].


(** ** Concrete store contents for the redis tier *)

(** A codec for the tests: "corrupt" does not decode, "old" decodes to an
    item of version 6, anything else to an item of version 7. *)
Definition test_Unmarshal (b : string) : option EntityToCache :=
  if decide (b = "corrupt") then None
  else if decide (b = "old") then Some (mkEntity 0 b 6)
  else Some (mkEntity 0 b 7).

Definition store_all : string -> option string :=
  fun _ => Some "random_content".

(** Only key 100 is stored. *)
Definition store_key100 : string -> option string :=
  fun s => if decide (s = KeyOf (test_key 100)) then Some "random_content" else None.

(** Key 1 holds an item of an old version, key 2 is absent. *)
Definition store_mixed : string -> option string :=
  fun s =>
    if decide (s = KeyOf (test_key 1)) then Some "old"
    else if decide (s = KeyOf (test_key 2)) then None
    else Some "random_content".

Definition no_failure : list string -> option error := fun _ => None.



(** ** More vocabulary for traces of the orchestrator *)

(** A tier [Get] that came back with a value and no error. *)
Definition is_hit {T : Type} (e : @Event T) : bool :=
  match e with
  | EvGet _ _ _ _ (Some _) None => true
  | _ => false
  end.

(** The maps a batch lookup was answered with: what a tier found, when it
    returned no error, and what the origin returned, when it did not fail. *)
Definition answer_of {T : Type} (e : @Event T) : option (gmap nat (option T)) :=
  match e with
  | EvMGet _ _ _ _ found _ None => Some found
  | EvSource _ _ values None => Some values
  | _ => None
  end.

(** The answers merged in order, a later answer overriding an earlier one. *)
Definition merge_answers {T : Type} (acc : gmap nat (option T))
    (answers : list (gmap nat (option T))) : gmap nat (option T) :=
  foldl (fun acc m => m ∪ acc) acc answers.

(** The order of questions in a batch lookup that starts with the keys [q]:
    a tier is asked [q]; after a tier that failed the next is asked the same
    keys; after a tier that reported missing keys the next is asked exactly
    those; after a tier that reported none nothing more is asked; the
    origin is asked last, and only for a non-empty [q]. *)
Fixpoint asks_chain {T : Type} (q : list nat) (evs : list (@Event T)) : Prop :=
  match evs with
  | [] => True
  | EvMGet _ _ ks _ _ missing err :: rest =>
      ks = q /\
      match err, missing with
      | Some _, _ => asks_chain q rest
      | None, [] => rest = []
      | None, _ => asks_chain missing rest
      end
  | EvSource _ ks _ _ :: rest => ks = q /\ q <> [] /\ rest = []
  | EvLog _ _ :: rest => asks_chain q rest
  | _ :: _ => False
  end.

(** ** The calls of a run

    What the orchestrator does to the tiers is stated on the tiers' own
    functions: [provider_Get], [provider_MGet] and [provider_MSet] applied
    one after the other, each in the world the call before it left. *)

Section Runs.
Context {T V W : Type}.

(** A tier's answer to [Get]: a value and no error. *)
Definition is_hit_answer (a : option T * option error) : bool :=
  match a with
  | (Some _, None) => true
  | _ => false
  end.

(** A tier's answer to [Get]: no value and no error. *)
Definition is_absent_answer (a : option T * option error) : bool :=
  match a with
  | (None, None) => true
  | _ => false
  end.

(** [Get] of the tiers [ps], called in order from the world [w], returned
    [answers] and left the world [w']. *)
Fixpoint gets_chain (ps : list (@Provider T W)) (ctx : Context) (key : nat) (version : Z)
    (w : W) (answers : list (option T * option error)) (w' : W) : Prop :=
  match ps, answers with
  | [], [] => w' = w
  | p :: ps', a :: answers' =>
      exists w1 : W,
        provider_Get p ctx key version w = (a, w1) /\
        gets_chain ps' ctx key version w1 answers' w'
  | _, _ => False
  end.

(** The log line that follows a call that returned an error. *)
Definition log_of (ctx : Context) (err : option error) : list (@Event T) :=
  match err with
  | Some e => [EvLog ctx e]
  | None => []
  end.

(** The events of these calls. *)
Fixpoint get_events (ps : list (@Provider T W)) (ctx : Context) (key : nat) (version : Z)
    (answers : list (option T * option error)) : list (@Event T) :=
  match ps, answers with
  | p :: ps', a :: answers' =>
      EvGet (provider_id p) ctx key version a.1 a.2 ::
      log_of ctx a.2 ++ get_events ps' ctx key version answers'
  | _, _ => []
  end.

(** The tiers among [ps] that answered absent. *)
Fixpoint absent_tiers (ps : list (@Provider T W))
    (answers : list (option T * option error)) : list (@Provider T W) :=
  match ps, answers with
  | p :: ps', a :: answers' =>
      if is_absent_answer a then p :: absent_tiers ps' answers'
      else absent_tiers ps' answers'
  | _, _ => []
  end.

(** [MSet] of the tiers of [writes], each with its own map, called in order
    from the world [w], returned [results] and left the world [w']. *)
Fixpoint msets_chain (ctx : Context) (ttl : Z)
    (writes : list (@Provider T W * gmap string (option T)))
    (w : W) (results : list (option error)) (w' : W) : Prop :=
  match writes, results with
  | [], [] => w' = w
  | pv :: writes', r :: results' =>
      exists w1 : W,
        provider_MSet pv.1 ctx pv.2 ttl w = (r, w1) /\
        msets_chain ctx ttl writes' w1 results' w'
  | _, _ => False
  end.

(** The events of these writes, a failure being logged under [lctx]. *)
Fixpoint mset_events (ctx lctx : Context) (ttl : Z)
    (writes : list (@Provider T W * gmap string (option T)))
    (results : list (option error)) : list (@Event T) :=
  match writes, results with
  | pv :: writes', r :: results' =>
      EvMSet (provider_id pv.1) ctx pv.2 ttl r ::
      log_of lctx r ++ mset_events ctx lctx ttl writes' results'
  | _, _ => []
  end.

(** A tier's answer to [MGet] that ends the lookup: no error and nothing
    missing. *)
Definition is_final_answer (a : gmap nat (option T) * list nat * option error) : bool :=
  match a with
  | (_, [], None) => true
  | _ => false
  end.

(** What is asked after the answer [a] to the question [q]. *)
Definition next_question (q : list nat)
    (a : gmap nat (option T) * list nat * option error) : list nat :=
  match a.2 with
  | Some _ => q
  | None => a.1.2
  end.

(** [MGet] of the tiers [ps], called in order from the world [w], the first
    with the question [q] and each later one with what the answer before it
    leaves to ask, returned [answers] and left the question [q'] and the
    world [w']. *)
Fixpoint mgets_chain (ps : list (@Provider T W)) (ctx : Context) (version : Z)
    (q : list nat) (w : W)
    (answers : list (gmap nat (option T) * list nat * option error))
    (q' : list nat) (w' : W) : Prop :=
  match ps, answers with
  | [], [] => q' = q /\ w' = w
  | p :: ps', a :: answers' =>
      exists w1 : W,
        provider_MGet p ctx q version w = (a, w1) /\
        mgets_chain ps' ctx version (next_question q a) w1 answers' q' w'
  | _, _ => False
  end.

(** The events of these calls. *)
Fixpoint mget_events (ps : list (@Provider T W)) (ctx : Context) (version : Z)
    (q : list nat) (answers : list (gmap nat (option T) * list nat * option error))
    : list (@Event T) :=
  match ps, answers with
  | p :: ps', a :: answers' =>
      EvMGet (provider_id p) ctx q version a.1.1 a.1.2 a.2 ::
      log_of ctx a.2 ++ mget_events ps' ctx version (next_question q a) answers'
  | _, _ => []
  end.

(** The tiers among [ps] that answered without error and with missing
    keys, each with the keys it reported. *)
Fixpoint recorded_misses (ps : list (@Provider T W))
    (answers : list (gmap nat (option T) * list nat * option error))
    : list (@missingData T W) :=
  match ps, answers with
  | p :: ps', a :: answers' =>
      match a.2, a.1.2 with
      | None, _ :: _ => mkMissingData p a.1.2 :: recorded_misses ps' answers'
      | _, _ => recorded_misses ps' answers'
      end
  | _, _ => []
  end.

(** What the tiers that did not fail reported found, a later tier
    overriding an earlier one. *)
Definition tiers_found (acc : gmap nat (option T))
    (answers : list (gmap nat (option T) * list nat * option error))
    : gmap nat (option T) :=
  foldl (fun acc a => match a.2 with
                      | None => assign_all a.1.1 acc
                      | Some _ => acc
                      end) acc answers.

(** The tier loop of a batch lookup is over after [answers], with [rest]
    not asked: the last answer is the first that ends the lookup, or no
    answer does and no tier is left. *)
Definition lookup_over (rest : list (@Provider T W))
    (answers : list (gmap nat (option T) * list nat * option error)) : Prop :=
  (exists pre a, answers = pre ++ [a] /\
                 Forall (fun x => is_final_answer x = false) pre /\
                 is_final_answer a = true)
  \/
  (rest = [] /\ Forall (fun x => is_final_answer x = false) answers).

(** The maps the backfill writes: for each recorded miss, its tier and the
    map built from its keys. *)
Definition backfill_writes (deref : nat -> Key V) (misses : list (@missingData T W))
    (values : gmap nat (option T)) : list (@Provider T W * gmap string (option T)) :=
  map (fun m => (provider m, build_toSet deref (missingKeys m) values ∅)) misses.

End Runs.

(** A tier backed by a map from [Key] strings to values, in the state
    behind the tiers: a lookup checks the version, a write stores every
    entry. *)
Definition map_tier {V : Type} (deref : nat -> Key V) (id : nat)
    : @Provider EntityToCache (gmap string (option EntityToCache)) :=
  mkProvider id
    (fun _ key version w =>
       match w !! KeyOf (deref key) with
       | Some (Some item) =>
           if ModelVersion item =? version then ((Some item, None), w)
           else ((None, None), w)
       | _ => ((None, None), w)
       end)
    (fun _ ks _ w => ((∅, ks, None), w))
    (fun _ values _ w => (None, values ∪ w)).

Definition origin_single_entity7
    : @GetSingleFromSourceFn EntityToCache (gmap string (option EntityToCache)) :=
  fun _ _ w => ((Some entity7, None), w).

(** A tier write or a log line. *)
Definition is_write {T : Type} (e : @Event T) : bool :=
  match e with
  | EvMSet _ _ _ _ _ | EvLog _ _ => true
  | _ => false
  end.

Definition origin_single_fails : @GetSingleFromSourceFn EntityToCache unit :=
  fun _ _ w => ((None, Some (external_error 2)), w).

(** A tier whose reads fail. *)
Definition tier_fails (id : nat) : @Provider EntityToCache unit :=
  mock_provider id (None, Some (external_error 4))
    (fun ks => (∅, [], Some (external_error 4))) None.

(** ** Tiers over two stores

    Two maps from [Key] strings to values stand behind the tiers; a tier
    reads and writes one of them. *)

Definition two_stores : Type :=
  (gmap string (option EntityToCache) * gmap string (option EntityToCache))%type.

Definition store_of (second : bool) (w : two_stores) : gmap string (option EntityToCache) :=
  if second then w.2 else w.1.

Definition store_put (second : bool) (m : gmap string (option EntityToCache))
    (w : two_stores) : two_stores :=
  if second then (w.1, m) else (m, w.2).

(** What a store has for a key, at the given version. *)
Definition store_lookup {V : Type} (deref : nat -> Key V) (version : Z)
    (m : gmap string (option EntityToCache)) (key : nat) : option EntityToCache :=
  match m !! KeyOf (deref key) with
  | Some (Some item) => if ModelVersion item =? version then Some item else None
  | _ => None
  end.

(** A tier on the first or the second store: a lookup needs the version to
    match, a batch lookup reports the keys it has nothing for as missing,
    a write stores every entry and then returns [write_err]. *)
Definition store_tier {V : Type} (deref : nat -> Key V) (id : nat) (second : bool)
    (write_err : option error) : @Provider EntityToCache two_stores :=
  mkProvider id
    (fun _ key version w => ((store_lookup deref version (store_of second w) key, None), w))
    (fun _ ks version w =>
       ((list_to_map
           (omap (fun k => option_map (fun item => (k, Some item))
                             (store_lookup deref version (store_of second w) k)) ks),
         List.filter (fun k => match store_lookup deref version (store_of second w) k with
                               | None => true
                               | Some _ => false
                               end) ks,
         None), w))
    (fun _ values _ w => (write_err, store_put second (values ∪ store_of second w) w)).

Definition origin2_single (v : option EntityToCache)
    : @GetSingleFromSourceFn EntityToCache two_stores :=
  fun _ _ w => ((v, None), w).

Definition origin2_all : @GetFromSourceFn EntityToCache two_stores :=
  fun _ ks w => ((all_found ks, None), w).

Definition cache2 (ps : list (@Provider EntityToCache two_stores))
    : @Cache EntityToCache two_stores :=
  Build (NewCacheBuilder 7 ps).

(** The first tier writes with an error, the second without. *)
Definition tier_a : @Provider EntityToCache two_stores :=
  store_tier test_key 1 false (Some (external_error 1)).

Definition tier_b : @Provider EntityToCache two_stores :=
  store_tier test_key 2 true None.

Definition key1_entity7 : gmap string (option EntityToCache) :=
  {[ KeyOf (test_key 1) := Some entity7 ]}.

Definition key1_nil : gmap string (option EntityToCache) :=
  {[ KeyOf (test_key 1) := None ]}.

Definition key2_entity7 : gmap string (option EntityToCache) :=
  {[ KeyOf (test_key 2) := Some entity7 ]}.

Definition keys12_entity7 : gmap string (option EntityToCache) :=
  {[ KeyOf (test_key 1) := Some entity7; KeyOf (test_key 2) := Some entity7 ]}.

(** Both stores empty; the second store has key 1. *)
Definition s_empty : @RT EntityToCache two_stores := mkRT (∅, ∅) [] [].

Definition s_second_has_key1 : @RT EntityToCache two_stores :=
  mkRT (∅, key1_entity7) [] [].

(** ** The redis tier: Get and MSet (provider_redis.go, and the MSet of the
    older provider)

    [errors.Is(err, redis.Nil)] is the parameter [is_redis_Nil]; the codec
    is [Unmarshal] and [Marshal], with the error they return.  [for k, v :=
    range values] visits the entries in an order Go does not fix: the loops
    below take the order as a list, and the statements are about every
    order that is a permutation of the entries of the map. *)

(** What [client.Get(ctx, key)] hands back: [cmd.Err()] and [cmd.Bytes()]. *)
Record StringCmd : Type := mkStringCmd {
  str_Err : option error;
  str_Bytes : string * option error
}.

(** A command of the redis client, as the tier sends it. *)
Inductive RedisCommand : Type :=
| CmdTxSet (key : string) (value : string) (ttl : Z)     (* [pipe.Set] inside [TxPipelined] *)
| CmdMSet (ctx : Context) (finalArr : list string)       (* [client.MSet] *)
| CmdExpire (ctx : Context) (key : string) (ttl : Z).    (* [client.Expire] *)

(** [errors.Wrap(err, msg)], which is nil for a nil [err]. *)
Definition errors_Wrap_nilable (err : option error) (msg : string) : option error :=
  match err with
  | None => None
  | Some e => Some (errors_Wrap e msg)
  end.

Module redis_tier.
Section RedisTier.
Context {T V S : Type}.
Variable GetCacheModelVersion : T -> Z.
Variable Unmarshal : string -> error + T.
Variable Marshal : option T -> error + string.
Variable is_redis_Nil : error -> bool.
Variable deref : nat -> Key V.

(** [RedisCache.Get], the same in both providers. *)
Definition Get (client_Get : string -> StringCmd) (key : nat)
    (requiredModelVersion : Z) : option T * option error :=
  let cmd := client_Get (KeyOf (deref key)) in
  match str_Err cmd with
  | Some e =>
      if is_redis_Nil e then (None, None)
      else (None, Some (errors_WithStack e))
  | None =>
      let '(bts, err) := str_Bytes cmd in
      match err with
      | Some e => (None, Some (errors_WithStack e))
      | None =>
          match Unmarshal bts with
          | inl e => (None, Some (errors_WithStack e))
          | inr item =>
              if negb (GetCacheModelVersion item =? requiredModelVersion)
              then (None, None)
              else (Some item, None)
          end
      end
  end.

(** The body of the function given to [TxPipelined]: the commands it puts
    on the pipeline and the errors it logs. *)
Fixpoint MSet_queue (order : list (string * option T)) (ttl : Z)
    (pipe : list RedisCommand) (logged : list error)
    : list RedisCommand * list error :=
  match order with
  | [] => (pipe, logged)
  | (k, v) :: rest =>
      match Marshal v with
      | inl e => MSet_queue rest ttl pipe (logged ++ [e])
      | inr b => MSet_queue rest ttl (pipe ++ [CmdTxSet k b ttl]) logged
      end
  end.

(** [RedisCache.MSet] of provider_redis.go; [TxPipelined] runs the queued
    commands as one transaction on the state [S] of the server.  The result
    is the error, the transaction that was sent and the errors logged. *)
Definition MSet (TxPipelined : list RedisCommand -> S -> option error * S)
    (order : list (string * option T)) (ttl : Z) (st : S)
    : (option error * list RedisCommand * list error) * S :=
  let '(pipe, logged) := MSet_queue order ttl [] [] in
  let '(err, st') := TxPipelined pipe st in
  ((err, pipe, logged), st').

(** The first loop of the older [MSet]. *)
Fixpoint MSet_v8_collect (order : list (string * option T))
    (multiErr : option error) (finalArr : list string)
    : option error * list string :=
  match order with
  | [] => (multiErr, finalArr)
  | (k, v) :: rest =>
      match Marshal v with
      | inl e =>
          MSet_v8_collect rest
            (Some (multierror_Append multiErr (errors_WithStack e))) finalArr
      | inr b => MSet_v8_collect rest multiErr (finalArr ++ [k; b])
      end
  end.

(** The last loop of the older [MSet]: one [Expire] per key of [values]. *)
Fixpoint MSet_v8_expire (client_Expire : Context -> string -> Z -> S -> option error * S)
    (keys : list string) (ttl : Z) (sent : list RedisCommand) (logged : list error)
    (st : S) : (list RedisCommand * list error) * S :=
  match keys with
  | [] => ((sent, logged), st)
  | key :: rest =>
      let '(err, st') := client_Expire context_Background key ttl st in
      MSet_v8_expire client_Expire rest ttl
        (sent ++ [CmdExpire context_Background key ttl])
        (match err with Some e => logged ++ [e] | None => logged end) st'
  end.

(** [RedisCache.MSet] of the older provider; [order] and [order2] are the
    orders of its two loops over [values].  The result is the error, the
    commands sent and the errors logged. *)
Definition MSet_v8
    (client_MSet : Context -> list string -> S -> option error * S)
    (client_Expire : Context -> string -> Z -> S -> option error * S)
    (ctx : Context) (order order2 : list (string * option T)) (ttl : Z) (st : S)
    : (option error * list RedisCommand * list error) * S :=
  let '(multiErr, finalArr) := MSet_v8_collect order None [] in
  if Z.of_nat (length finalArr) =? 0 then
    ((errors_Wrap_nilable multiErr "no items to continue", [], []), st)
  else
    let '(err, st1) := client_MSet ctx finalArr st in
    match err with
    | Some e => ((Some (errors_WithStack e), [CmdMSet ctx finalArr], [e]), st1)
    | None =>
        let '((sent, logged), st2) :=
          MSet_v8_expire client_Expire (map fst order2) ttl [CmdMSet ctx finalArr] [] st1 in
        ((None, sent, logged), st2)
    end.

(** A client over fixed store contents, for single reads: [redis_Nil] for
    an absent key. *)
Definition store_get (redis_Nil : error) (store : string -> option string)
    (fails : string -> option error) : string -> StringCmd :=
  fun k =>
    match fails k with
    | Some e => mkStringCmd (Some e) (EmptyString, Some e)
    | None =>
        match store k with
        | None => mkStringCmd (Some redis_Nil) (EmptyString, Some redis_Nil)
        | Some b => mkStringCmd None (b, None)
        end
    end.

End RedisTier.
End redis_tier.

(** The decoder the batch path sees: the item, or nothing. *)
Definition decoded {T : Type} (Unmarshal : string -> error + T) (b : string) : option T :=
  match Unmarshal b with
  | inr item => Some item
  | inl _ => None
  end.

(** What a batch answer may hold when every key it was asked satisfies
    [P]: only such keys, and only items of the required version. *)
Definition sound_batch {T : Type} (GetCacheModelVersion : T -> Z)
    (requiredModelVersion : Z) (P : nat -> Prop)
    (missing : list nat) (results : gmap nat (option T)) : Prop :=
  (forall k, k ∈ missing -> P k) /\
  (forall k v, results !! k = Some v ->
     P k /\ exists item, v = Some item /\ GetCacheModelVersion item = requiredModelVersion).

(** The key has no stored value, or one that does not decode. *)
Definition absent_or_undecodable {T V : Type} (Unmarshal : string -> error + T)
    (deref : nat -> Key V) (store : string -> option string) (k : nat) : bool :=
  match store (KeyOf (deref k)) with
  | None => true
  | Some b =>
      match Unmarshal b with
      | inl _ => true
      | inr _ => false
      end
  end.

(** The [Set] an entry puts on the pipeline, if its value marshals, and the
    error it logs, if not. *)
Definition queued_set {T : Type} (Marshal : option T -> error + string) (ttl : Z)
    (kv : string * option T) : option RedisCommand :=
  match Marshal kv.2 with
  | inr b => Some (CmdTxSet kv.1 b ttl)
  | inl _ => None
  end.

Definition marshal_error {T : Type} (Marshal : option T -> error + string)
    (kv : string * option T) : option error :=
  match Marshal kv.2 with
  | inr _ => None
  | inl e => Some e
  end.

(** The key and the bytes an entry adds to [finalArr] in the older [MSet]. *)
Definition final_pair {T : Type} (Marshal : option T -> error + string)
    (kv : string * option T) : list string :=
  match Marshal kv.2 with
  | inr b => [kv.1; b]
  | inl _ => []
  end.

(** A redis server as far as [SET] goes: the transaction is applied in
    order, each [Set] overwriting the value of its key. *)
Definition server_apply (st : gmap string string) (cmd : RedisCommand)
    : gmap string string :=
  match cmd with
  | CmdTxSet k b _ => <[k := b]> st
  | _ => st
  end.

Definition server_TxPipelined (pipe : list RedisCommand) (st : gmap string string)
    : option error * gmap string string :=
  (None, foldl server_apply st pipe).

(** Single reads on that server. *)
Definition server_Get (redis_Nil : error) (st : gmap string string) : string -> StringCmd :=
  redis_tier.store_get redis_Nil (fun k => st !! k) (fun _ => None).

(** ** A concrete codec and server for the redis tier *)

Definition entity0 : EntityToCache := mkEntity 0 "random_content" 7.

(** An entity the test codec refuses to marshal. *)
Definition entity_bad : EntityToCache := mkEntity 0 "unmarshalable" 7.

Definition test_Unmarshal_err (b : string) : error + EntityToCache :=
  match test_Unmarshal b with
  | Some item => inr item
  | None => inl (external_error 9)
  end.

Definition test_Marshal (v : option EntityToCache) : error + string :=
  match v with
  | None => inr "nil"
  | Some item =>
      if decide (Value item = "unmarshalable") then inl (external_error 8)
      else inr (Value item)
  end.

Definition test_redis_Nil : error := external_error 0.

Definition test_is_redis_Nil (e : error) : bool :=
  match e with
  | external_error O => true
  | _ => false
  end.

(** A client whose [MSet] and [Expire] succeed and change nothing. *)
Definition quiet_MSet : Context -> list string -> unit -> option error * unit :=
  fun _ _ st => (None, st).

Definition quiet_Expire : Context -> string -> Z -> unit -> option error * unit :=
  fun _ _ _ st => (None, st).

(** Entry "a" marshals, entry "b" does not. *)
Definition values_ab : gmap string (option EntityToCache) :=
  {[ "a" := Some entity0; "b" := Some entity_bad ]}.

Definition values_key1 : gmap string (option EntityToCache) :=
  {[ KeyOf (test_key 1) := Some entity0 ]}.

(** ** The in-process tier (the LRU provider)

    The LRU itself is the library's: [lru_NewLRU], [lru_Get] and [lru_Add]
    stand for [expirable.NewLRU], [LRU.Get] and [LRU.Add], acting on the
    state [L] of the LRU.  A stored value is a pointer to [T] and may be
    nil; dereferencing a nil item panics, which is [None] below. *)

Definition DefaultLRUCacheSize : Z := 10000.
Definition DefaultLRUCacheTTL : Z := 1 * (60 * (60 * 1000000000)).
Definition DefaultChunkSize : Z := 100.

Module lru_tier.
Section LRUTier.
Context {T V L : Type}.
Variable GetCacheModelVersion : T -> Z.
Variable deref : nat -> Key V.
Variable lru_NewLRU : Z -> Z -> L.
Variable lru_Get : string -> L -> option (option T) * L.
Variable lru_Add : string -> option T -> L -> bool * L.

Record LRUCache : Type := mkLRUCache { chunkSize : Z }.

(** [NewLRUCache]: the tier and the state of its fresh LRU. *)
Definition NewLRUCache (size : Z) : LRUCache * L :=
  let size' := if size <=? 0 then DefaultLRUCacheSize else size in
  let lruInstance := lru_NewLRU size' DefaultLRUCacheTTL in
  (mkLRUCache DefaultChunkSize, lruInstance).

Definition Get (key : nat) (requiredModelVersion : Z) (l : L)
    : option ((option T * option error) * L) :=
  let '(r, l1) := lru_Get (KeyOf (deref key)) l in
  match r with
  | None => Some ((None, None), l1)
  | Some item =>
      match item with
      | None => None
      | Some x =>
          if negb (GetCacheModelVersion x =? requiredModelVersion)
          then Some ((None, None), l1)
          else Some ((item, None), l1)
      end
  end.

(** The loop of [MGet]. *)
Fixpoint MGet_loop (keys : list nat) (requiredModelVersion : Z)
    (foundItems : gmap nat (option T)) (missingKeys : list nat) (l : L)
    : option ((gmap nat (option T) * list nat * option error) * L) :=
  match keys with
  | [] => Some ((foundItems, missingKeys, None), l)
  | keyEntry :: rest =>
      let '(r, l1) := lru_Get (KeyOf (deref keyEntry)) l in
      match r with
      | None => MGet_loop rest requiredModelVersion foundItems (missingKeys ++ [keyEntry]) l1
      | Some item =>
          match item with
          | None => None
          | Some x =>
              if negb (GetCacheModelVersion x =? requiredModelVersion)
              then MGet_loop rest requiredModelVersion foundItems
                             (missingKeys ++ [keyEntry]) l1
              else MGet_loop rest requiredModelVersion
                             (<[keyEntry := item]> foundItems) missingKeys l1
          end
      end
  end.

Definition MGet (keys : list nat) (requiredModelVersion : Z) (l : L)
    : option ((gmap nat (option T) * list nat * option error) * L) :=
  MGet_loop keys requiredModelVersion ∅ [] l.

(** [MSet]; [order] is the order in which the loop visits [values].  The
    [ttl] is not used. *)
Fixpoint MSet (order : list (string * option T)) (ttl : Z) (l : L) : option error * L :=
  match order with
  | [] => (None, l)
  | (k, v) :: rest => MSet rest ttl (lru_Add k v l).2
  end.

End LRUTier.
End lru_tier.

(** What the LRU answers for the key, as the tier reads it: a hit is a
    non-nil item of the required version. *)
Definition lru_hit {T V L : Type} (GetCacheModelVersion : T -> Z) (deref : nat -> Key V)
    (lru_Get : string -> L -> option (option T) * L)
    (requiredModelVersion : Z) (l : L) (k : nat) : bool :=
  match (lru_Get (KeyOf (deref k)) l).1 with
  | Some (Some x) => GetCacheModelVersion x =? requiredModelVersion
  | _ => false
  end.

(** An unbounded association list standing for the LRU in examples. *)
Definition assoc_Get (k : string) (l : list (string * option EntityToCache))
    : option (option EntityToCache) * list (string * option EntityToCache) :=
  (snd <$> List.find (fun kv => bool_decide (kv.1 = k)) l, l).

Definition assoc_Add (k : string) (v : option EntityToCache)
    (l : list (string * option EntityToCache))
    : bool * list (string * option EntityToCache) :=
  (false, (k, v) :: l).

(** An LRU that holds [entity7] under the [Key] string of key 1. *)
Definition lru_with_key1 : list (string * option EntityToCache) :=
  [(KeyOf (test_key 1), Some entity7)].

(** ** builder.go with the builder on the heap

    [NewCacheBuilder] returns a pointer to a fresh [Builder], [WithTtl]
    writes through that pointer and returns it, and [Build] stores the
    pointer in the [Cache]: a cache and its builder share the record.  The
    heap maps the address of a builder to its record; [None] is the panic
    of a dangling address. *)
Module builder_heap.
Section BuilderHeap.
Context {T W : Type}.

Record CachePtr : Type := mkCachePtr { builder_ptr : nat }.

Definition NewCacheBuilder (modelVersion : Z) (providers : list (@Provider T W))
    (h : gmap nat (@Builder T W)) : nat * gmap nat (@Builder T W) :=
  let b := fresh (dom h) in
  (b, <[b := cache.NewCacheBuilder modelVersion providers]> h).

Definition Build (b : nat) : CachePtr := mkCachePtr b.

Definition WithTtl (b : nat) (ttl : Z) (h : gmap nat (@Builder T W))
    : option (nat * gmap nat (@Builder T W)) :=
  bd ← h !! b;
  Some (b, <[b := mkBuilder (providers bd) ttl (modelVersion bd)]> h).

(** The cache as the methods of [Cache] see it in the heap [h]. *)
Definition load (h : gmap nat (@Builder T W)) (c : CachePtr) : option (@Cache T W) :=
  mkCache <$> h !! builder_ptr c.

End BuilderHeap.
End builder_heap.


Section OrchestratorFacts.
Context {T V W : Type}.
Variable deref : nat -> Key V.

Local Abbreviation Provider := (@Provider T W).
Local Abbreviation RT := (@RT T W).
Local Abbreviation Event := (@Event T).

Lemma multierror_Append_aggregate (fs : list error) (e : error) :
  Some (multierror_Append (aggregate fs) e) = aggregate (fs ++ [e]).
Proof.
  unfold multierror_Append, aggregate.
  destruct fs as [|f fs]; simpl.
  - rewrite app_nil_r. reflexivity.
  - rewrite !bind_app. simpl. rewrite app_nil_r.
    rewrite <- app_assoc. reflexivity.
Qed.

Lemma MSet_loop_spec (ps : list Provider) ctx records ttl0 (fs : list error) (s : RT) :
  exists results : list (option error),
    length results = length ps /\
    trace (MSet_loop ps ctx records ttl0 (aggregate fs) s).2 =
      trace s ++ zip_with (fun p r => EvMSet (provider_id p) ctx records ttl0 r) ps results /\
    goroutines (MSet_loop ps ctx records ttl0 (aggregate fs) s).2 = goroutines s /\
    (MSet_loop ps ctx records ttl0 (aggregate fs) s).1 = aggregate (fs ++ omap id results).
Proof.
  revert fs s. induction ps as [|m rest IH]; intros fs s.
  - exists []. simpl. rewrite !app_nil_r. auto.
  - simpl. unfold call_MSet.
    destruct (provider_MSet m ctx records ttl0 (world s)) as [err w] eqn:Hm.
    destruct err as [e|].
    + rewrite multierror_Append_aggregate.
      edestruct (IH (fs ++ [e])) as (results & Hlen & Htr & Hgo & Herr).
      exists (Some e :: results). simpl.
      rewrite Htr, Hgo, Herr. simpl. rewrite <- !app_assoc. simpl.
      repeat split; auto.
    + edestruct (IH fs) as (results & Hlen & Htr & Hgo & Herr).
      exists (None :: results). simpl.
      rewrite Htr, Hgo, Herr. simpl. rewrite <- !app_assoc. simpl.
      repeat split; auto.
Qed.

Lemma aggregate_None (fs : list error) : aggregate fs = None <-> fs = [].
Proof. destruct fs; simpl; split; intros; congruence. Qed.

Lemma omap_id_nil {A} (l : list (option A)) :
  omap id l = [] <-> Forall (fun r => r = None) l.
Proof.
  induction l as [|[a|] l IH]; simpl.
  - split; auto.
  - split; [discriminate | intros H; inversion H; discriminate].
  - rewrite IH. split; [intros; constructor; auto | intros H; inversion H; auto].
Qed.

(** *** The loops, run on the tiers' own answers *)

Lemma RT_eta (s : RT) : mkRT (world s) (trace s) (goroutines s) = s.
Proof. destruct s; reflexivity. Qed.

Lemma msets_chain_total ctx ttl0 (writes : list (Provider * gmap string (option T))) (w : W) :
  exists (results : list (option error)) (w' : W), msets_chain ctx ttl0 writes w results w'.
Proof.
  revert w. induction writes as [|pv writes IH]; intros w.
  - exists [], w. reflexivity.
  - destruct (provider_MSet pv.1 ctx pv.2 ttl0 w) as [r w1] eqn:Hm.
    destruct (IH w1) as (results & w' & Hch).
    exists (r :: results), w'. simpl. eauto.
Qed.

Lemma msets_chain_length ctx ttl0 (writes : list (Provider * gmap string (option T)))
    (w : W) results w' :
  msets_chain ctx ttl0 writes w results w' -> length results = length writes.
Proof.
  revert w results. induction writes as [|pv writes IH]; intros w [|r results]; simpl;
    try contradiction; auto.
  intros (w1 & _ & Hch). f_equal. eapply IH; eauto.
Qed.

Lemma MSet_loop_run (ps : list Provider) ctx records ttl0 (fs : list error) (s : RT)
    results w' :
  msets_chain ctx ttl0 (map (fun p => (p, records)) ps) (world s) results w' ->
  MSet_loop ps ctx records ttl0 (aggregate fs) s =
    (aggregate (fs ++ omap id results),
     mkRT w' (trace s ++ zip_with (fun p r => EvMSet (provider_id p) ctx records ttl0 r)
                                  ps results)
          (goroutines s)).
Proof.
  revert fs s results. induction ps as [|m rest IH]; intros fs s [|r results]; simpl;
    try contradiction.
  - intros ->. rewrite !app_nil_r, RT_eta. reflexivity.
  - intros (w1 & Hm & Hch). unfold call_MSet. rewrite Hm.
    destruct r as [e|].
    + rewrite multierror_Append_aggregate.
      rewrite (IH (fs ++ [e]) _ results) by exact Hch.
      simpl. rewrite <- !app_assoc. reflexivity.
    + rewrite (IH fs _ results) by exact Hch.
      simpl. rewrite <- !app_assoc. reflexivity.
Qed.

Lemma Get_write_back_run (mi : list Provider) ctx setMap ttl0 (s : RT) results w' :
  msets_chain ctx ttl0 (map (fun m => (m, setMap)) mi) (world s) results w' ->
  Get_write_back mi ctx setMap ttl0 s =
    mkRT w' (trace s ++ mset_events ctx ctx ttl0 (map (fun m => (m, setMap)) mi) results)
         (goroutines s).
Proof.
  revert s results. induction mi as [|m rest IH]; intros s [|r results]; simpl;
    try contradiction.
  - intros ->. rewrite !app_nil_r, RT_eta. reflexivity.
  - intros (w1 & Hm & Hch). unfold call_MSet. rewrite Hm.
    destruct r as [e|].
    + rewrite (IH _ results) by exact Hch. simpl. rewrite <- !app_assoc. reflexivity.
    + rewrite (IH _ results) by exact Hch. simpl. rewrite <- !app_assoc. reflexivity.
Qed.

Lemma backfill_loop_run (c : @Cache T W) (mi : list (@missingData T W)) values ctx (s : RT)
    results w' :
  msets_chain context_Background (ttl (builder c)) (backfill_writes deref mi values)
              (world s) results w' ->
  backfill_loop deref c mi values ctx s =
    mkRT w' (trace s ++ mset_events context_Background ctx (ttl (builder c))
                                    (backfill_writes deref mi values) results)
         (goroutines s).
Proof.
  revert s results. induction mi as [|m rest IH]; intros s [|r results]; simpl;
    try contradiction.
  - intros ->. rewrite !app_nil_r, RT_eta. reflexivity.
  - intros (w1 & Hm & Hch). unfold call_MSet. rewrite Hm.
    destruct r as [e|].
    + rewrite (IH _ results) by exact Hch. simpl. rewrite <- !app_assoc. reflexivity.
    + rewrite (IH _ results) by exact Hch. simpl. rewrite <- !app_assoc. reflexivity.
Qed.

Lemma Get_tiers_miss_run (ps : list Provider) ctx key version mi (s : RT) answers w1 :
  gets_chain ps ctx key version (world s) answers w1 ->
  Forall (fun a => is_hit_answer a = false) answers ->
  Get_tiers ps ctx key version mi s =
    ((None, mi ++ absent_tiers ps answers),
     mkRT w1 (trace s ++ get_events ps ctx key version answers) (goroutines s)).
Proof.
  revert mi s answers. induction ps as [|p rest IH]; intros mi s [|[v err] answers]; simpl;
    try contradiction.
  - intros -> _. rewrite !app_nil_r, RT_eta. reflexivity.
  - intros (w2 & Hp & Hch) Hall. inversion Hall as [|? ? Ha Hall']; subst.
    unfold call_Get. rewrite Hp.
    destruct err as [e|]; [|destruct v as [x|]; [discriminate|]].
    + rewrite (IH _ _ answers) by (simpl; auto).
      simpl. rewrite <- !app_assoc. destruct v; reflexivity.
    + rewrite (IH _ _ answers) by (simpl; auto).
      simpl. rewrite <- !app_assoc. reflexivity.
Qed.

Lemma Get_tiers_hit_run (asked rest : list Provider) (p : Provider) ctx key version mi (s : RT)
    answers w1 x w2 :
  gets_chain asked ctx key version (world s) answers w1 ->
  Forall (fun a => is_hit_answer a = false) answers ->
  provider_Get p ctx key version w1 = ((Some x, None), w2) ->
  Get_tiers (asked ++ p :: rest) ctx key version mi s =
    ((Some x, mi ++ absent_tiers asked answers),
     mkRT w2 (trace s ++ get_events asked ctx key version answers ++
                [EvGet (provider_id p) ctx key version (Some x) None])
          (goroutines s)).
Proof.
  revert mi s answers. induction asked as [|p0 asked IH]; intros mi s [|[v err] answers]; simpl;
    try contradiction.
  - intros -> _ Hhit. unfold call_Get. rewrite Hhit. simpl. rewrite app_nil_r. reflexivity.
  - intros (w3 & Hp & Hch) Hall Hhit. inversion Hall as [|? ? Ha Hall']; subst.
    unfold call_Get. rewrite Hp.
    destruct err as [e|]; [|destruct v as [x0|]; [discriminate|]].
    + rewrite (IH _ _ answers) by (simpl; auto).
      simpl. rewrite <- !app_assoc. destruct v; reflexivity.
    + rewrite (IH _ _ answers) by (simpl; auto).
      simpl. rewrite <- !app_assoc. reflexivity.
Qed.

Lemma absent_tiers_all (ps : list Provider) ctx key version (w : W) answers w1 :
  gets_chain ps ctx key version w answers w1 ->
  Forall (fun a => a = (None, None)) answers ->
  absent_tiers ps answers = ps /\ Forall (fun a => is_hit_answer a = false) answers.
Proof.
  revert w answers. induction ps as [|p rest IH]; intros w [|a answers]; simpl;
    try contradiction; auto.
  intros (w2 & _ & Hch) Hall. inversion Hall as [|? ? Ha Hall']; subst. simpl.
  destruct (IH _ _ Hch Hall') as [-> Hno]. auto.
Qed.

Lemma get_events_reads (ps : list Provider) ctx key version answers :
  Forall (fun e : Event => is_read e = true) (get_events ps ctx key version answers).
Proof.
  revert answers. induction ps as [|p rest IH]; intros [|[v [e|]] answers]; simpl; auto.
Qed.

Lemma mget_events_reads (ps : list Provider) ctx version q answers :
  Forall (fun e : Event => is_read e = true) (mget_events ps ctx version q answers).
Proof.
  revert q answers. induction ps as [|p rest IH]; intros q [|[[fd ms] [e|]] answers];
    simpl; auto.
Qed.

Lemma MGet_tiers_open_run (ps : list Provider) ctx version q mi fr (s : RT) answers q' w1 :
  mgets_chain ps ctx version q (world s) answers q' w1 ->
  Forall (fun a => is_final_answer a = false) answers ->
  MGet_tiers ps ctx version q mi fr s =
    ((q', mi ++ recorded_misses ps answers, tiers_found fr answers),
     mkRT w1 (trace s ++ mget_events ps ctx version q answers) (goroutines s)).
Proof.
  revert q mi fr s answers.
  induction ps as [|p rest IH]; intros q mi fr s [|[[fd ms] err] answers]; simpl;
    try contradiction.
  - intros [-> ->] _. rewrite !app_nil_r, RT_eta. reflexivity.
  - intros (w2 & Hp & Hch) Hall. inversion Hall as [|? ? Ha Hall']; subst.
    unfold call_MGet. rewrite Hp.
    destruct err as [e|]; [|destruct ms as [|k ks]; [discriminate|]].
    + rewrite (IH _ _ _ _ answers) by (simpl; auto).
      simpl. rewrite <- !app_assoc. reflexivity.
    + cbn [length].
      replace (0 <? Z.of_nat (S (length ks))) with true by (symmetry; apply Z.ltb_lt; lia).
      replace (Z.of_nat (S (length ks)) =? 0) with false by (symmetry; apply Z.eqb_neq; lia).
      rewrite (IH _ _ _ _ answers) by (simpl; auto).
      simpl. rewrite <- !app_assoc. reflexivity.
Qed.

Lemma MGet_tiers_final_run (asked rest : list Provider) (p : Provider) ctx version q mi fr
    (s : RT) answers q1 w1 found w2 :
  mgets_chain asked ctx version q (world s) answers q1 w1 ->
  Forall (fun a => is_final_answer a = false) answers ->
  provider_MGet p ctx q1 version w1 = ((found, [], None), w2) ->
  MGet_tiers (asked ++ p :: rest) ctx version q mi fr s =
    (([], mi ++ recorded_misses asked answers, assign_all found (tiers_found fr answers)),
     mkRT w2 (trace s ++ mget_events asked ctx version q answers ++
                [EvMGet (provider_id p) ctx q1 version found [] None])
          (goroutines s)).
Proof.
  revert q mi fr s answers.
  induction asked as [|p0 asked IH]; intros q mi fr s [|[[fd ms] err] answers]; simpl;
    try contradiction.
  - intros [-> ->] _ Hfin. unfold call_MGet. rewrite Hfin. simpl.
    rewrite app_nil_r. reflexivity.
  - intros (w3 & Hp & Hch) Hall Hfin. inversion Hall as [|? ? Ha Hall']; subst.
    unfold call_MGet. rewrite Hp.
    destruct err as [e|]; [|destruct ms as [|k ks]; [discriminate|]].
    + rewrite (IH _ _ _ _ answers) by (simpl; auto).
      simpl. rewrite <- !app_assoc. reflexivity.
    + cbn [length].
      replace (0 <? Z.of_nat (S (length ks))) with true by (symmetry; apply Z.ltb_lt; lia).
      replace (Z.of_nat (S (length ks)) =? 0) with false by (symmetry; apply Z.eqb_neq; lia).
      rewrite (IH _ _ _ _ answers) by (simpl; auto).
      simpl. rewrite <- !app_assoc. reflexivity.
Qed.

(** Every run of the tier loop of [MGet] is one of the two above. *)
Lemma MGet_tiers_total (ps : list Provider) ctx version q (w : W) :
  (exists asked p rest answers q1 w1 found w2,
     ps = asked ++ p :: rest /\
     mgets_chain asked ctx version q w answers q1 w1 /\
     Forall (fun a => is_final_answer a = false) answers /\
     provider_MGet p ctx q1 version w1 = ((found, [], None), w2))
  \/
  (exists answers q' w1,
     mgets_chain ps ctx version q w answers q' w1 /\
     Forall (fun a => is_final_answer a = false) answers).
Proof.
  revert q w. induction ps as [|p rest IH]; intros q w.
  - right. exists [], q, w. simpl. auto.
  - destruct (provider_MGet p ctx q version w) as [a w2] eqn:Hp.
    destruct (is_final_answer a) eqn:Hfin.
    + left. destruct a as [[fd ms] err]. destruct ms; [|discriminate].
      destruct err; [discriminate|].
      exists [], p, rest, [], q, w, fd, w2. simpl. auto.
    + destruct (IH (next_question q a) w2) as [H|H].
      * left. destruct H as (asked & p' & rest' & answers & q1 & w1 & found & w3 &
                             -> & Hch & Hall & Hp').
        exists (p :: asked), p', rest', (a :: answers), q1, w1, found, w3.
        simpl. split; [reflexivity|]. split; [eauto|]. split; [auto|]. exact Hp'.
      * right. destruct H as (answers & q' & w1 & Hch & Hall).
        exists (a :: answers), q', w1. simpl. split; [eauto|]. auto.
Qed.

(** C8. [MSet] calls [MSet] of every configured tier, in order, each in the
    world the tier before it left, with the given records and the default
    TTL, whatever the earlier tiers returned; its error is the aggregate of
    exactly the errors these calls returned, hence nil when every tier
    succeeded; with no tier configured it does nothing and returns nil. *)
Theorem C8_MSet_writes_every_tier
    (c : @Cache T W) (ctx : Context) (records : gmap string (option T)) (s : RT) :
  exists (results : list (option error)) (w' : W),
    msets_chain ctx (ttl (builder c))
                (map (fun p => (p, records)) (providers (builder c)))
                (world s) results w' /\
    length results = length (providers (builder c)) /\
    MSet c ctx records s =
      (aggregate (omap id results),
       mkRT w'
            (trace s ++
             zip_with (fun p r => EvMSet (provider_id p) ctx records (ttl (builder c)) r)
                      (providers (builder c)) results)
            (goroutines s)) /\
    ((MSet c ctx records s).1 = None <-> Forall (fun r => r = None) results) /\
    (providers (builder c) = [] -> MSet c ctx records s = (None, s)).
Proof.
  destruct (msets_chain_total ctx (ttl (builder c))
              (map (fun p => (p, records)) (providers (builder c))) (world s))
    as (results & w' & Hch).
  exists results, w'.
  pose proof (MSet_loop_run (providers (builder c)) ctx records (ttl (builder c)) [] s
                results w' Hch) as Hrun.
  simpl in Hrun. fold (MSet c ctx records s) in Hrun.
  split; [exact Hch|]. split.
  { rewrite (msets_chain_length _ _ _ _ _ _ Hch), length_map. reflexivity. }
  split; [exact Hrun|]. split.
  - rewrite Hrun. simpl. rewrite aggregate_None. apply omap_id_nil.
  - intros Hps. unfold MSet. rewrite Hps. reflexivity.
Qed.

(** *** Facts about [Get] *)

Lemma is_read_mset (evs : list Event) :
  Forall (fun e => is_read e = true) evs -> omap mset_of evs = [].
Proof.
  induction 1 as [|e evs He _ IH]; simpl; auto.
  destruct e; simpl in *; try discriminate; auto.
Qed.

Lemma Get_finish_write_back (c : @Cache T W) ctx key mi v (s : RT) :
  Get_finish deref c ctx key mi v s =
    ((v, None), Get_write_back mi ctx {[ KeyOf (deref key) := v ]} (ttl (builder c)) s).
Proof. unfold Get_finish. destruct mi; reflexivity. Qed.

Lemma Get_unfold (c : @Cache T W) ctx key fn (s : RT) :
  Get deref c ctx key fn s =
    let r := Get_tiers (providers (builder c)) ctx key (modelVersion (builder c)) [] s in
    match r.1.1 with
    | None =>
        match fn with
        | None => ((None, Some (errors_New "get single from source is not defined")), r.2)
        | Some f =>
            let q := call_single f ctx key r.2 in
            match q.1.2 with
            | Some e => ((None, Some (errors_Wrap e "can not get from source")), q.2)
            | None => Get_finish deref c ctx key r.1.2 q.1.1 q.2
            end
        end
    | Some _ => Get_finish deref c ctx key r.1.2 r.1.1 r.2
    end.
Proof.
  unfold Get.
  destruct (Get_tiers _ _ _ _ _ _) as [[fv mi] s1]; simpl.
  destruct fv; auto. destruct fn as [f|]; auto.
  destruct (call_single f ctx key s1) as [[v err] s2]; simpl. reflexivity.
Qed.

Lemma call_single_spec (f : @GetSingleFromSourceFn T W) ctx key (s : RT) :
  trace (call_single f ctx key s).2 =
    trace s ++ [EvSourceOne ctx key (call_single f ctx key s).1.1 (call_single f ctx key s).1.2] /\
  goroutines (call_single f ctx key s).2 = goroutines s /\
  (call_single f ctx key s).1 = (f ctx key (world s)).1.
Proof.
  unfold call_single. destruct (f ctx key (world s)) as [[v err] w]. simpl. auto.
Qed.

(** C4. A [Get] that resolves a value, from a winning tier or from the
    origin, has called [MSet] of every tier that answered absent before, in
    order and within the call, under the caller's context and with the
    default TTL, with the one-entry map that binds the key's [Key] string
    to the resolved value; whatever these writes return, the call returns
    the resolved value and a nil error. *)
Theorem C4_Get_writes_back_to_missed_tiers
    (c : @Cache T W) (ctx : Context) (key : nat) (s : RT)
    (asked : list Provider) (answers : list (option T * option error))
    (v : option T) (w1 w2 w3 : W) (results : list (option error)) :
  gets_chain asked ctx key (modelVersion (builder c)) (world s) answers w1 ->
  Forall (fun a => is_hit_answer a = false) answers ->
  msets_chain ctx (ttl (builder c))
    (map (fun m => (m, {[ KeyOf (deref key) := v ]})) (absent_tiers asked answers))
    w2 results w3 ->
  (forall (p : Provider) (rest : list Provider) (x : T)
          (fn : option (@GetSingleFromSourceFn T W)),
     providers (builder c) = asked ++ p :: rest ->
     provider_Get p ctx key (modelVersion (builder c)) w1 = ((Some x, None), w2) ->
     v = Some x ->
     Get deref c ctx key fn s =
       ((v, None),
        mkRT w3
             (trace s ++
              get_events asked ctx key (modelVersion (builder c)) answers ++
              [EvGet (provider_id p) ctx key (modelVersion (builder c)) (Some x) None] ++
              mset_events ctx ctx (ttl (builder c))
                (map (fun m => (m, {[ KeyOf (deref key) := v ]}))
                     (absent_tiers asked answers))
                results)
             (goroutines s)))
  /\
  (forall f : @GetSingleFromSourceFn T W,
     providers (builder c) = asked ->
     f ctx key w1 = ((v, None), w2) ->
     Get deref c ctx key (Some f) s =
       ((v, None),
        mkRT w3
             (trace s ++
              get_events asked ctx key (modelVersion (builder c)) answers ++
              [EvSourceOne ctx key v None] ++
              mset_events ctx ctx (ttl (builder c))
                (map (fun m => (m, {[ KeyOf (deref key) := v ]}))
                     (absent_tiers asked answers))
                results)
             (goroutines s))).
Proof.
  intros Hch Hall Hms. split.
  - intros p rest x fn Hps Hhit ->. unfold Get.
    rewrite Hps, (Get_tiers_hit_run asked rest p ctx key _ [] s answers w1 x w2 Hch Hall Hhit).
    rewrite Get_finish_write_back. simpl.
    rewrite (Get_write_back_run _ ctx _ _ _ results w3) by exact Hms.
    simpl. rewrite <- !app_assoc. reflexivity.
  - intros f Hps Hf. unfold Get.
    rewrite Hps, (Get_tiers_miss_run asked ctx key _ [] s answers w1 Hch Hall).
    unfold call_single. simpl. rewrite Hf.
    rewrite Get_finish_write_back.
    rewrite (Get_write_back_run _ ctx _ _ _ results w3) by exact Hms.
    simpl. rewrite <- !app_assoc. reflexivity.
Qed.

(** *** Facts about [MGet] *)

Lemma MGet_tiers_spec (ps : list Provider) ctx version toQuery missingIn fr (s : RT) :
  exists (evs : list Event) (added : list (@missingData T W)),
    trace (MGet_tiers ps ctx version toQuery missingIn fr s).2 = trace s ++ evs /\
    goroutines (MGet_tiers ps ctx version toQuery missingIn fr s).2 = goroutines s /\
    Forall (fun e => is_read e = true) evs /\
    (MGet_tiers ps ctx version toQuery missingIn fr s).1.1.2 = missingIn ++ added /\
    map (fun m => (provider_id (provider m), missingKeys m)) added = omap miss_of evs.
Proof.
  revert toQuery missingIn fr s. induction ps as [|p rest IH]; intros toQuery missingIn fr s.
  - exists [], []. simpl. rewrite !app_nil_r. auto.
  - simpl. unfold call_MGet.
    destruct (provider_MGet p ctx toQuery version (world s)) as [[[fd ms] err] w] eqn:Hp.
    destruct err as [e|]; [|destruct ms as [|k ks]].
    + edestruct IH as (evs & added & Htr & Hgo & Hrd & Hmi & Hms).
      exists (EvMGet (provider_id p) ctx toQuery version fd ms (Some e) :: EvLog ctx e :: evs),
             added.
      rewrite Htr, Hgo, Hmi. simpl. rewrite <- !app_assoc. simpl.
      repeat split; auto.
      destruct ms; auto.
    + exists [EvMGet (provider_id p) ctx toQuery version fd [] None], [].
      simpl. rewrite app_nil_r. repeat split; auto.
    + cbn [length]. replace (0 <? Z.of_nat (S (length ks))) with true by (symmetry; apply Z.ltb_lt; lia).
      replace (Z.of_nat (S (length ks)) =? 0) with false by (symmetry; apply Z.eqb_neq; lia).
      edestruct IH as (evs & added & Htr & Hgo & Hrd & Hmi & Hms).
      exists (EvMGet (provider_id p) ctx toQuery version fd (k :: ks) None :: evs),
             (mkMissingData p (k :: ks) :: added).
      rewrite Htr, Hgo, Hmi. simpl. rewrite <- !app_assoc. simpl.
      repeat split; auto. f_equal; auto.
Qed.

Lemma MGet_unfold (c : @Cache T W) ctx keys fn (s : RT) :
  MGet c ctx keys fn s =
    let r := MGet_tiers (providers (builder c)) ctx (modelVersion (builder c)) keys [] ∅ s in
    if 0 <? Z.of_nat (length r.1.1.1) then
      match fn with
      | None => ((∅, Some (errors_New "get single from source is not defined")), r.2)
      | Some f =>
          let q := call_source f ctx r.1.1.1 r.2 in
          match q.1.2 with
          | Some e => ((∅, Some (errors_Wrap e "can not get from source")), q.2)
          | None => MGet_finish c ctx r.1.1.2 q.1.1 (assign_all q.1.1 r.1.2) q.2
          end
      end
    else MGet_finish c ctx r.1.1.2 ∅ r.1.2 r.2.
Proof.
  unfold MGet.
  destruct (MGet_tiers _ _ _ _ _ _ _) as [[[tq mi] fr] s1]; simpl.
  destruct (0 <? Z.of_nat (length tq)); auto. destruct fn as [f|]; auto.
  destruct (call_source f ctx tq s1) as [[nv err] s2]; simpl. reflexivity.
Qed.

Lemma call_source_spec (f : @GetFromSourceFn T W) ctx keys (s : RT) :
  trace (call_source f ctx keys s).2 =
    trace s ++ [EvSource ctx keys (call_source f ctx keys s).1.1 (call_source f ctx keys s).1.2] /\
  goroutines (call_source f ctx keys s).2 = goroutines s /\
  (call_source f ctx keys s).1 = (f ctx keys (world s)).1.
Proof.
  unfold call_source. destruct (f ctx keys (world s)) as [[v err] w]. simpl. auto.
Qed.

Lemma MGet_finish_spec (c : @Cache T W) ctx mi values fr (s : RT) :
  (MGet_finish c ctx mi values fr s).1 = (fr, None) /\
  trace (MGet_finish c ctx mi values fr s).2 = trace s /\
  (goroutines (MGet_finish c ctx mi values fr s).2 = goroutines s /\
     (mi = [] \/ values = ∅)
   \/
   goroutines (MGet_finish c ctx mi values fr s).2 =
     goroutines s ++ [mkGoroutine mi values ctx] /\
     mi <> [] /\ values <> ∅).
Proof.
  unfold MGet_finish. destruct mi as [|m mi].
  - simpl. split; [|split]; auto.
  - destruct (decide (values = ∅)) as [->|Hne].
    + rewrite map_size_empty. simpl. split; [|split]; auto.
    + assert (size values <> O) by (intros Hs; apply Hne, map_size_empty_inv, Hs).
      replace (0 <? Z.of_nat (size values)) with true by (symmetry; apply Z.ltb_lt; lia).
      simpl. split; [|split]; [reflexivity|reflexivity|].
      right. repeat split; auto.
Qed.

Lemma build_toSet_lookup (ks : list nat) (values : gmap nat (option T))
    (acc : gmap string (option T)) (str : string) (v : option T) :
  build_toSet deref ks values acc !! str = Some v ->
  acc !! str = Some v \/
  exists k, k ∈ ks /\ KeyOf (deref k) = str /\ values !! k = Some v.
Proof.
  revert acc. induction ks as [|k ks IH]; intros acc; simpl; auto.
  destruct (values !! k) as [x|] eqn:Hk; intros H; apply IH in H.
  - destruct H as [H|(k' & Hin & Hs & Hv)].
    + destruct (decide (KeyOf (deref k) = str)) as [<-|Hne].
      * rewrite lookup_insert_eq in H. injection H as ->.
        right. exists k. split; [left|]; auto.
      * rewrite lookup_insert_ne in H by auto. auto.
    + right. exists k'. split; [right|]; auto.
  - destruct H as [H|(k' & Hin & Hs & Hv)]; auto.
    right. exists k'. split; [right|]; auto.
Qed.

Lemma build_toSet_mono (ks : list nat) (values : gmap nat (option T))
    (acc : gmap string (option T)) (str : string) :
  is_Some (acc !! str) -> is_Some (build_toSet deref ks values acc !! str).
Proof.
  revert acc. induction ks as [|k ks IH]; intros acc; simpl; auto.
  intros H. destruct (values !! k); apply IH; auto.
  destruct (decide (KeyOf (deref k) = str)) as [<-|Hne].
  - rewrite lookup_insert_eq. eauto.
  - rewrite lookup_insert_ne by auto. auto.
Qed.

Lemma build_toSet_covers (ks : list nat) (values : gmap nat (option T))
    (acc : gmap string (option T)) (k : nat) :
  k ∈ ks -> is_Some (values !! k) ->
  is_Some (build_toSet deref ks values acc !! KeyOf (deref k)).
Proof.
  revert acc. induction ks as [|k0 ks IH]; intros acc Hin [v Hv].
  - inversion Hin.
  - simpl. apply elem_of_cons in Hin as [->|Hin].
    + rewrite Hv. apply build_toSet_mono. rewrite lookup_insert_eq. eauto.
    + destruct (values !! k0); apply IH; eauto.
Qed.

Lemma length_pos_nonnil {A} (l : list A) : (0 <? Z.of_nat (length l)) = true <-> l <> [].
Proof.
  destruct l; simpl; split; try congruence; intros; try discriminate.
  apply Z.ltb_lt. lia.
Qed.

(** The four ways through [MGet]: nothing left to ask the origin; no
    origin function; the origin fails; the origin answers. *)
Lemma MGet_cases (c : @Cache T W) ctx keys fn (s : RT) :
  let r := MGet_tiers (providers (builder c)) ctx (modelVersion (builder c)) keys [] ∅ s in
  let out := MGet c ctx keys fn s in
  exists evs1 : list Event,
    trace r.2 = trace s ++ evs1 /\ goroutines r.2 = goroutines s /\
    Forall (fun e => is_read e = true) evs1 /\
    map (fun m => (provider_id (provider m), missingKeys m)) r.1.1.2 = omap miss_of evs1 /\
    ((r.1.1.1 = [] /\ out.1 = (r.1.2, None) /\
      trace out.2 = trace s ++ evs1 /\ goroutines out.2 = goroutines s)
     \/
     (r.1.1.1 <> [] /\ fn = None /\
      out = ((∅, Some (errors_New "get single from source is not defined")), r.2))
     \/
     (exists values e,
        r.1.1.1 <> [] /\ fn <> None /\
        out.1 = (∅, Some (errors_Wrap e "can not get from source")) /\
        trace out.2 = trace s ++ evs1 ++ [EvSource ctx r.1.1.1 values (Some e)] /\
        goroutines out.2 = goroutines s)
     \/
     (exists values,
        r.1.1.1 <> [] /\ fn <> None /\
        out.1 = (assign_all values r.1.2, None) /\
        trace out.2 = trace s ++ evs1 ++ [EvSource ctx r.1.1.1 values None] /\
        (goroutines out.2 = goroutines s /\ (r.1.1.2 = [] \/ values = ∅)
         \/
         goroutines out.2 =
           goroutines s ++ [mkGoroutine r.1.1.2 values ctx] /\
         r.1.1.2 <> [] /\ values <> ∅))).
Proof.
  intros r out. subst out. rewrite MGet_unfold. cbv zeta. fold r.
  destruct (MGet_tiers_spec (providers (builder c)) ctx (modelVersion (builder c)) keys [] ∅ s)
    as (evs1 & added & Htr1 & Hgo1 & Hrd & Hmi & Hms).
  fold r in Htr1, Hgo1, Hmi. simpl in Hmi. rewrite <- Hmi in Hms.
  exists evs1. split; [auto|]. split; [auto|]. split; [auto|]. split; [auto|].
  destruct (0 <? Z.of_nat (length r.1.1.1)) eqn:Hlen.
  - apply length_pos_nonnil in Hlen. right.
    destruct fn as [f|]; [right|left; auto].
    destruct (call_source_spec f ctx r.1.1.1 r.2) as (Htrq & Hgoq & _).
    set (q := call_source f ctx r.1.1.1 r.2) in *.
    destruct (q.1.2) as [e|] eqn:Herr.
    + left. exists q.1.1, e. simpl.
      rewrite Htrq, Hgoq, Htr1, Hgo1, <- app_assoc. repeat split; auto.
    + right. exists q.1.1.
      destruct (MGet_finish_spec c ctx r.1.1.2 q.1.1 (assign_all q.1.1 r.1.2) q.2)
        as (Hres & Htr & Hgo).
      rewrite Hres, Htr, Htrq, Htr1, <- app_assoc.
      split; [auto|]. split; [discriminate|]. split; [auto|]. split; [auto|].
      rewrite Hgoq, Hgo1 in Hgo. exact Hgo.
  - left.
    assert (r.1.1.1 = []) as Hnil.
    { destruct (r.1.1.1); auto. simpl in Hlen. apply Z.ltb_ge in Hlen. lia. }
    destruct (MGet_finish_spec c ctx r.1.1.2 ∅ r.1.2 r.2) as (Hres & Htr & Hgo).
    rewrite Hres, Htr, Htr1. repeat split; auto.
    destruct Hgo as [[Hgo _]|(_ & _ & Hne)]; [congruence|].
    exfalso. apply Hne. reflexivity.
Qed.

(** C1 (as the code has it). When no tier resolves the request and the
    origin function is nil, [Get] and [MGet] return the configuration
    error after every configured tier has been read, in order: the calls
    of the run are the tiers' [Get], respectively [MGet], each in the world
    the one before it left, and the log lines of those that failed; no
    tier's [MSet] runs, the origin is not called and no backfill is
    started. *)
Theorem C1_missing_origin_fails_after_tier_reads
    (c : @Cache T W) (ctx : Context) (key : nat) (keys : list nat) (s : RT) :
  (forall (answers : list (option T * option error)) (w1 : W),
     gets_chain (providers (builder c)) ctx key (modelVersion (builder c))
                (world s) answers w1 ->
     Forall (fun a => is_hit_answer a = false) answers ->
     Get deref c ctx key None s =
       ((None, Some (errors_New "get single from source is not defined")),
        mkRT w1
             (trace s ++
              get_events (providers (builder c)) ctx key (modelVersion (builder c)) answers)
             (goroutines s)) /\
     Forall (fun e => is_read e = true)
            (get_events (providers (builder c)) ctx key (modelVersion (builder c)) answers))
  /\
  (forall (answers : list (gmap nat (option T) * list nat * option error))
          (q' : list nat) (w1 : W),
     mgets_chain (providers (builder c)) ctx (modelVersion (builder c)) keys
                 (world s) answers q' w1 ->
     Forall (fun a => is_final_answer a = false) answers ->
     q' <> [] ->
     MGet c ctx keys None s =
       ((∅, Some (errors_New "get single from source is not defined")),
        mkRT w1
             (trace s ++
              mget_events (providers (builder c)) ctx (modelVersion (builder c)) keys answers)
             (goroutines s)) /\
     Forall (fun e => is_read e = true)
            (mget_events (providers (builder c)) ctx (modelVersion (builder c)) keys answers)).
Proof.
  split.
  - intros answers w1 Hch Hall. split; [|apply get_events_reads].
    unfold Get.
    rewrite (Get_tiers_miss_run _ ctx key _ [] s answers w1 Hch Hall). reflexivity.
  - intros answers q' w1 Hch Hall Hne. split; [|apply mget_events_reads].
    unfold MGet.
    rewrite (MGet_tiers_open_run _ ctx _ keys [] ∅ s answers q' w1 Hch Hall).
    apply length_pos_nonnil in Hne. rewrite Hne. reflexivity.
Qed.

(** C2. Whenever the origin function is called by [MGet] and returns an
    error, the call returns the nil map and that error wrapped, whatever
    the tiers had resolved before; nothing is written and no backfill is
    started. *)
Theorem C2_MGet_origin_error_fails_whole_call
    (c : @Cache T W) (ctx : Context) (keys : list nat)
    (fn : option (@GetFromSourceFn T W)) (s : RT)
    (evs : list Event) (ctx' : Context) (ks : list nat)
    (values : gmap nat (option T)) (e : error) :
  trace (MGet c ctx keys fn s).2 = trace s ++ evs ->
  In (EvSource ctx' ks values (Some e)) evs ->
  (MGet c ctx keys fn s).1 = (∅, Some (errors_Wrap e "can not get from source")) /\
  goroutines (MGet c ctx keys fn s).2 = goroutines s /\
  omap mset_of evs = [].
Proof.
  intros Htr Hin.
  assert (forall evs1 : list Event, Forall (fun e => is_read e = true) evs1 ->
          ~ In (EvSource ctx' ks values (Some e)) evs1) as Hno.
  { intros evs1 Hrd Hin1. rewrite Forall_forall in Hrd.
    apply list_elem_of_In, Hrd in Hin1. discriminate. }
  destruct (MGet_cases c ctx keys fn s)
    as (evs1 & _ & _ & Hrd & _ & [(_ & _ & Htr' & _)|[(_ & _ & Hout)|[H|H]]]).
  - rewrite Htr' in Htr. apply app_inv_head in Htr. subst evs1.
    exfalso. eapply Hno; eauto.
  - destruct (MGet_tiers_spec (providers (builder c)) ctx (modelVersion (builder c)) keys [] ∅ s)
      as (evs2 & _ & Htr2 & _ & Hrd2 & _).
    rewrite Hout in Htr. simpl in Htr. rewrite Htr2 in Htr.
    apply app_inv_head in Htr. subst evs2. exfalso. eapply Hno; eauto.
  - destruct H as (values' & e' & _ & _ & Hres & Htr' & Hgo).
    rewrite Htr' in Htr. apply app_inv_head in Htr. subst evs.
    apply in_app_or in Hin as [Hin|Hin]; [exfalso; eapply Hno; eauto|].
    destruct Hin as [Heq|[]]. injection Heq as _ _ _ ->.
    rewrite Hres. repeat split; auto.
    rewrite omap_app, (is_read_mset _ Hrd). reflexivity.
  - destruct H as (values' & _ & _ & _ & Htr' & _).
    rewrite Htr' in Htr. apply app_inv_head in Htr. subst evs.
    apply in_app_or in Hin as [Hin|Hin]; [exfalso; eapply Hno; eauto|].
    destruct Hin as [Heq|[]]. discriminate.
Qed.

Lemma MGet_finish_world (c : @Cache T W) ctx mi values fr (s : RT) :
  world (MGet_finish c ctx mi values fr s).2 = world s.
Proof.
  unfold MGet_finish.
  destruct ((0 <? Z.of_nat (length mi)) && (0 <? Z.of_nat (size values))); reflexivity.
Qed.

(** [MGet] when a tier resolves what was left. *)
Lemma MGet_final_run (c : @Cache T W) ctx keys fn (s : RT)
    (asked : list Provider) (p : Provider) (rest : list Provider) answers q1 w1 found w2 :
  providers (builder c) = asked ++ p :: rest ->
  mgets_chain asked ctx (modelVersion (builder c)) keys (world s) answers q1 w1 ->
  Forall (fun a => is_final_answer a = false) answers ->
  provider_MGet p ctx q1 (modelVersion (builder c)) w1 = ((found, [], None), w2) ->
  MGet c ctx keys fn s =
    ((assign_all found (tiers_found ∅ answers), None),
     mkRT w2
          (trace s ++
           mget_events asked ctx (modelVersion (builder c)) keys answers ++
           [EvMGet (provider_id p) ctx q1 (modelVersion (builder c)) found [] None])
          (goroutines s)).
Proof.
  intros Hps Hch Hall Hfin. unfold MGet.
  rewrite Hps, (MGet_tiers_final_run asked rest p ctx _ keys [] ∅ s answers q1 w1 found w2
                  Hch Hall Hfin).
  cbn [length]. change (0 <? Z.of_nat 0) with false. cbv iota.
  unfold MGet_finish. rewrite map_size_empty.
  change (0 <? Z.of_nat 0) with false. rewrite andb_false_r. reflexivity.
Qed.

(** [MGet] when no tier does. *)
Lemma MGet_open_run (c : @Cache T W) ctx keys fn (s : RT) answers q' w1 :
  mgets_chain (providers (builder c)) ctx (modelVersion (builder c)) keys
              (world s) answers q' w1 ->
  Forall (fun a => is_final_answer a = false) answers ->
  MGet c ctx keys fn s =
    let s1 := mkRT w1
                   (trace s ++
                    mget_events (providers (builder c)) ctx (modelVersion (builder c))
                                keys answers)
                   (goroutines s) in
    if 0 <? Z.of_nat (length q') then
      match fn with
      | None => ((∅, Some (errors_New "get single from source is not defined")), s1)
      | Some f =>
          match f ctx q' w1 with
          | ((values, Some e), w2) =>
              ((∅, Some (errors_Wrap e "can not get from source")),
               mkRT w2 (trace s1 ++ [EvSource ctx q' values (Some e)]) (goroutines s))
          | ((values, None), w2) =>
              MGet_finish c ctx (recorded_misses (providers (builder c)) answers) values
                (assign_all values (tiers_found ∅ answers))
                (mkRT w2 (trace s1 ++ [EvSource ctx q' values None]) (goroutines s))
          end
      end
    else MGet_finish c ctx (recorded_misses (providers (builder c)) answers) ∅
           (tiers_found ∅ answers) s1.
Proof.
  intros Hch Hall. unfold MGet.
  rewrite (MGet_tiers_open_run _ ctx _ keys [] ∅ s answers q' w1 Hch Hall).
  cbv zeta. cbn [app].
  destruct (0 <? Z.of_nat (length q')); [|reflexivity].
  destruct fn as [f|]; [|reflexivity].
  unfold call_source. cbn [world trace goroutines].
  destruct (f ctx q' w1) as [[values err] w2]. destruct err; reflexivity.
Qed.

(** C3. [MGet] writes nothing itself.  When a tier resolves what was left,
    nothing is started, whatever the tiers before it missed.  When no tier
    does and the origin answers without error, a backfill is started
    exactly if the origin's map is not empty and some tier recorded a miss,
    and it is started only on this path.  The backfill, when it runs, calls
    [MSet] of every tier that recorded a miss, in order, under
    [context.Background()] and with the TTL the cache has at that time,
    with the map that holds the [Key] strings of exactly those missed keys
    the origin's map has, with the origin's values. *)
Theorem C3_MGet_backfill
    (c : @Cache T W) (ctx : Context) (keys : list nat) (s : RT) :
  (forall (asked : list Provider) (p : Provider) (rest : list Provider)
          (answers : list (gmap nat (option T) * list nat * option error))
          (q1 : list nat) (w1 : W) (found : gmap nat (option T)) (w2 : W)
          (fn : option (@GetFromSourceFn T W)),
     providers (builder c) = asked ++ p :: rest ->
     mgets_chain asked ctx (modelVersion (builder c)) keys (world s) answers q1 w1 ->
     Forall (fun a => is_final_answer a = false) answers ->
     provider_MGet p ctx q1 (modelVersion (builder c)) w1 = ((found, [], None), w2) ->
     MGet c ctx keys fn s =
       ((assign_all found (tiers_found ∅ answers), None),
        mkRT w2
             (trace s ++
              mget_events asked ctx (modelVersion (builder c)) keys answers ++
              [EvMGet (provider_id p) ctx q1 (modelVersion (builder c)) found [] None])
             (goroutines s)))
  /\
  (forall (answers : list (gmap nat (option T) * list nat * option error))
          (q' : list nat) (w1 : W) (f : @GetFromSourceFn T W)
          (values : gmap nat (option T)) (w2 : W),
     mgets_chain (providers (builder c)) ctx (modelVersion (builder c)) keys
                 (world s) answers q' w1 ->
     Forall (fun a => is_final_answer a = false) answers ->
     q' <> [] ->
     f ctx q' w1 = ((values, None), w2) ->
     (MGet c ctx keys (Some f) s).1 = (assign_all values (tiers_found ∅ answers), None) /\
     world (MGet c ctx keys (Some f) s).2 = w2 /\
     trace (MGet c ctx keys (Some f) s).2 =
       trace s ++
       mget_events (providers (builder c)) ctx (modelVersion (builder c)) keys answers ++
       [EvSource ctx q' values None] /\
     (recorded_misses (providers (builder c)) answers <> [] -> values <> ∅ ->
      goroutines (MGet c ctx keys (Some f) s).2 =
        goroutines s ++
        [mkGoroutine (recorded_misses (providers (builder c)) answers) values ctx]) /\
     (recorded_misses (providers (builder c)) answers = [] \/ values = ∅ ->
      goroutines (MGet c ctx keys (Some f) s).2 = goroutines s))
  /\
  (forall fn : option (@GetFromSourceFn T W),
     goroutines (MGet c ctx keys fn s).2 = goroutines s \/
     exists (f : @GetFromSourceFn T W)
            (answers : list (gmap nat (option T) * list nat * option error))
            (q' : list nat) (w1 : W) (values : gmap nat (option T)) (w2 : W),
       fn = Some f /\
       mgets_chain (providers (builder c)) ctx (modelVersion (builder c)) keys
                   (world s) answers q' w1 /\
       Forall (fun a => is_final_answer a = false) answers /\
       q' <> [] /\
       f ctx q' w1 = ((values, None), w2) /\
       values <> ∅ /\
       recorded_misses (providers (builder c)) answers <> [] /\
       goroutines (MGet c ctx keys fn s).2 =
         goroutines s ++
         [mkGoroutine (recorded_misses (providers (builder c)) answers) values ctx])
  /\
  (forall (c' : @Cache T W) (misses : list (@missingData T W))
          (values : gmap nat (option T)) (s2 : RT)
          (results : list (option error)) (w3 : W),
     msets_chain context_Background (ttl (builder c'))
                 (backfill_writes deref misses values) (world s2) results w3 ->
     run_backfill deref c' (mkGoroutine misses values ctx) s2 =
       mkRT w3
            (trace s2 ++
             mset_events context_Background ctx (ttl (builder c'))
                         (backfill_writes deref misses values) results)
            (goroutines s2))
  /\
  (forall (ks : list nat) (values : gmap nat (option T)),
     (forall str v,
        build_toSet deref ks values ∅ !! str = Some v ->
        exists k, k ∈ ks /\ KeyOf (deref k) = str /\ values !! k = Some v) /\
     (forall k, k ∈ ks -> is_Some (values !! k) ->
        is_Some (build_toSet deref ks values ∅ !! KeyOf (deref k)))).
Proof.
  split; [|split; [|split; [|split]]].
  - intros asked p rest answers q1 w1 found w2 fn Hps Hch Hall Hfin.
    eapply MGet_final_run; eauto.
  - intros answers q' w1 f values w2 Hch Hall Hne Hf.
    rewrite (MGet_open_run c ctx keys (Some f) s answers q' w1 Hch Hall).
    apply length_pos_nonnil in Hne. rewrite Hne, Hf. cbv zeta. cbn [trace].
    match goal with |- context [MGet_finish _ _ _ _ _ ?st] => set (s2 := st) end.
    destruct (MGet_finish_spec c ctx (recorded_misses (providers (builder c)) answers)
                values (assign_all values (tiers_found ∅ answers)) s2)
      as (Hres & Htr & Hgo).
    split; [exact Hres|]. split; [rewrite MGet_finish_world; reflexivity|].
    split; [rewrite Htr; subst s2; simpl; rewrite <- app_assoc; reflexivity|]. split.
    + intros Hm Hv. destruct Hgo as [(_ & [H|H])|(Hgo & _)]; [contradiction..|exact Hgo].
    + intros Hor. destruct Hgo as [(Hgo & _)|(_ & Hm & Hv)]; [exact Hgo|].
      destruct Hor; contradiction.
  - intros fn.
    destruct (MGet_tiers_total (providers (builder c)) ctx (modelVersion (builder c))
                keys (world s)) as [H|H].
    + destruct H as (asked & p & rest & answers & q1 & w1 & found & w2 &
                     Hps & Hch & Hall & Hfin).
      left. rewrite (MGet_final_run c ctx keys fn s asked p rest answers q1 w1 found w2);
        auto.
    + destruct H as (answers & q' & w1 & Hch & Hall).
      rewrite (MGet_open_run c ctx keys fn s answers q' w1 Hch Hall).
      destruct (0 <? Z.of_nat (length q')) eqn:Hlen.
      * destruct fn as [f|]; [|left; reflexivity].
        destruct (f ctx q' w1) as [[values err] w2] eqn:Hf.
        destruct err as [e|]; [left; reflexivity|]. cbv zeta. cbn [trace].
        match goal with |- context [MGet_finish _ _ _ _ _ ?st] => set (s2 := st) end.
        destruct (MGet_finish_spec c ctx (recorded_misses (providers (builder c)) answers)
                    values (assign_all values (tiers_found ∅ answers)) s2)
          as (_ & _ & [(Hgo & _)|(Hgo & Hm & Hv)]); [left; exact Hgo|].
        right. exists f, answers, q', w1, values, w2.
        apply length_pos_nonnil in Hlen. auto 10.
      * left.
        destruct (MGet_finish_spec c ctx (recorded_misses (providers (builder c)) answers)
                    ∅ (tiers_found ∅ answers)
                    (mkRT w1 (trace s ++ mget_events (providers (builder c)) ctx
                                           (modelVersion (builder c)) keys answers)
                          (goroutines s)))
          as (_ & _ & [(Hgo & _)|(_ & _ & Hv)]); [exact Hgo|].
        exfalso. apply Hv. reflexivity.
  - intros c' misses values s2 results w3 Hms. unfold run_backfill. simpl.
    apply backfill_loop_run. exact Hms.
  - intros ks values. split.
    + intros str v Hl. apply build_toSet_lookup in Hl as [Hl|Hl]; [|exact Hl].
      rewrite lookup_empty in Hl. discriminate.
    + intros k Hin Hv. apply build_toSet_covers; auto.
Qed.

(** C5. When the first configured tier answers [Get] with a value and no
    error, or [MGet] with no error and nothing missing, the call returns
    that tier's answer and is over after this one tier call: no other tier
    is read or written, the origin is not called and no backfill is
    started. *)
Theorem C5_first_tier_hit_stops_lookup
    (c : @Cache T W) (ctx : Context) (p : Provider) (rest : list Provider) (s : RT) :
  providers (builder c) = p :: rest ->
  (forall key fn x w,
     provider_Get p ctx key (modelVersion (builder c)) (world s) = ((Some x, None), w) ->
     Get deref c ctx key fn s =
       ((Some x, None),
        mkRT w (trace s ++ [EvGet (provider_id p) ctx key (modelVersion (builder c))
                                  (Some x) None])
             (goroutines s)))
  /\
  (forall keys fn found w,
     provider_MGet p ctx keys (modelVersion (builder c)) (world s) = ((found, [], None), w) ->
     MGet c ctx keys fn s =
       ((assign_all found ∅, None),
        mkRT w (trace s ++ [EvMGet (provider_id p) ctx keys (modelVersion (builder c))
                                   found [] None])
             (goroutines s))).
Proof.
  intros Hps. split.
  - intros key fn x w Hget. unfold Get. rewrite Hps. simpl.
    unfold call_Get. rewrite Hget. simpl. reflexivity.
  - intros keys fn found w Hmget. unfold MGet. rewrite Hps. simpl.
    unfold call_MGet. rewrite Hmget. simpl. reflexivity.
Qed.

(** C10. When every tier answers absent and the origin returns a nil value
    with a nil error, [Get] returns a nil value and a nil error, and has
    called [MSet] of every tier, in order, with the one-entry map that
    binds the key's [Key] string to nil, and the default TTL. *)
Theorem C10_Get_nil_from_origin_is_written_back
    (c : @Cache T W) (ctx : Context) (key : nat)
    (f : @GetSingleFromSourceFn T W) (s : RT)
    (answers : list (option T * option error)) (w1 w2 w3 : W)
    (results : list (option error)) :
  gets_chain (providers (builder c)) ctx key (modelVersion (builder c))
             (world s) answers w1 ->
  Forall (fun a => a = (None, None)) answers ->
  f ctx key w1 = ((None, None), w2) ->
  msets_chain ctx (ttl (builder c))
    (map (fun p => (p, {[ KeyOf (deref key) := None ]})) (providers (builder c)))
    w2 results w3 ->
  Get deref c ctx key (Some f) s =
    ((None, None),
     mkRT w3
          (trace s ++
           get_events (providers (builder c)) ctx key (modelVersion (builder c)) answers ++
           [EvSourceOne ctx key None None] ++
           mset_events ctx ctx (ttl (builder c))
             (map (fun p => (p, {[ KeyOf (deref key) := None ]})) (providers (builder c)))
             results)
          (goroutines s)).
Proof.
  intros Hch Habs Hf Hms.
  destruct (absent_tiers_all _ _ _ _ _ _ _ Hch Habs) as [Hall Hno].
  unfold Get.
  rewrite (Get_tiers_miss_run _ ctx key _ [] s answers w1 Hch Hno), Hall.
  unfold call_single. simpl. rewrite Hf.
  rewrite Get_finish_write_back.
  rewrite (Get_write_back_run _ ctx _ _ _ results w3) by exact Hms.
  simpl. rewrite <- !app_assoc. reflexivity.
Qed.

End OrchestratorFacts.

(** ** The orchestrator on concrete tiers *)

(** C1, at one tier that has nothing and a nil origin function: the tier's
    [Get] is called before the configuration error is returned. *)
Lemma C1_counterexample :
  (Get_tiers [tier_absent 1] context_TODO 1%nat 7 [] s0).1.1 = None /\
  (Get test_key (cache_of [tier_absent 1]) context_TODO 1%nat None s0).1 =
    (None, Some (errors_New "get single from source is not defined")) /\
  ~ (exists evs,
       trace (Get test_key (cache_of [tier_absent 1]) context_TODO 1%nat None s0).2 =
         trace s0 ++ evs /\
       Forall (fun e => is_tier_call e = false) evs).
Proof.
  split; [reflexivity|]. split; [reflexivity|].
  intros (evs & Htr & Hno). vm_compute in Htr. subst evs.
  inversion Hno as [|? ? Hbad _]. discriminate.
Qed.

Lemma C1_witness :
  Get test_key (cache2 [tier_a; tier_b]) context_TODO 1%nat None s_empty =
    ((None, Some (errors_New "get single from source is not defined")),
     mkRT (∅, ∅)
          [EvGet 1 context_TODO 1%nat 7 None None; EvGet 2 context_TODO 1%nat 7 None None]
          [])
  /\
  MGet (cache2 [tier_a; tier_b]) context_TODO [1%nat; 2%nat] None s_empty =
    ((∅, Some (errors_New "get single from source is not defined")),
     mkRT (∅, ∅)
          [EvMGet 1 context_TODO [1%nat; 2%nat] 7 ∅ [1%nat; 2%nat] None;
           EvMGet 2 context_TODO [1%nat; 2%nat] 7 ∅ [1%nat; 2%nat] None]
          []).
Proof.
  destruct (C1_missing_origin_fails_after_tier_reads test_key (cache2 [tier_a; tier_b])
              context_TODO 1%nat [1%nat; 2%nat] s_empty) as [HG HM].
  split.
  - refine (proj1 (HG [(None, None); (None, None)] (∅, ∅) _ _)).
    + simpl. repeat (eexists; split; [reflexivity|]). reflexivity.
    + repeat constructor.
  - refine (proj1 (HM [(∅, [1%nat; 2%nat], None); (∅, [1%nat; 2%nat], None)]
                      [1%nat; 2%nat] (∅, ∅) _ _ _)).
    + simpl. repeat (eexists; split; [reflexivity|]). split; reflexivity.
    + repeat constructor.
    + discriminate.
Defined.

(** The first tier resolves key 1 and misses key 2; the origin fails. *)
Lemma C2_witness :
  In (EvSource context_TODO [2%nat] ∅ (Some (external_error 2)))
     (trace (MGet (cache_of [tier_only_key1 1]) context_TODO [1%nat; 2%nat]
                  (Some origin_fails) s0).2) /\
  (MGet (cache_of [tier_only_key1 1]) context_TODO [1%nat; 2%nat] (Some origin_fails) s0).1 =
    (∅, Some (errors_Wrap (external_error 2) "can not get from source")) /\
  goroutines (MGet (cache_of [tier_only_key1 1]) context_TODO [1%nat; 2%nat]
                   (Some origin_fails) s0).2 = [].
Proof.
  assert (In (EvSource context_TODO [2%nat] ∅ (Some (external_error 2)))
             (trace (MGet (cache_of [tier_only_key1 1]) context_TODO [1%nat; 2%nat]
                          (Some origin_fails) s0).2)) as Hin.
  { vm_compute. right. left. reflexivity. }
  split; [exact Hin|].
  destruct (C2_MGet_origin_error_fails_whole_call
              (cache_of [tier_only_key1 1]) context_TODO [1%nat; 2%nat] (Some origin_fails) s0
              _ context_TODO [2%nat] ∅ (external_error 2) eq_refl Hin) as (H1 & H2 & _).
  split; [exact H1|exact H2].
Defined.

(** The first store is empty and the second has key 1; the origin has
    every key.  The first tier misses both keys, the second key 2, and the
    origin is asked key 2: one backfill is started, and when it runs it
    writes key 2 to both tiers, and key 1 to none. *)
Lemma C3_witness :
  goroutines (MGet (cache2 [tier_a; tier_b]) context_TODO [1%nat; 2%nat]
                   (Some origin2_all) s_second_has_key1).2 =
    [mkGoroutine [mkMissingData tier_a [1%nat; 2%nat]; mkMissingData tier_b [2%nat]]
                 (all_found [2%nat]) context_TODO]
  /\
  run_backfill test_key (cache2 [tier_a; tier_b])
    (mkGoroutine [mkMissingData tier_a [1%nat; 2%nat]; mkMissingData tier_b [2%nat]]
                 (all_found [2%nat]) context_TODO)
    s_second_has_key1 =
    mkRT (key2_entity7, keys12_entity7)
         [EvMSet 1 context_Background key2_entity7 (5 * time_Minute) (Some (external_error 1));
          EvLog context_TODO (external_error 1);
          EvMSet 2 context_Background key2_entity7 (5 * time_Minute) None]
         [].
Proof.
  destruct (C3_MGet_backfill test_key (cache2 [tier_a; tier_b]) context_TODO
              [1%nat; 2%nat] s_second_has_key1) as (_ & Horigin & _ & Hrun & _).
  split.
  - refine (proj1 (proj2 (proj2 (proj2
              (Horigin [(∅, [1%nat; 2%nat], None); (all_found [1%nat], [2%nat], None)]
                       [2%nat] (∅, key1_entity7) origin2_all (all_found [2%nat])
                       (∅, key1_entity7) _ _ _ _)))) _ _).
    + simpl. eexists. split; [reflexivity|]. eexists. split; [vm_compute; reflexivity|].
      split; reflexivity.
    + repeat constructor.
    + discriminate.
    + reflexivity.
    + discriminate.
    + intros H. apply (f_equal (fun m : gmap nat (option EntityToCache) => m !! 2%nat)) in H.
      vm_compute in H. discriminate.
  - refine (Hrun (cache2 [tier_a; tier_b]) _ _ s_second_has_key1
                 [Some (external_error 1); None] (key2_entity7, keys12_entity7) _).
    simpl. eexists. split; [vm_compute; reflexivity|].
    eexists. split; [vm_compute; reflexivity|]. reflexivity.
Defined.

(** The first tier reports a write error: the second is written all the
    same, and the error returned holds the first tier's error. *)
Lemma C8_witness :
  MSet (cache2 [tier_a; tier_b]) context_TODO key1_entity7 s_empty =
    (Some (multierror_Error [external_error 1]),
     mkRT (key1_entity7, key1_entity7)
          [EvMSet 1 context_TODO key1_entity7 (5 * time_Minute) (Some (external_error 1));
           EvMSet 2 context_TODO key1_entity7 (5 * time_Minute) None]
          []).
Proof.
  destruct (C8_MSet_writes_every_tier (cache2 [tier_a; tier_b]) context_TODO
              key1_entity7 s_empty) as (results & w' & Hch & _ & HM & _).
  rewrite HM. clear HM.
  destruct results as [|r1 [|r2 [|r3 results]]]; simpl in Hch; try contradiction;
    try (destruct Hch as (? & _ & []); fail);
    try (destruct Hch as (? & _ & ? & _ & []); fail).
  destruct Hch as (w1 & H1 & w2 & H2 & ->).
  injection H1 as <- <-. injection H2 as <- <-. vm_compute. reflexivity.
Defined.

(** The first store is empty and the second has the key: the first tier
    answers absent, the second wins, and the value is written to the first
    store although the first tier reports a write error. *)
Lemma C4_witness :
  Get test_key (cache2 [tier_a; tier_b]) context_TODO 1%nat None s_second_has_key1 =
    ((Some entity7, None),
     mkRT (key1_entity7, key1_entity7)
          [EvGet 1 context_TODO 1%nat 7 None None;
           EvGet 2 context_TODO 1%nat 7 (Some entity7) None;
           EvMSet 1 context_TODO key1_entity7 (5 * time_Minute) (Some (external_error 1));
           EvLog context_TODO (external_error 1)]
          []).
Proof.
  refine (proj1 (C4_Get_writes_back_to_missed_tiers test_key (cache2 [tier_a; tier_b])
                   context_TODO 1%nat s_second_has_key1 [tier_a] [(None, None)]
                   (Some entity7) (∅, key1_entity7) (∅, key1_entity7)
                   (key1_entity7, key1_entity7) [Some (external_error 1)] _ _ _)
                tier_b [] entity7 None _ _ _).
  - simpl. eexists. split; reflexivity.
  - repeat constructor.
  - simpl. eexists. split; [vm_compute; reflexivity|reflexivity].
  - reflexivity.
  - vm_compute. reflexivity.
  - reflexivity.
Defined.

Lemma C5_witness :
  (Get test_key (cache_of [tier_hit 1; tier_absent 2]) context_TODO 1%nat None s0).1 =
    (Some entity7, None) /\
  (MGet (cache_of [tier_hit 1; tier_absent 2]) context_TODO [1%nat; 2%nat] None s0).1 =
    (assign_all (all_found [1%nat; 2%nat]) ∅, None).
Proof.
  destruct (C5_first_tier_hit_stops_lookup test_key
              (cache_of [tier_hit 1; tier_absent 2]) context_TODO
              (tier_hit 1) [tier_absent 2] s0 eq_refl) as [HG HM].
  split.
  - rewrite (HG 1%nat None entity7 tt eq_refl). reflexivity.
  - rewrite (HM [1%nat; 2%nat] None (all_found [1%nat; 2%nat]) tt eq_refl). reflexivity.
Defined.

(** Both stores are empty and the origin returns nil: nil is stored under
    the key in both stores. *)
Lemma C10_witness :
  Get test_key (cache2 [tier_a; tier_b]) context_TODO 1%nat (Some (origin2_single None))
      s_empty =
    ((None, None),
     mkRT (key1_nil, key1_nil)
          [EvGet 1 context_TODO 1%nat 7 None None;
           EvGet 2 context_TODO 1%nat 7 None None;
           EvSourceOne context_TODO 1%nat None None;
           EvMSet 1 context_TODO key1_nil (5 * time_Minute) (Some (external_error 1));
           EvLog context_TODO (external_error 1);
           EvMSet 2 context_TODO key1_nil (5 * time_Minute) None]
          []).
Proof.
  refine (C10_Get_nil_from_origin_is_written_back test_key (cache2 [tier_a; tier_b])
            context_TODO 1%nat (origin2_single None) s_empty
            [(None, None); (None, None)] (∅, ∅) (∅, ∅) (key1_nil, key1_nil)
            [Some (external_error 1); None] _ _ _ _).
  - simpl. repeat (eexists; split; [reflexivity|]). reflexivity.
  - repeat constructor.
  - reflexivity.
  - simpl. eexists. split; [vm_compute; reflexivity|].
    eexists. split; [vm_compute; reflexivity|]. reflexivity.
Defined.

(** ** The redis tier *)

Lemma assign_all_union `{Countable K} {A : Type} (src dst : gmap K A) :
  assign_all src dst = src ∪ dst.
Proof.
  unfold assign_all.
  apply (map_fold_weak_ind (fun r (m : gmap K A) => r = m ∪ dst)).
  - rewrite (left_id_L ∅ (∪)). reflexivity.
  - intros i x m r _ ->. rewrite insert_union_l. reflexivity.
Qed.

Lemma chunkBy_loop_spec {A : Type} (fuel : nat) (items : list A) (csize : Z)
    (chunks : list (list A)) :
  0 < csize -> (length items <= fuel)%nat ->
  exists (full : list (list A)) (last : list A),
    chunkBy_loop fuel items csize chunks = Some (chunks ++ full ++ [last]) /\
    concat (full ++ [last]) = items /\
    Forall (fun ch => Z.of_nat (length ch) = csize) full /\
    Z.of_nat (length last) <= csize /\
    Z.of_nat (length (full ++ [last])) =
      Z.max 1 ((Z.of_nat (length items) + csize - 1) / csize).
Proof.
  intros Hc. revert items chunks.
  induction fuel as [|fuel IH]; intros items chunks Hfuel.
  - destruct items; [|simpl in Hfuel; lia].
    exists [], []. simpl. change (Z.of_nat 0) with 0.
    replace (csize <? 0) with false by (symmetry; apply Z.ltb_ge; lia).
    split; [reflexivity|]. split; [reflexivity|]. split; [constructor|].
    split; [lia|]. rewrite Z.add_0_l, Z.div_small by lia. reflexivity.
  - simpl. destruct (csize <? Z.of_nat (length items)) eqn:Hlt.
    + apply Z.ltb_lt in Hlt.
      replace (csize <? 0) with false by (symmetry; apply Z.ltb_ge; lia).
      destruct (IH (drop (Z.to_nat csize) items)
                   (chunks ++ [take (Z.to_nat csize) items]))
        as (full & last & Hrun & Hcat & Hfull & Hlast & Hlen).
      { rewrite length_drop. lia. }
      exists (take (Z.to_nat csize) items :: full), last.
      rewrite Hrun, <- app_assoc. simpl.
      split; [reflexivity|]. split; [rewrite Hcat; apply take_drop|].
      split; [constructor; [rewrite length_take; lia|exact Hfull]|].
      split; [exact Hlast|].
      rewrite length_drop in Hlen.
      replace (Z.of_nat (S (length (full ++ [last]))))
        with (1 + Z.of_nat (length (full ++ [last]))) by lia.
      rewrite Hlen.
      replace (Z.of_nat (length items - Z.to_nat csize) + csize - 1)
        with (Z.of_nat (length items) - 1) by lia.
      replace (Z.of_nat (length items) + csize - 1)
        with (Z.of_nat (length items) - 1 + 1 * csize) by lia.
      rewrite Z.div_add by lia.
      assert (1 <= (Z.of_nat (length items) - 1) / csize).
      { apply Z.div_le_lower_bound; lia. }
      lia.
    + apply Z.ltb_ge in Hlt. exists [], items. simpl. rewrite app_nil_r.
      repeat split; auto.
      destruct items as [|a items].
      * simpl. rewrite Z.div_small by lia. reflexivity.
      * assert ((Z.of_nat (length (a :: items)) + csize - 1) / csize = 1) as ->; [|reflexivity].
        replace (Z.of_nat (length (a :: items)) + csize - 1)
          with (Z.of_nat (length (a :: items)) - 1 + 1 * csize) by lia.
        rewrite Z.div_add, Z.div_small by (simpl in *; lia). reflexivity.
Qed.

Lemma chunkBy_spec {A : Type} (items : list A) (csize : Z) :
  0 < csize ->
  exists (full : list (list A)) (last : list A),
    chunkBy items csize = Some (full ++ [last]) /\
    concat (full ++ [last]) = items /\
    Forall (fun ch => Z.of_nat (length ch) = csize) full /\
    Z.of_nat (length last) <= csize /\
    Z.of_nat (length (full ++ [last])) =
      Z.max 1 ((Z.of_nat (length items) + csize - 1) / csize).
Proof.
  intros Hc. unfold chunkBy.
  destruct (chunkBy_loop_spec (length items) items csize [] Hc) as (full & last & H); [lia|].
  exists full, last. exact H.
Qed.

Section RedisFacts.
Context {T V : Type}.
Variable GetCacheModelVersion : T -> Z.
Variable Unmarshal : string -> option T.
Variable deref : nat -> Key V.
Variable store : string -> option string.
Variable fails : list string -> option error.
Variable requiredModelVersion : Z.

Local Abbreviation class :=
  (class_of GetCacheModelVersion Unmarshal deref store requiredModelVersion).
Local Abbreviation key_of := (fun v : nat => KeyOf (deref v)).

Lemma classified_nil : classified class [] [] ∅.
Proof.
  split.
  - intros k. split; [intros H; inversion H|intros [H _]; inversion H].
  - intros k v. rewrite lookup_empty. split; [discriminate|].
    intros (item & _ & H & _). inversion H.
Qed.

Lemma classified_missing seen missing results k :
  classified class seen missing results -> class k = SlotMissing ->
  classified class (seen ++ [k]) (missing ++ [k]) results.
Proof.
  intros [Hm Hr] Hk. split.
  - intros k'. rewrite !elem_of_app, !list_elem_of_singleton, Hm.
    split; [intros [[? ?]| -> ]; auto|intros [[?| -> ] ?]; auto].
  - intros k' v. rewrite Hr. split; intros (item & ? & Hin & ?); exists item.
    + rewrite elem_of_app. auto.
    + apply elem_of_app in Hin as [Hin|Hin]; auto.
      apply list_elem_of_singleton in Hin as ->. congruence.
Qed.

Lemma classified_dropped seen missing results k :
  classified class seen missing results -> class k = SlotDropped ->
  classified class (seen ++ [k]) missing results.
Proof.
  intros [Hm Hr] Hk. split.
  - intros k'. rewrite Hm, elem_of_app, list_elem_of_singleton.
    split; [intros [? ?]; auto|intros [[?| -> ] ?]; auto; congruence].
  - intros k' v. rewrite Hr. split; intros (item & ? & Hin & ?); exists item.
    + rewrite elem_of_app. auto.
    + apply elem_of_app in Hin as [Hin|Hin]; auto.
      apply list_elem_of_singleton in Hin as ->. congruence.
Qed.

Lemma classified_found seen missing results k item :
  classified class seen missing results -> class k = SlotFound item ->
  classified class (seen ++ [k]) missing (<[k := Some item]> results).
Proof.
  intros [Hm Hr] Hk. split.
  - intros k'. rewrite Hm, elem_of_app, list_elem_of_singleton.
    split; [intros [? ?]; auto|intros [[?| -> ] ?]; auto; congruence].
  - intros k' v. destruct (decide (k' = k)) as [->|Hne].
    + rewrite lookup_insert_eq. split.
      * intros [= <-]. exists item. rewrite elem_of_app, list_elem_of_singleton. auto.
      * intros (item' & -> & _ & Hc). congruence.
    + rewrite lookup_insert_ne by auto. rewrite Hr.
      split; intros (item' & ? & Hin & ?); exists item'.
      * rewrite elem_of_app. auto.
      * apply elem_of_app in Hin as [Hin|Hin]; auto.
        apply list_elem_of_singleton in Hin. congruence.
Qed.

(** The loop over the slots of a reply that has one slot per key of the
    chunk, each holding what the store has for that key. *)
Lemma classify_store (chCopy pre suf : list nat) seen missing results :
  chCopy = pre ++ suf ->
  classified class seen missing results ->
  exists missing' results',
    provider_redis.classify GetCacheModelVersion Unmarshal (fun i => chCopy !! i)
      requiredModelVersion (length pre) (map store (map key_of suf)) missing results
      = Some (missing', results') /\
    classified class (seen ++ suf) missing' results'.
Proof.
  revert pre seen missing results. induction suf as [|k suf IH];
    intros pre seen missing results Hch Hinv.
  - exists missing, results. simpl. rewrite app_nil_r. auto.
  - assert (chCopy !! length pre = Some k) as Hslot
      by (rewrite Hch; apply list_lookup_middle; reflexivity).
    assert (chCopy = (pre ++ [k]) ++ suf) as Hch'
      by (rewrite <- app_assoc; exact Hch).
    assert (length (pre ++ [k]) = S (length pre)) as Hlen
      by (rewrite length_app; simpl; lia).
    replace (seen ++ k :: suf) with ((seen ++ [k]) ++ suf)
      by (rewrite <- app_assoc; reflexivity).
    simpl. rewrite <- Hlen.
    pose proof (eq_refl (class k)) as Hk. unfold class_of in Hk at 2.
    destruct (store (KeyOf (deref k))) as [b|].
    + destruct (Unmarshal b) as [item|].
      * destruct (GetCacheModelVersion item =? requiredModelVersion); simpl.
        -- rewrite Hslot. simpl. apply IH; auto using classified_found.
        -- apply IH; auto using classified_dropped.
      * rewrite Hslot. simpl. apply IH; auto using classified_missing.
    + rewrite Hslot. simpl. apply IH; auto using classified_missing.
Qed.

Lemma classified_merge seen missing results chunk missing2 results2 :
  classified class seen missing results ->
  classified class chunk missing2 results2 ->
  classified class (seen ++ chunk) (missing ++ missing2) (results2 ∪ results).
Proof.
  intros [Hm Hr] [Hm2 Hr2]. split.
  - intros k. rewrite !elem_of_app, Hm, Hm2. tauto.
  - intros k v. rewrite lookup_union_Some_raw, Hr, Hr2. split.
    + intros [(item & ? & ? & ?)|[_ (item & ? & ? & ?)]];
        exists item; rewrite elem_of_app; auto.
    + intros (item & -> & Hin & Hc).
      destruct (results2 !! k) as [v2|] eqn:H2.
      * left. apply Hr2 in H2 as (item2 & -> & ? & Hc2).
        exists item. auto.
      * right. split; [reflexivity|]. exists item.
        apply elem_of_app in Hin as [Hin|Hin]; [auto|].
        exfalso. assert (results2 !! k = Some (Some item)) as Hbad; [|congruence].
        apply Hr2. exists item. auto.
Qed.

Local Abbreviation chunk_response_ok :=
  (chunk_response GetCacheModelVersion Unmarshal deref store fails requiredModelVersion).

Lemma fetch_chunk_store (csize : Z) (chunk : list nat) :
  exists resp,
    provider_redis.fetch_chunk GetCacheModelVersion Unmarshal deref
      (provider_redis.mkRedisCache (provider_redis.store_client store fails) csize)
      requiredModelVersion chunk = Some resp /\
    chunk_response_ok chunk resp.
Proof.
  unfold provider_redis.fetch_chunk, provider_redis.store_client, chunk_response, chunk_ok.
  simpl. destruct (fails (map key_of chunk)) as [e|]; simpl.
  - eexists. split; [reflexivity|]. simpl. discriminate.
  - destruct (classify_store chunk [] chunk [] [] ∅ eq_refl classified_nil)
      as (missing & results & Hrun & Hinv).
    simpl in Hrun. rewrite Hrun. simpl.
    eexists. split; [reflexivity|]. simpl. auto.
Qed.

Lemma fetch_all_store (csize : Z) (chunks : list (list nat)) :
  exists resps,
    mapM (provider_redis.fetch_chunk GetCacheModelVersion Unmarshal deref
            (provider_redis.mkRedisCache (provider_redis.store_client store fails) csize)
            requiredModelVersion) chunks = Some resps /\
    Forall2 chunk_response_ok chunks resps.
Proof.
  induction chunks as [|chunk chunks (resps & Hrun & Hall)].
  - exists []. split; [reflexivity|constructor].
  - destruct (fetch_chunk_store csize chunk) as (resp & Hresp & Hok).
    exists (resp :: resps). simpl. rewrite Hresp. simpl. rewrite Hrun. simpl.
    split; [reflexivity|constructor; auto].
Qed.

Lemma collect_store (chunks : list (list nat)) resps seen missing results :
  Forall2 chunk_response_ok chunks resps ->
  classified class seen missing results ->
  classified class (seen ++ concat (List.filter (chunk_ok deref fails) chunks))
    (provider_redis.collect resps missing results).1
    (provider_redis.collect resps missing results).2.
Proof.
  intros Hall. revert seen missing results.
  induction Hall as [|chunk resp chunks resps Hok _ IH]; intros seen missing results Hinv.
  - simpl. rewrite app_nil_r. exact Hinv.
  - simpl. unfold chunk_response in Hok.
    destruct (chunk_ok deref fails chunk).
    + destruct Hok as [-> Hresp]. simpl. rewrite app_assoc. apply IH.
      rewrite assign_all_union.
      destruct (provider_redis.Missing resp) as [|m ms] eqn:Hmiss.
      * simpl. rewrite <- (app_nil_r missing). rewrite <- Hmiss.
        apply classified_merge; [exact Hinv|]. rewrite Hmiss. exact Hresp.
      * replace (0 <? Z.of_nat (length (m :: ms))) with true
          by (symmetry; apply Z.ltb_lt; simpl; lia).
        apply classified_merge; auto.
    + destruct (provider_redis.Error resp); [|congruence]. apply IH. exact Hinv.
Qed.

(** The redis [MGet] over fixed store contents, for a positive chunk size:
    it returns, with a nil error; it sent one batch command per chunk; what
    it found and what it reports missing are the keys of the chunks whose
    command did not fail, each by its class. *)
Lemma MGet_store_spec (csize : Z) (keys : list nat) :
  0 < csize ->
  exists (full : list (list nat)) (last : list nat) o,
    chunkBy keys csize = Some (full ++ [last]) /\
    concat (full ++ [last]) = keys /\
    Forall (fun ch => Z.of_nat (length ch) = csize) full /\
    Z.of_nat (length last) <= csize /\
    Z.of_nat (length (full ++ [last])) =
      Z.max 1 ((Z.of_nat (length keys) + csize - 1) / csize) /\
    provider_redis.MGet GetCacheModelVersion Unmarshal deref
      (provider_redis.mkRedisCache (provider_redis.store_client store fails) csize)
      keys requiredModelVersion = Some o /\
    provider_redis.err_out o = None /\
    provider_redis.batch_calls o = map (map key_of) (full ++ [last]) /\
    classified class (concat (List.filter (chunk_ok deref fails) (full ++ [last])))
      (provider_redis.missingKeys_out o) (provider_redis.found o).
Proof.
  intros Hc.
  destruct (chunkBy_spec keys csize Hc) as (full & last & Hch & Hcat & Hfull & Hlast & Hlen).
  destruct (fetch_all_store csize (full ++ [last])) as (resps & Hrun & Hall).
  pose proof (collect_store _ _ [] [] ∅ Hall classified_nil) as Hinv.
  unfold provider_redis.MGet. simpl. rewrite Hch. simpl. rewrite Hrun. simpl.
  destruct (provider_redis.collect resps [] ∅) as [missing results].
  eexists full, last, _. repeat (split; [first [reflexivity|eassumption]|]).
  exact Hinv.
Qed.

Lemma elem_of_ok_chunks (chunks : list (list nat)) (k : nat) :
  k ∈ concat (List.filter (chunk_ok deref fails) chunks) <->
  exists ch, ch ∈ chunks /\ k ∈ ch /\ fails (map key_of ch) = None.
Proof.
  rewrite list_elem_of_In, in_concat. split.
  - intros (ch & Hch & Hk). apply filter_In in Hch as [Hch Hok].
    exists ch. rewrite !list_elem_of_In. repeat split; auto.
    unfold chunk_ok in Hok. destruct (fails (map key_of ch)); [discriminate|reflexivity].
  - intros (ch & Hch & Hk & Hok). exists ch. rewrite filter_In, <- !list_elem_of_In.
    repeat split; auto. unfold chunk_ok. rewrite Hok. reflexivity.
Qed.

Lemma all_chunks_ok (chunks : list (list nat)) :
  (forall ks, fails ks = None) -> List.filter (chunk_ok deref fails) chunks = chunks.
Proof.
  intros Hno. induction chunks as [|ch chunks IH]; simpl; auto.
  unfold chunk_ok at 1. rewrite Hno, IH. reflexivity.
Qed.

(** C6. Over fixed store contents and for a positive chunk size, the redis
    [MGet] returns with a nil error, whatever commands failed; a key whose
    stored value decodes to an item of another version than the required
    one is neither in the found map nor in the missing list; and a key all
    of whose chunks had a failing batch command is in neither. *)
Theorem C6_redis_MGet_drops_silently (csize : Z) (keys : list nat) :
  0 < csize ->
  exists (chunks : list (list nat)) o,
    chunkBy keys csize = Some chunks /\
    provider_redis.MGet GetCacheModelVersion Unmarshal deref
      (provider_redis.mkRedisCache (provider_redis.store_client store fails) csize)
      keys requiredModelVersion = Some o /\
    provider_redis.err_out o = None /\
    (forall k b item,
       store (KeyOf (deref k)) = Some b -> Unmarshal b = Some item ->
       GetCacheModelVersion item <> requiredModelVersion ->
       provider_redis.found o !! k = None /\ k ∉ provider_redis.missingKeys_out o) /\
    (forall k,
       (forall ch, ch ∈ chunks -> k ∈ ch -> fails (map key_of ch) <> None) ->
       provider_redis.found o !! k = None /\ k ∉ provider_redis.missingKeys_out o).
Proof.
  intros Hc.
  destruct (MGet_store_spec csize keys Hc)
    as (full & last & o & Hch & _ & _ & _ & _ & Hrun & Herr & _ & [Hm Hr]).
  exists (full ++ [last]), o.
  split; [exact Hch|]. split; [exact Hrun|]. split; [exact Herr|]. split.
  - intros k b item Hs Hu Hv.
    assert (class k = SlotDropped) as Hk.
    { unfold class_of. rewrite Hs, Hu.
      destruct (GetCacheModelVersion item =? requiredModelVersion) eqn:E; [|reflexivity].
      apply Z.eqb_eq in E. contradiction. }
    split.
    + destruct (provider_redis.found o !! k) as [v|] eqn:Hf; [|reflexivity].
      apply Hr in Hf as (item' & _ & _ & Hc'). congruence.
    + intros Hin. apply Hm in Hin as [_ Hc']. congruence.
  - intros k Hall.
    assert (~ k ∈ concat (List.filter (chunk_ok deref fails) (full ++ [last]))) as Hnot.
    { rewrite elem_of_ok_chunks. intros (ch & Hin & Hk & Hok).
      exact (Hall ch Hin Hk Hok). }
    split.
    + destruct (provider_redis.found o !! k) as [v|] eqn:Hf; [|reflexivity].
      apply Hr in Hf as (item' & _ & Hin & _). contradiction.
    + intros Hin. apply Hm in Hin as [Hin _]. contradiction.
Qed.

(** C7. For a positive chunk size the key list is cut, in order, into
    chunks that are all full except the last, which has at most the chunk
    size, and one batch command is sent per chunk; [NewRedisCache] sets the
    chunk size to 100; 250 keys with chunk size 100 make exactly 3 batch
    commands; and when no command fails and every key has a stored value
    that decodes to an item of the required version, nothing is missing
    and the found map binds exactly the input keys, each to its item. *)
Theorem C7_redis_MGet_chunks_and_merges (csize : Z) (keys : list nat) :
  0 < csize ->
  exists (full : list (list nat)) (last : list nat) o,
    chunkBy keys csize = Some (full ++ [last]) /\
    concat (full ++ [last]) = keys /\
    Forall (fun ch => Z.of_nat (length ch) = csize) full /\
    Z.of_nat (length last) <= csize /\
    provider_redis.MGet GetCacheModelVersion Unmarshal deref
      (provider_redis.mkRedisCache (provider_redis.store_client store fails) csize)
      keys requiredModelVersion = Some o /\
    provider_redis.batch_calls o = map (map key_of) (full ++ [last]) /\
    provider_redis.chunkSize
      (provider_redis.NewRedisCache (provider_redis.store_client store fails)) = 100 /\
    (csize = 100 -> length keys = 250%nat -> length (provider_redis.batch_calls o) = 3%nat) /\
    ((forall ks, fails ks = None) ->
     (forall k, k ∈ keys ->
        exists b item, store (KeyOf (deref k)) = Some b /\ Unmarshal b = Some item /\
                       GetCacheModelVersion item = requiredModelVersion) ->
     provider_redis.missingKeys_out o = [] /\
     dom (provider_redis.found o) =@{gset nat} list_to_set keys /\
     (NoDup keys -> size (provider_redis.found o) = length keys) /\
     (forall k b item,
        k ∈ keys -> store (KeyOf (deref k)) = Some b -> Unmarshal b = Some item ->
        provider_redis.found o !! k = Some (Some item))).
Proof.
  intros Hc.
  destruct (MGet_store_spec csize keys Hc)
    as (full & last & o & Hch & Hcat & Hfull & Hlast & Hlen & Hrun & _ & Hcalls & [Hm Hr]).
  exists full, last, o.
  split; [exact Hch|]. split; [exact Hcat|]. split; [exact Hfull|]. split; [exact Hlast|].
  split; [exact Hrun|]. split; [exact Hcalls|]. split; [reflexivity|]. split.
  - intros -> Hn. rewrite Hcalls, length_map. rewrite Hn in Hlen.
    change ((Z.of_nat 250 + 100 - 1) / 100) with 3 in Hlen. lia.
  - intros Hno Hall. rewrite (all_chunks_ok _ Hno), Hcat in Hm, Hr.
    assert (forall k, k ∈ keys -> exists item, class k = SlotFound item) as Hcls.
    { intros k Hin. destruct (Hall k Hin) as (b & item & Hs & Hu & Hv).
      exists item. unfold class_of. rewrite Hs, Hu.
      replace (GetCacheModelVersion item =? requiredModelVersion) with true
        by (symmetry; apply Z.eqb_eq; exact Hv). reflexivity. }
    assert (dom (provider_redis.found o) =@{gset nat} list_to_set keys) as Hdom.
    { apply set_eq. intros k. rewrite elem_of_dom, elem_of_list_to_set. split.
      - intros [v Hv]. apply Hr in Hv as (_ & _ & Hin & _). exact Hin.
      - intros Hin. destruct (Hcls k Hin) as (item & Hk). exists (Some item).
        apply Hr. exists item. auto. }
    split; [|split; [exact Hdom|split]].
    + destruct (provider_redis.missingKeys_out o) as [|k ks] eqn:Hmiss; [reflexivity|].
      destruct (Hm k) as [Hin _]. destruct Hin as [Hin Hk]; [left|].
      destruct (Hcls k Hin) as (item & Hk'). congruence.
    + intros Hnd. rewrite <- size_dom, Hdom. apply size_list_to_set. exact Hnd.
    + intros k b item Hin Hs Hu. apply Hr. exists item. split; [reflexivity|].
      split; [exact Hin|].
      destruct (Hall k Hin) as (b' & item' & Hs' & Hu' & Hv').
      unfold class_of. rewrite Hs, Hu.
      assert (item' = item) as <- by congruence.
      replace (GetCacheModelVersion item' =? requiredModelVersion) with true
        by (symmetry; apply Z.eqb_eq; exact Hv'). reflexivity.
Qed.

End RedisFacts.

(** ** The redis tier on concrete store contents *)

Lemma C6_witness :
  exists o,
    provider_redis.MGet ModelVersion test_Unmarshal test_key
      (provider_redis.mkRedisCache (provider_redis.store_client store_mixed no_failure) 2)
      [0%nat; 1%nat; 2%nat; 3%nat] 7 = Some o /\
    provider_redis.err_out o = None /\
    provider_redis.found o !! 1%nat = None /\
    1%nat ∉ provider_redis.missingKeys_out o.
Proof.
  destruct (C6_redis_MGet_drops_silently ModelVersion test_Unmarshal test_key
              store_mixed no_failure 7 2 [0%nat; 1%nat; 2%nat; 3%nat])
    as (chunks & o & _ & Hrun & Herr & Hdrop & _); [lia|].
  exists o. split; [exact Hrun|]. split; [exact Herr|].
  apply (Hdrop 1%nat "old"%string (mkEntity 0 "old" 6)); [reflexivity|reflexivity|].
  simpl. lia.
Defined.

Lemma C7_witness :
  exists o,
    provider_redis.MGet ModelVersion test_Unmarshal test_key
      (provider_redis.mkRedisCache (provider_redis.store_client store_all no_failure) 100)
      (seq 0 250) 7 = Some o /\
    length (provider_redis.batch_calls o) = 3%nat /\
    provider_redis.missingKeys_out o = [] /\
    size (provider_redis.found o) = 250%nat.
Proof.
  destruct (C7_redis_MGet_chunks_and_merges ModelVersion test_Unmarshal test_key
              store_all no_failure 7 100 (seq 0 250))
    as (full & last & o & _ & _ & _ & _ & Hrun & _ & _ & Hcalls & Hall); [lia|].
  exists o. split; [exact Hrun|].
  split; [apply Hcalls; reflexivity|].
  destruct Hall as (Hmiss & _ & Hsize & _).
  - intros ks. reflexivity.
  - intros k _. exists "random_content"%string, (mkEntity 0 "random_content" 7).
    repeat split; reflexivity.
  - split; [exact Hmiss|]. rewrite Hsize; [reflexivity|]. apply NoDup_seq.
Defined.

Lemma chunkBy_single {A : Type} (items : list A) (csize : Z) :
  Z.of_nat (length items) <= csize -> chunkBy items csize = Some [items].
Proof.
  intros Hle. unfold chunkBy.
  destruct (length items) eqn:Hn; simpl; rewrite Hn;
    (replace (csize <? _) with false by (symmetry; apply Z.ltb_ge; lia)); reflexivity.
Qed.

(** Where the two redis providers agree: a key list that fits one chunk. *)
Lemma MGet_v8_single_chunk {T V : Type} (GetCacheModelVersion : T -> Z)
    (Unmarshal : string -> option T) (deref : nat -> Key V)
    (r : provider_redis.RedisCache) (keys : list nat) (requiredModelVersion : Z) :
  Z.of_nat (length keys) <= provider_redis.chunkSize r ->
  provider_redis.MGet_v8 GetCacheModelVersion Unmarshal deref r keys requiredModelVersion =
  provider_redis.MGet GetCacheModelVersion Unmarshal deref r keys requiredModelVersion.
Proof.
  intros Hle. unfold provider_redis.MGet_v8, provider_redis.MGet.
  rewrite !chunkBy_single by (rewrite ?length_map; exact Hle).
  reflexivity.
Qed.

(** C9. With 101 keys, the chunk size 100 of [NewRedisCache] and a store
    that holds key number 100 only, provider_redis.go finds key 100 and
    reports keys 0 to 99 missing, while the older provider binds the value
    of key 100 to key 0, does not find key 100, and reports key 0 missing
    as well: the two do not classify the keys alike. *)
Theorem C9_older_provider_misattributes_second_chunk :
  exists o o8,
    provider_redis.MGet ModelVersion test_Unmarshal test_key
      (provider_redis.NewRedisCache (provider_redis.store_client store_key100 no_failure))
      (seq 0 101) 7 = Some o /\
    provider_redis.MGet_v8 ModelVersion test_Unmarshal test_key
      (provider_redis.NewRedisCache (provider_redis.store_client store_key100 no_failure))
      (seq 0 101) 7 = Some o8 /\
    provider_redis.found o = {[ 100%nat := Some (mkEntity 0 "random_content" 7) ]} /\
    provider_redis.found o8 = {[ 0%nat := Some (mkEntity 0 "random_content" 7) ]} /\
    provider_redis.missingKeys_out o = seq 0 100 /\
    provider_redis.missingKeys_out o8 = seq 0 100 /\
    provider_redis.found o <> provider_redis.found o8.
Proof.
  eexists _, _. split; [vm_compute; reflexivity|]. split; [vm_compute; reflexivity|].
  split; [vm_compute; reflexivity|]. split; [vm_compute; reflexivity|].
  split; [vm_compute; reflexivity|]. split; [vm_compute; reflexivity|].
  intros Heq. apply (f_equal (fun m => m !! 0%nat)) in Heq. vm_compute in Heq. discriminate.
Qed.

(** ** More about the orchestrator *)

Section OrchestratorMore.
Context {T V W : Type}.
Variable deref : nat -> Key V.

Local Abbreviation Provider := (@Provider T W).
Local Abbreviation RT := (@RT T W).
Local Abbreviation Event := (@Event T).

Lemma filter_none {A : Type} (f : A -> bool) (l : list A) :
  Forall (fun a => f a = false) l -> List.filter f l = [].
Proof.
  induction 1 as [|a l Ha _ IH]; simpl; [reflexivity|]. rewrite Ha. exact IH.
Qed.

Lemma read_not_origin (evs : list Event) :
  Forall (fun e => is_read e = true) evs -> Forall (fun e => is_origin e = false) evs.
Proof.
  intros H. eapply Forall_impl; [exact H|].
  intros e He. destruct e; simpl in *; auto; discriminate.
Qed.

(** The reads of [Get]: a hit, if there is one, is the last of them. *)
Lemma Get_tiers_shape (ps : list Provider) ctx key version mi (s : RT) :
  exists evs : list Event,
    trace (Get_tiers ps ctx key version mi s).2 = trace s ++ evs /\
    goroutines (Get_tiers ps ctx key version mi s).2 = goroutines s /\
    Forall (fun e => is_read e = true) evs /\
    match (Get_tiers ps ctx key version mi s).1.1 with
    | Some x =>
        exists pre tier,
          evs = pre ++ [EvGet tier ctx key version (Some x) None] /\
          Forall (fun e => is_hit e = false) pre
    | None => Forall (fun e => is_hit e = false) evs
    end.
Proof.
  revert mi s. induction ps as [|p rest IH]; intros mi s.
  - exists []. simpl. rewrite app_nil_r. auto.
  - simpl. unfold call_Get.
    destruct (provider_Get p ctx key version (world s)) as [[v err] w] eqn:Hp.
    destruct err as [e|]; [|destruct v as [x|]].
    + edestruct IH as (evs & Htr & Hgo & Hrd & Hshape).
      exists (EvGet (provider_id p) ctx key version v (Some e) :: EvLog ctx e :: evs).
      rewrite Htr, Hgo. simpl. rewrite <- !app_assoc. simpl.
      split; [reflexivity|]. split; [reflexivity|]. split; [auto|].
      assert (is_hit (EvGet (provider_id p) ctx key version v (Some e)) = false) as Hnh
        by (destruct v; reflexivity).
      destruct (Get_tiers rest ctx key version mi _).1.1 as [x|].
      * destruct Hshape as (pre & tier & -> & Hpre).
        exists (EvGet (provider_id p) ctx key version v (Some e) :: EvLog ctx e :: pre), tier.
        split; [reflexivity|]. auto.
      * auto.
    + exists [EvGet (provider_id p) ctx key version (Some x) None].
      simpl. split; [reflexivity|]. split; [reflexivity|]. split; [auto|].
      exists [], (provider_id p). auto.
    + edestruct IH as (evs & Htr & Hgo & Hrd & Hshape).
      exists (EvGet (provider_id p) ctx key version None None :: evs).
      rewrite Htr, Hgo. simpl. rewrite <- !app_assoc. simpl.
      split; [reflexivity|]. split; [reflexivity|]. split; [auto|].
      destruct (Get_tiers rest ctx key version _ _).1.1 as [x|].
      * destruct Hshape as (pre & tier & -> & Hpre).
        exists (EvGet (provider_id p) ctx key version None None :: pre), tier.
        split; [reflexivity|]. auto.
      * auto.
Qed.

Lemma Get_write_back_writes (mi : list Provider) ctx setMap ttl0 (s : RT) :
  exists evs : list Event,
    trace (Get_write_back mi ctx setMap ttl0 s) = trace s ++ evs /\
    goroutines (Get_write_back mi ctx setMap ttl0 s) = goroutines s /\
    Forall (fun e => is_write e = true) evs.
Proof.
  revert s. induction mi as [|m rest IH]; intros s.
  - exists []. simpl. rewrite app_nil_r. auto.
  - simpl. unfold call_MSet.
    destruct (provider_MSet m ctx setMap ttl0 (world s)) as [err w] eqn:Hm.
    destruct err as [e|].
    + edestruct IH as (evs & Htr & Hgo & Hwr).
      exists (EvMSet (provider_id m) ctx setMap ttl0 (Some e) :: EvLog ctx e :: evs).
      rewrite Htr, Hgo. simpl. rewrite <- !app_assoc. simpl. repeat split; auto.
    + edestruct IH as (evs & Htr & Hgo & Hwr).
      exists (EvMSet (provider_id m) ctx setMap ttl0 None :: evs).
      rewrite Htr, Hgo. simpl. rewrite <- !app_assoc. simpl. repeat split; auto.
Qed.

(** The four ways through [Get]: a tier hit; no origin function; the
    origin fails; the origin answers. *)
Lemma Get_cases (c : @Cache T W) ctx key fn (s : RT) :
  let out := Get deref c ctx key fn s in
  exists evs1 : list Event,
    Forall (fun e => is_read e = true) evs1 /\
    ((exists x pre tier evs2,
        evs1 = pre ++ [EvGet tier ctx key (modelVersion (builder c)) (Some x) None] /\
        Forall (fun e => is_hit e = false) pre /\
        out.1 = (Some x, None) /\
        trace out.2 = trace s ++ evs1 ++ evs2 /\
        Forall (fun e => is_write e = true) evs2 /\
        goroutines out.2 = goroutines s)
     \/
     (Forall (fun e => is_hit e = false) evs1 /\ fn = None /\
      out.1 = (None, Some (errors_New "get single from source is not defined")) /\
      trace out.2 = trace s ++ evs1 /\ goroutines out.2 = goroutines s)
     \/
     (exists v e,
        Forall (fun e => is_hit e = false) evs1 /\ fn <> None /\
        out.1 = (None, Some (errors_Wrap e "can not get from source")) /\
        trace out.2 = trace s ++ evs1 ++ [EvSourceOne ctx key v (Some e)] /\
        goroutines out.2 = goroutines s)
     \/
     (exists v evs2,
        Forall (fun e => is_hit e = false) evs1 /\ fn <> None /\
        out.1 = (v, None) /\
        trace out.2 = trace s ++ evs1 ++ [EvSourceOne ctx key v None] ++ evs2 /\
        Forall (fun e => is_write e = true) evs2 /\
        goroutines out.2 = goroutines s)).
Proof.
  intros out. subst out. rewrite Get_unfold. cbv zeta.
  destruct (Get_tiers_shape (providers (builder c)) ctx key (modelVersion (builder c)) [] s)
    as (evs1 & Htr1 & Hgo1 & Hrd & Hshape).
  set (r := Get_tiers _ _ _ _ _ _) in *.
  exists evs1. split; [exact Hrd|].
  destruct (r.1.1) as [x|] eqn:Hfv.
  - left. destruct Hshape as (pre & tier & Hevs & Hpre).
    rewrite Get_finish_write_back.
    destruct (Get_write_back_writes r.1.2 ctx {[ KeyOf (deref key) := Some x ]}
                (ttl (builder c)) r.2) as (evs2 & Htr2 & Hgo2 & Hwr).
    exists x, pre, tier, evs2. simpl.
    rewrite Htr2, Hgo2, Htr1, Hgo1, <- app_assoc. auto 10.
  - right. destruct fn as [f|]; [right|left; simpl; auto].
    destruct (call_single_spec f ctx key r.2) as (Htrq & Hgoq & _).
    set (q := call_single f ctx key r.2) in *.
    destruct (q.1.2) as [e|] eqn:Herr.
    + left. exists q.1.1, e. simpl.
      rewrite Htrq, Hgoq, Htr1, Hgo1, <- app_assoc.
      split; [auto|]. split; [discriminate|]. auto.
    + right. rewrite Get_finish_write_back.
      destruct (Get_write_back_writes r.1.2 ctx {[ KeyOf (deref key) := q.1.1 ]}
                  (ttl (builder c)) q.2) as (evs2 & Htr2 & Hgo2 & Hwr).
      exists q.1.1, evs2. simpl.
      rewrite Htr2, Hgo2, Htrq, Hgoq, Htr1, Hgo1, <- !app_assoc.
      split; [auto|]. split; [discriminate|]. auto 10.
Qed.

Lemma write_not_origin (evs : list Event) :
  Forall (fun e => is_write e = true) evs -> Forall (fun e => is_origin e = false) evs.
Proof.
  intros H. eapply Forall_impl; [exact H|].
  intros e He. destruct e; simpl in *; auto; discriminate.
Qed.

Lemma write_not_hit (evs : list Event) :
  Forall (fun e => is_write e = true) evs -> Forall (fun e => is_hit e = false) evs.
Proof.
  intros H. eapply Forall_impl; [exact H|].
  intros e He. destruct e; simpl in *; auto; discriminate.
Qed.

Lemma not_In_by (f : Event -> bool) (b : bool) (e : Event) (evs : list Event) :
  Forall (fun e => f e = b) evs -> f e = negb b -> ~ In e evs.
Proof.
  intros Hall He Hin. rewrite Forall_forall in Hall.
  apply list_elem_of_In, Hall in Hin. rewrite Hin in He. destruct b; discriminate.
Qed.

Ltac absurd_in f H :=
  exfalso; eapply (not_In_by f false); [ | | exact H];
  [solve [eauto using write_not_origin, write_not_hit] | reflexivity].

(** X1. Whenever the origin function is called by [Get] and returns an
    error, the call returns a nil value and that error wrapped; nothing is
    written back to any tier, also not to the tiers that answered absent. *)
Theorem X1_Get_origin_error_fails_without_write_back
    (c : @Cache T W) (ctx : Context) (key : nat)
    (fn : option (@GetSingleFromSourceFn T W)) (s : RT)
    (evs : list Event) (ctx' : Context) (k : nat) (v : option T) (e : error) :
  trace (Get deref c ctx key fn s).2 = trace s ++ evs ->
  In (EvSourceOne ctx' k v (Some e)) evs ->
  (Get deref c ctx key fn s).1 = (None, Some (errors_Wrap e "can not get from source")) /\
  omap mset_of evs = [] /\
  goroutines (Get deref c ctx key fn s).2 = goroutines s.
Proof.
  intros Htr Hin.
  destruct (Get_cases c ctx key fn s) as (evs1 & Hrd & Hcase). cbv zeta in Hcase.
  pose proof (read_not_origin _ Hrd) as Hno1.
  destruct Hcase as [H|[H|[H|H]]].
  - destruct H as (x & pre & tier & evs2 & _ & _ & _ & Htr' & Hwr & _).
    rewrite Htr' in Htr. apply app_inv_head in Htr. subst evs.
    apply in_app_or in Hin as [Hin|Hin]; absurd_in (@is_origin T) Hin.
  - destruct H as (_ & _ & _ & Htr' & _).
    rewrite Htr' in Htr. apply app_inv_head in Htr. subst evs.
    absurd_in (@is_origin T) Hin.
  - destruct H as (v' & e' & _ & _ & Hres & Htr' & Hgo).
    rewrite Htr' in Htr. apply app_inv_head in Htr. subst evs.
    apply in_app_or in Hin as [Hin|Hin];
      [absurd_in (@is_origin T) Hin|].
    destruct Hin as [Heq|[]]. injection Heq as _ _ _ ->.
    rewrite Hres, omap_app, (is_read_mset _ Hrd). auto.
  - destruct H as (v' & evs2 & _ & _ & _ & Htr' & Hwr & _).
    rewrite Htr' in Htr. apply app_inv_head in Htr. subst evs.
    apply in_app_or in Hin as [Hin|Hin]; [absurd_in (@is_origin T) Hin|].
    apply in_app_or in Hin as [Hin|Hin]; [|absurd_in (@is_origin T) Hin].
    destruct Hin as [Heq|[]]. discriminate.
Qed.

(** X2. In every [Get] the origin is called at most once; and a tier that
    answers with a value and no error ends the lookup: the call returns that
    value, every event before the hit is a read that did not hit, and every
    event after it is a write or a log line, so no later tier is read and
    the origin is not called. *)
Theorem X2_Get_hit_ends_lookup
    (c : @Cache T W) (ctx : Context) (key : nat)
    (fn : option (@GetSingleFromSourceFn T W)) (s : RT) (evs : list Event) :
  trace (Get deref c ctx key fn s).2 = trace s ++ evs ->
  (length (List.filter is_origin evs) <= 1)%nat /\
  (forall tier ctx' k version x,
     In (EvGet tier ctx' k version (Some x) None) evs ->
     (Get deref c ctx key fn s).1 = (Some x, None) /\
     exists pre post,
       evs = pre ++ EvGet tier ctx' k version (Some x) None :: post /\
       Forall (fun e => is_read e = true) pre /\
       Forall (fun e => is_hit e = false) pre /\
       Forall (fun e => is_write e = true) post).
Proof.
  intros Htr.
  destruct (Get_cases c ctx key fn s) as (evs1 & Hrd & Hcase). cbv zeta in Hcase.
  pose proof (read_not_origin _ Hrd) as Hno1.
  destruct Hcase as [H|[H|[H|H]]].
  - destruct H as (x & pre & tier & evs2 & Hevs1 & Hpre & Hres & Htr' & Hwr & _).
    rewrite Htr' in Htr. apply app_inv_head in Htr. subst evs. split.
    + rewrite List.filter_app, (filter_none _ _ Hno1),
        (filter_none _ _ (write_not_origin _ Hwr)). simpl. lia.
    + intros tier' ctx' k version x' Hin.
      apply in_app_or in Hin as [Hin|Hin];
        [|absurd_in (@is_hit T) Hin].
      rewrite Hevs1 in Hin. apply in_app_or in Hin as [Hin|Hin];
        [absurd_in (@is_hit T) Hin|].
      destruct Hin as [Heq|[]]. injection Heq as <- <- <- <- <-.
      split; [exact Hres|]. exists pre, evs2. rewrite Hevs1, <- app_assoc.
      split; [reflexivity|]. split; [|auto].
      rewrite Hevs1 in Hrd. apply Forall_app in Hrd as [Hrd _]. exact Hrd.
  - destruct H as (Hnh & _ & _ & Htr' & _).
    rewrite Htr' in Htr. apply app_inv_head in Htr. subst evs. split.
    + rewrite (filter_none _ _ Hno1). simpl. lia.
    + intros tier ctx' k version x Hin.
      absurd_in (@is_hit T) Hin.
  - destruct H as (v' & e' & Hnh & _ & _ & Htr' & _).
    rewrite Htr' in Htr. apply app_inv_head in Htr. subst evs. split.
    + rewrite List.filter_app, (filter_none _ _ Hno1). simpl. lia.
    + intros tier ctx' k version x Hin.
      apply in_app_or in Hin as [Hin|Hin]; [absurd_in (@is_hit T) Hin|].
      destruct Hin as [Heq|[]]. discriminate.
  - destruct H as (v' & evs2 & Hnh & _ & _ & Htr' & Hwr & _).
    rewrite Htr' in Htr. apply app_inv_head in Htr. subst evs. split.
    + rewrite !List.filter_app, (filter_none _ _ Hno1),
        (filter_none _ _ (write_not_origin _ Hwr)). simpl. lia.
    + intros tier ctx' k version x Hin.
      apply in_app_or in Hin as [Hin|Hin]; [absurd_in (@is_hit T) Hin|].
      apply in_app_or in Hin as [Hin|Hin]; [|absurd_in (@is_hit T) Hin].
      destruct Hin as [Heq|[]]. discriminate.
Qed.

Lemma merge_answers_app (acc : gmap nat (option T)) (ms1 ms2 : list (gmap nat (option T))) :
  merge_answers acc (ms1 ++ ms2) = merge_answers (merge_answers acc ms1) ms2.
Proof. unfold merge_answers. apply foldl_app. Qed.

Lemma merge_answers_lookup (ms : list (gmap nat (option T))) (acc : gmap nat (option T))
    (k : nat) (v : option T) :
  merge_answers acc ms !! k = Some v ->
  acc !! k = Some v \/ exists m, In m ms /\ m !! k = Some v.
Proof.
  revert acc. induction ms as [|m ms IH]; intros acc; simpl; [auto|].
  intros H. apply IH in H as [H|(m' & Hin & Hm')].
  - apply lookup_union_Some_raw in H as [H|[_ H]]; [|auto].
    right. exists m. auto.
  - right. exists m'. auto.
Qed.

(** The tier loop of [MGet]: its trace, what it has merged, and the order
    of its questions, for whatever follows it. *)
Lemma MGet_tiers_chain (ps : list Provider) ctx version q mi fr (s : RT) :
  exists evs : list Event,
    trace (MGet_tiers ps ctx version q mi fr s).2 = trace s ++ evs /\
    (MGet_tiers ps ctx version q mi fr s).1.2 = merge_answers fr (omap answer_of evs) /\
    forall rest : list Event,
      asks_chain (MGet_tiers ps ctx version q mi fr s).1.1.1 rest ->
      ((MGet_tiers ps ctx version q mi fr s).1.1.1 = [] -> rest = []) ->
      asks_chain q (evs ++ rest).
Proof.
  revert q mi fr s. induction ps as [|p ps IH]; intros q mi fr s.
  - exists []. simpl. rewrite app_nil_r. auto.
  - simpl. unfold call_MGet.
    destruct (provider_MGet p ctx q version (world s)) as [[[fd ms] err] w] eqn:Hp.
    destruct err as [e|]; [|destruct ms as [|k ks]].
    + edestruct IH as (evs & Htr & Hres & Hchain).
      exists (EvMGet (provider_id p) ctx q version fd ms (Some e) :: EvLog ctx e :: evs).
      rewrite Htr, Hres. simpl. rewrite <- !app_assoc. simpl.
      split; [reflexivity|]. split; [reflexivity|].
      intros rest H1 H2. split; [reflexivity|]. apply Hchain; auto.
    + exists [EvMGet (provider_id p) ctx q version fd [] None].
      simpl. split; [reflexivity|]. split; [rewrite assign_all_union; reflexivity|].
      intros rest _ H2. split; [reflexivity|]. apply H2. reflexivity.
    + cbn [length].
      replace (0 <? Z.of_nat (S (length ks))) with true by (symmetry; apply Z.ltb_lt; lia).
      replace (Z.of_nat (S (length ks)) =? 0) with false by (symmetry; apply Z.eqb_neq; lia).
      edestruct IH as (evs & Htr & Hres & Hchain).
      exists (EvMGet (provider_id p) ctx q version fd (k :: ks) None :: evs).
      rewrite Htr, Hres. simpl. rewrite <- !app_assoc. simpl.
      split; [reflexivity|]. split; [rewrite assign_all_union; reflexivity|].
      intros rest H1 H2. split; [reflexivity|]. apply Hchain; auto.
Qed.

(** A [MGet] seen from outside: the reads of the tier loop, then nothing or
    one origin call. *)
Lemma MGet_answers (c : @Cache T W) ctx keys fn (s : RT) :
  let out := MGet c ctx keys fn s in
  exists (evs1 : list Event) (toQuery : list nat) (merged : gmap nat (option T)),
    Forall (fun e => is_read e = true) evs1 /\
    merged = merge_answers ∅ (omap answer_of evs1) /\
    (forall rest, asks_chain toQuery rest -> (toQuery = [] -> rest = []) ->
                  asks_chain keys (evs1 ++ rest)) /\
    ((toQuery = [] /\ out.1 = (merged, None) /\ trace out.2 = trace s ++ evs1)
     \/
     (toQuery <> [] /\ (exists e, out.1 = (∅, Some e)) /\ trace out.2 = trace s ++ evs1)
     \/
     (exists values e,
        toQuery <> [] /\ (exists e', out.1 = (∅, Some e')) /\
        trace out.2 = trace s ++ evs1 ++ [EvSource ctx toQuery values (Some e)])
     \/
     (exists values,
        toQuery <> [] /\ out.1 = (values ∪ merged, None) /\
        trace out.2 = trace s ++ evs1 ++ [EvSource ctx toQuery values None])).
Proof.
  intros out. subst out.
  destruct (MGet_tiers_chain (providers (builder c)) ctx (modelVersion (builder c)) keys [] ∅ s)
    as (evs1 & Htr1 & Hres & Hchain).
  destruct (MGet_cases c ctx keys fn s) as (evs1' & Htr1' & _ & Hrd & _ & Hcase).
  cbv zeta in Hcase.
  set (r := MGet_tiers _ _ _ _ _ _ _) in *.
  rewrite Htr1 in Htr1'. apply app_inv_head in Htr1'. subst evs1'.
  exists evs1, r.1.1.1, r.1.2. split; [exact Hrd|].
  split; [exact Hres|]. split; [exact Hchain|].
  destruct Hcase as [(Hnil & Hout & Htr & _)|[(Hne & _ & Hout)|[H|H]]].
  - left. auto.
  - right. left. rewrite Hout. simpl. eauto.
  - right. right. left. destruct H as (values & e & Hne & _ & Hout & Htr & _).
    exists values, e. rewrite Hout. eauto.
  - right. right. right. destruct H as (values & Hne & _ & Hout & Htr & _).
    exists values. rewrite Hout, assign_all_union. auto.
Qed.

(** X3. The map a successful [MGet] returns is the merge, in the order of
    the calls, of what the tiers that did not fail reported found and of
    what the origin returned, a later answer overriding an earlier one for
    the same key pointer; so every entry of the result was given by a tier
    or by the origin, and the origin's entries always stand. *)
Theorem X3_MGet_result_is_merge_of_answers
    (c : @Cache T W) (ctx : Context) (keys : list nat)
    (fn : option (@GetFromSourceFn T W)) (s : RT)
    (res : gmap nat (option T)) (evs : list Event) :
  (MGet c ctx keys fn s).1 = (res, None) ->
  trace (MGet c ctx keys fn s).2 = trace s ++ evs ->
  res = merge_answers ∅ (omap answer_of evs) /\
  (forall k v, res !! k = Some v ->
     exists m, In m (omap answer_of evs) /\ m !! k = Some v) /\
  (forall ctx' ks values k v,
     In (EvSource ctx' ks values None) evs -> values !! k = Some v -> res !! k = Some v).
Proof.
  intros Hres Htr.
  destruct (MGet_answers c ctx keys fn s) as (evs1 & tq & merged & Hrd & Hm & _ & Hcase).
  cbv zeta in Hcase. rewrite Hres in Hcase.
  pose proof (read_not_origin _ Hrd) as Hno1.
  destruct Hcase as [(_ & Hout & Htr')|[(_ & [e Hout] & _)|[H|H]]].
  - rewrite Htr' in Htr. apply app_inv_head in Htr. subst evs.
    injection Hout as ->. split; [exact Hm|]. split.
    + intros k v Hk. rewrite Hm in Hk.
      apply merge_answers_lookup in Hk as [Hk|Hk]; [|exact Hk].
      rewrite lookup_empty in Hk. discriminate.
    + intros ctx' ks values k v Hin _. absurd_in (@is_origin T) Hin.
  - discriminate.
  - destruct H as (? & ? & _ & [? Hout] & _). discriminate.
  - destruct H as (values & _ & Hout & Htr').
    rewrite Htr' in Htr. apply app_inv_head in Htr. subst evs.
    injection Hout as ->.
    assert (values ∪ merged =
            merge_answers ∅ (omap answer_of (evs1 ++ [EvSource ctx tq values None]))) as Heq.
    { rewrite omap_app, merge_answers_app, <- Hm. reflexivity. }
    split; [exact Heq|]. split.
    + intros k v Hk. rewrite Heq in Hk.
      apply merge_answers_lookup in Hk as [Hk|Hk]; [|exact Hk].
      rewrite lookup_empty in Hk. discriminate.
    + intros ctx' ks values' k v Hin Hv.
      apply in_app_or in Hin as [Hin|Hin]; [absurd_in (@is_origin T) Hin|].
      destruct Hin as [Heq'|[]]. injection Heq' as _ _ <-.
      apply lookup_union_Some_l. exact Hv.
Qed.

(** The tier loop of [MGet], as a run of the tiers it asks. *)
Lemma MGet_tiers_asked (ps : list Provider) ctx version q mi fr (s : RT) :
  exists (asked rest : list Provider)
         (answers : list (gmap nat (option T) * list nat * option error))
         (q' : list nat) (w1 : W),
    ps = asked ++ rest /\
    mgets_chain asked ctx version q (world s) answers q' w1 /\
    lookup_over rest answers /\
    (ps <> [] -> asked <> []) /\
    MGet_tiers ps ctx version q mi fr s =
      ((q', mi ++ recorded_misses asked answers, tiers_found fr answers),
       mkRT w1 (trace s ++ mget_events asked ctx version q answers) (goroutines s)).
Proof.
  revert q mi fr s. induction ps as [|p ps IH]; intros q mi fr s.
  - exists [], [], [], q, (world s). simpl. rewrite !app_nil_r, RT_eta.
    split; [reflexivity|]. split; [auto|]. split; [right; auto|]. split; [auto|reflexivity].
  - simpl. unfold call_MGet.
    destruct (provider_MGet p ctx q version (world s)) as [[[fd ms] err] w2] eqn:Hp.
    destruct err as [e|]; [|destruct ms as [|k ks]].
    + edestruct (IH q mi fr) as (asked & rest & answers & q' & w1 & Hps & Hch & Hover & _ & Hrun).
      exists (p :: asked), rest, ((fd, ms, Some e) :: answers), q', w1.
      rewrite Hrun. simpl. rewrite <- !app_assoc. rewrite Hps.
      split; [reflexivity|]. split; [eauto|]. split; [|split; [discriminate|reflexivity]].
      destruct Hover as [(pre & a & -> & Hpre & Ha)|(-> & Hall)].
      * left. exists ((fd, ms, Some e) :: pre), a. split; [reflexivity|].
        split; [constructor; [destruct ms; reflexivity|exact Hpre]|exact Ha].
      * right. split; [reflexivity|]. constructor; [destruct ms; reflexivity|exact Hall].
    + exists [p], ps, [(fd, [], None)], [], w2. simpl. rewrite app_nil_r.
      split; [reflexivity|]. split; [eauto|]. split; [|split; [discriminate|reflexivity]].
      left. exists [], (fd, [], None). auto.
    + cbn [length].
      replace (0 <? Z.of_nat (S (length ks))) with true by (symmetry; apply Z.ltb_lt; lia).
      replace (Z.of_nat (S (length ks)) =? 0) with false by (symmetry; apply Z.eqb_neq; lia).
      edestruct (IH (k :: ks) (mi ++ [mkMissingData p (k :: ks)]) (assign_all fd fr))
        as (asked & rest & answers & q' & w1 & Hps & Hch & Hover & _ & Hrun).
      exists (p :: asked), rest, ((fd, k :: ks, None) :: answers), q', w1.
      rewrite Hrun. simpl. rewrite <- !app_assoc. rewrite Hps.
      split; [reflexivity|]. split; [eauto|]. split; [|split; [discriminate|reflexivity]].
      destruct Hover as [(pre & a & -> & Hpre & Ha)|(-> & Hall)].
      * left. exists ((fd, k :: ks, None) :: pre), a. split; [reflexivity|].
        split; [constructor; [reflexivity|exact Hpre]|exact Ha].
      * right. split; [reflexivity|]. constructor; [reflexivity|exact Hall].
Qed.

(** X4. [MGet] asks only for what is still missing.  Every call asks the
    configured tiers in order, up to the first that answers without error
    and with nothing missing: the first tier is asked the caller's keys, in
    the world the call starts in; after a tier that failed the next tier is
    asked the same keys again; after a tier that reported missing keys the
    next is asked exactly those.  The origin is asked after the tiers, once,
    for the keys the last tier left, and only when there are any. *)
Theorem X4_MGet_asks_only_what_is_missing
    (c : @Cache T W) (ctx : Context) (keys : list nat)
    (fn : option (@GetFromSourceFn T W)) (s : RT) :
  exists (asked rest : list Provider)
         (answers : list (gmap nat (option T) * list nat * option error))
         (q' : list nat) (w1 : W),
    providers (builder c) = asked ++ rest /\
    mgets_chain asked ctx (modelVersion (builder c)) keys (world s) answers q' w1 /\
    lookup_over rest answers /\
    (providers (builder c) <> [] -> asked <> []) /\
    (q' = [] \/ fn = None ->
     world (MGet c ctx keys fn s).2 = w1 /\
     trace (MGet c ctx keys fn s).2 =
       trace s ++ mget_events asked ctx (modelVersion (builder c)) keys answers) /\
    (forall f : @GetFromSourceFn T W,
       q' <> [] -> fn = Some f ->
       world (MGet c ctx keys fn s).2 = (f ctx q' w1).2 /\
       trace (MGet c ctx keys fn s).2 =
         trace s ++ mget_events asked ctx (modelVersion (builder c)) keys answers ++
         [EvSource ctx q' (f ctx q' w1).1.1 (f ctx q' w1).1.2]) /\
    (forall evs : list Event,
       trace (MGet c ctx keys fn s).2 = trace s ++ evs -> asks_chain keys evs).
Proof.
  destruct (MGet_tiers_asked (providers (builder c)) ctx (modelVersion (builder c))
              keys [] ∅ s)
    as (asked & rest & answers & q' & w1 & Hps & Hch & Hover & Hne & Hrun).
  exists asked, rest, answers, q', w1.
  split; [exact Hps|]. split; [exact Hch|]. split; [exact Hover|]. split; [exact Hne|].
  split; [|split].
  - intros Hor. unfold MGet. rewrite Hrun.
    destruct (0 <? Z.of_nat (length q')) eqn:Hlen.
    + apply length_pos_nonnil in Hlen.
      destruct Hor as [Hq|Hfn]; [contradiction|]. rewrite Hfn. auto.
    + destruct (MGet_finish_spec c ctx ([] ++ recorded_misses asked answers) ∅
                  (tiers_found ∅ answers)
                  (mkRT w1 (trace s ++ mget_events asked ctx (modelVersion (builder c))
                                         keys answers) (goroutines s)))
        as (_ & Htr & _).
      rewrite MGet_finish_world, Htr. auto.
  - intros f Hq ->. unfold MGet. rewrite Hrun.
    apply length_pos_nonnil in Hq. rewrite Hq.
    unfold call_source. cbn [world trace goroutines].
    destruct (f ctx q' w1) as [[values err] w2]. destruct err as [e|].
    + simpl. rewrite <- app_assoc. auto.
    + rewrite MGet_finish_world.
      match goal with |- context [MGet_finish _ _ _ _ _ ?st] =>
        destruct (MGet_finish_spec c ctx ([] ++ recorded_misses asked answers) values
                    (assign_all values (tiers_found ∅ answers)) st) as (_ & Htr & _)
      end.
      simpl in Htr |- *. rewrite Htr, <- app_assoc. auto.
  - intros evs Htr.
    destruct (MGet_answers c ctx keys fn s) as (evs1 & tq & merged & _ & _ & Hchain & Hcase).
    cbv zeta in Hcase.
    destruct Hcase as [(_ & _ & Htr')|[(_ & _ & Htr')|[H|H]]].
    + rewrite Htr' in Htr. apply app_inv_head in Htr. subst evs.
      rewrite <- (app_nil_r evs1). apply Hchain; simpl; auto.
    + rewrite Htr' in Htr. apply app_inv_head in Htr. subst evs.
      rewrite <- (app_nil_r evs1). apply Hchain; simpl; auto.
    + destruct H as (values & e & Hne' & _ & Htr').
      rewrite Htr' in Htr. apply app_inv_head in Htr. subst evs.
      apply Hchain; [simpl; auto|contradiction].
    + destruct H as (values & Hne' & _ & Htr').
      rewrite Htr' in Htr. apply app_inv_head in Htr. subst evs.
      apply Hchain; [simpl; auto|contradiction].
Qed.

(** X5. With no tier configured the orchestrator passes the request
    through: [Get] returns what the origin returns (its error wrapped),
    [MGet] of a non-empty key list returns the origin's map, and neither
    writes anything or starts a backfill; [MGet] of an empty key list
    returns an empty map and a nil error without calling the origin, also
    when the origin function is nil. *)
Theorem X5_no_tiers_pass_through (c : @Cache T W) (ctx : Context) (s : RT) :
  providers (builder c) = [] ->
  (forall key f,
     (Get deref c ctx key (Some f) s).1 =
       match (f ctx key (world s)).1.2 with
       | Some e => (None, Some (errors_Wrap e "can not get from source"))
       | None => ((f ctx key (world s)).1.1, None)
       end /\
     trace (Get deref c ctx key (Some f) s).2 =
       trace s ++ [EvSourceOne ctx key (f ctx key (world s)).1.1 (f ctx key (world s)).1.2] /\
     goroutines (Get deref c ctx key (Some f) s).2 = goroutines s)
  /\
  (forall keys f,
     keys <> [] ->
     (MGet c ctx keys (Some f) s).1 =
       match (f ctx keys (world s)).1.2 with
       | Some e => (∅, Some (errors_Wrap e "can not get from source"))
       | None => ((f ctx keys (world s)).1.1, None)
       end /\
     trace (MGet c ctx keys (Some f) s).2 =
       trace s ++ [EvSource ctx keys (f ctx keys (world s)).1.1 (f ctx keys (world s)).1.2] /\
     goroutines (MGet c ctx keys (Some f) s).2 = goroutines s)
  /\
  (forall fn, MGet c ctx [] fn s = ((∅, None), s)).
Proof.
  intros Hps. split; [|split].
  - intros key f. unfold Get. rewrite Hps. simpl. unfold call_single.
    destruct (f ctx key (world s)) as [[v err] w]. simpl.
    destruct err; simpl; auto.
  - intros keys f Hne. unfold MGet. rewrite Hps. simpl.
    apply length_pos_nonnil in Hne. rewrite Hne. unfold call_source.
    destruct (f ctx keys (world s)) as [[values err] w]. simpl.
    destruct err; simpl; [auto|].
    rewrite assign_all_union, (right_id_L ∅ (∪)). auto.
  - intros fn. unfold MGet. rewrite Hps. reflexivity.
Qed.

(** X6. Read-through with one tier: when the tier has nothing for the key,
    the origin returns a value, and the tier returns that value once it has
    been written to it, then the first [Get] returns the origin's value and
    a second [Get] of the same key returns it from the tier: its trace is
    the one tier read, with no origin call and no write, and it does not
    need the origin function. *)
Theorem X6_Get_read_through_then_hit
    (c : @Cache T W) (ctx : Context) (key : nat) (p : Provider)
    (f : @GetSingleFromSourceFn T W) (s : RT)
    (x : T) (w1 w2 w3 w4 : W) (r : option error) :
  providers (builder c) = [p] ->
  provider_Get p ctx key (modelVersion (builder c)) (world s) = ((None, None), w1) ->
  f ctx key w1 = ((Some x, None), w2) ->
  provider_MSet p ctx {[ KeyOf (deref key) := Some x ]} (ttl (builder c)) w2 = (r, w3) ->
  provider_Get p ctx key (modelVersion (builder c)) w3 = ((Some x, None), w4) ->
  (Get deref c ctx key (Some f) s).1 = (Some x, None) /\
  forall fn2,
    (Get deref c ctx key fn2 (Get deref c ctx key (Some f) s).2).1 = (Some x, None) /\
    trace (Get deref c ctx key fn2 (Get deref c ctx key (Some f) s).2).2 =
      trace (Get deref c ctx key (Some f) s).2 ++
      [EvGet (provider_id p) ctx key (modelVersion (builder c)) (Some x) None].
Proof.
  intros Hps Hmiss Hf Hset Hhit.
  assert (world (Get deref c ctx key (Some f) s).2 = w3 /\
          (Get deref c ctx key (Some f) s).1 = (Some x, None)) as [Hw Hres].
  { unfold Get. rewrite Hps. simpl. unfold call_Get. rewrite Hmiss. simpl.
    unfold call_single. simpl. rewrite Hf. simpl.
    unfold Get_finish. simpl. unfold call_MSet. simpl. rewrite Hset.
    destruct r; simpl; auto. }
  split; [exact Hres|]. intros fn2.
  set (s1 := (Get deref c ctx key (Some f) s).2) in *.
  unfold Get. rewrite Hps. simpl. unfold call_Get. rewrite Hw, Hhit. simpl. auto.
Qed.

End OrchestratorMore.

(** ** More of the orchestrator on concrete tiers *)

(** One tier that has nothing, and an origin that fails. *)
Lemma X1_witness :
  (Get test_key (cache_of [tier_absent 1]) context_TODO 1%nat (Some origin_single_fails) s0).1 =
    (None, Some (errors_Wrap (external_error 2) "can not get from source")) /\
  omap mset_of
    (trace (Get test_key (cache_of [tier_absent 1]) context_TODO 1%nat
                (Some origin_single_fails) s0).2) = [].
Proof.
  destruct (X1_Get_origin_error_fails_without_write_back test_key
              (cache_of [tier_absent 1]) context_TODO 1%nat (Some origin_single_fails) s0
              _ context_TODO 1%nat None (external_error 2) eq_refl) as (H1 & H2 & _).
  - vm_compute. right. left. reflexivity.
  - split; [exact H1|exact H2].
Defined.

(** A tier that fails, a tier that has nothing, a tier that has the value
    and a tier that is never reached. *)
Lemma X2_witness :
  (Get test_key (cache_of [tier_fails 1; tier_absent 2; tier_hit 3; tier_hit 4])
       context_TODO 1%nat None s0).1 = (Some entity7, None) /\
  (length (List.filter is_origin
     (trace (Get test_key (cache_of [tier_fails 1; tier_absent 2; tier_hit 3; tier_hit 4])
                 context_TODO 1%nat None s0).2)) <= 1)%nat.
Proof.
  destruct (X2_Get_hit_ends_lookup test_key
              (cache_of [tier_fails 1; tier_absent 2; tier_hit 3; tier_hit 4])
              context_TODO 1%nat None s0 _ eq_refl) as [Hone Hhit].
  split; [|exact Hone].
  apply (Hhit 3%nat context_TODO 1%nat 7 entity7).
  vm_compute. do 3 right. left. reflexivity.
Defined.

(** The first tier has key 1, the origin has the rest. *)
Lemma X3_witness :
  (MGet (cache_of [tier_only_key1 1]) context_TODO [1%nat; 2%nat] (Some origin_all) s0).1.1 =
    merge_answers ∅
      (omap answer_of
         (trace (MGet (cache_of [tier_only_key1 1]) context_TODO [1%nat; 2%nat]
                      (Some origin_all) s0).2)).
Proof.
  exact (proj1 (X3_MGet_result_is_merge_of_answers
                  (cache_of [tier_only_key1 1]) context_TODO [1%nat; 2%nat] (Some origin_all) s0
                  _ _ eq_refl eq_refl)).
Defined.

(** The first store is empty and the second has key 1: the second tier is
    asked both keys again, and the origin key 2. *)
Lemma X4_witness :
  trace (MGet (cache2 [tier_a; tier_b]) context_TODO [1%nat; 2%nat] (Some origin2_all)
              s_second_has_key1).2 =
    [EvMGet 1 context_TODO [1%nat; 2%nat] 7 ∅ [1%nat; 2%nat] None;
     EvMGet 2 context_TODO [1%nat; 2%nat] 7 (all_found [1%nat]) [2%nat] None;
     EvSource context_TODO [2%nat] (all_found [2%nat]) None]
  /\
  asks_chain [1%nat; 2%nat]
    (trace (MGet (cache2 [tier_a; tier_b]) context_TODO [1%nat; 2%nat] (Some origin2_all)
                 s_second_has_key1).2).
Proof.
  destruct (X4_MGet_asks_only_what_is_missing (cache2 [tier_a; tier_b]) context_TODO
              [1%nat; 2%nat] (Some origin2_all) s_second_has_key1)
    as (asked & rest & answers & q' & w1 & _ & _ & _ & _ & _ & _ & Hchain).
  split; [vm_compute; reflexivity|].
  apply Hchain. reflexivity.
Defined.

Lemma X5_witness :
  MGet (cache_of []) context_TODO [] None s0 = ((∅, None), s0) /\
  (MGet (cache_of []) context_TODO [1%nat] (Some origin_all) s0).1 =
    (all_found [1%nat], None).
Proof.
  destruct (X5_no_tiers_pass_through test_key (cache_of []) context_TODO s0 eq_refl)
    as (_ & HM & Hempty).
  split; [apply Hempty|].
  destruct (HM [1%nat] origin_all) as (Hres & _); [discriminate|exact Hres].
Defined.

(** A map-backed tier that starts empty; the second call has no origin
    function. *)
Lemma X6_witness :
  (Get test_key (Build (NewCacheBuilder 7 [map_tier test_key 1])) context_TODO 1%nat None
       (Get test_key (Build (NewCacheBuilder 7 [map_tier test_key 1])) context_TODO 1%nat
            (Some origin_single_entity7) (mkRT ∅ [] [])).2).1 = (Some entity7, None).
Proof.
  refine (proj1 (proj2 (X6_Get_read_through_then_hit test_key
              (Build (NewCacheBuilder 7 [map_tier test_key 1])) context_TODO 1%nat
              (map_tier test_key 1) origin_single_entity7 (mkRT ∅ [] [])
              entity7 ∅ ∅ {[ KeyOf (test_key 1) := Some entity7 ]}
              {[ KeyOf (test_key 1) := Some entity7 ]} None
              eq_refl _ eq_refl _ _) None)); vm_compute; reflexivity.
Defined.

(** ** More about the redis tier *)

Section RedisMore.
Context {T V : Type}.
Variable GetCacheModelVersion : T -> Z.
Variable Unmarshal : string -> error + T.
Variable is_redis_Nil : error -> bool.
Variable deref : nat -> Key V.

Local Abbreviation redis_Get :=
  (redis_tier.Get GetCacheModelVersion Unmarshal is_redis_Nil deref).
Local Abbreviation redis_MGet :=
  (provider_redis.MGet GetCacheModelVersion (decoded Unmarshal) deref).

(** X7. The single and the batch read of the redis tier over the same
    store contents, when no command fails: for every requested key, either
    the key is absent, [Get] returns (nil, nil) and [MGet] reports it
    missing; or its value does not decode, [Get] returns the decode error
    while [MGet] reports it missing; or its value decodes to another
    version, [Get] returns (nil, nil) and [MGet] leaves it out of both
    found and missing; or it decodes to the required version and both
    return the item. *)
Theorem X7_redis_Get_and_MGet_over_one_store
    (redis_Nil : error) (store : string -> option string)
    (csize : Z) (keys : list nat) (requiredModelVersion : Z) :
  is_redis_Nil redis_Nil = true ->
  0 < csize ->
  exists o,
    redis_MGet (provider_redis.mkRedisCache
                  (provider_redis.store_client store (fun _ => None)) csize)
               keys requiredModelVersion = Some o /\
    forall k, k ∈ keys ->
      let got := redis_Get (redis_tier.store_get redis_Nil store (fun _ => None))
                           k requiredModelVersion in
      (store (KeyOf (deref k)) = None /\
       got = (None, None) /\
       (k ∈ provider_redis.missingKeys_out o) /\ provider_redis.found o !! k = None)
      \/
      (exists b e,
         store (KeyOf (deref k)) = Some b /\ Unmarshal b = inl e /\
         got = (None, Some (errors_WithStack e)) /\
         (k ∈ provider_redis.missingKeys_out o) /\ provider_redis.found o !! k = None)
      \/
      (exists b item,
         store (KeyOf (deref k)) = Some b /\ Unmarshal b = inr item /\
         GetCacheModelVersion item <> requiredModelVersion /\
         got = (None, None) /\
         (k ∉ provider_redis.missingKeys_out o) /\ provider_redis.found o !! k = None)
      \/
      (exists b item,
         store (KeyOf (deref k)) = Some b /\ Unmarshal b = inr item /\
         GetCacheModelVersion item = requiredModelVersion /\
         got = (Some item, None) /\
         (k ∉ provider_redis.missingKeys_out o) /\
         provider_redis.found o !! k = Some (Some item)).
Proof.
  intros Hnil Hc.
  destruct (MGet_store_spec GetCacheModelVersion (decoded Unmarshal) deref store
              (fun _ => None) requiredModelVersion csize keys Hc)
    as (full & last & o & _ & Hcat & _ & _ & _ & Hrun & _ & _ & [Hm Hr]).
  rewrite all_chunks_ok, Hcat in Hm, Hr by reflexivity.
  exists o. split; [exact Hrun|]. intros k Hin got. subst got.
  unfold redis_tier.Get, redis_tier.store_get.
  assert (forall v, provider_redis.found o !! k = Some v ->
            exists item, v = Some item /\
              class_of GetCacheModelVersion (decoded Unmarshal) deref store
                       requiredModelVersion k = SlotFound item) as Hr'.
  { intros v Hv. apply Hr in Hv as (item & ? & _ & ?). eauto. }
  pose proof (Hm k) as Hmk. unfold class_of, decoded in Hmk, Hr'.
  pose proof (fun item => proj2 (Hr k (Some item))) as Hr2. unfold class_of, decoded in Hr2.
  destruct (store (KeyOf (deref k))) as [b|] eqn:Hs; simpl.
  - destruct (Unmarshal b) as [e|item] eqn:Hu.
    + right. left. exists b, e. repeat split; auto.
      * apply Hmk. auto.
      * destruct (provider_redis.found o !! k) as [v|] eqn:Hf; [|reflexivity].
        destruct (Hr' v eq_refl) as (? & _ & ?). discriminate.
    + destruct (GetCacheModelVersion item =? requiredModelVersion) eqn:Hv; simpl.
      * do 3 right. apply Z.eqb_eq in Hv. exists b, item. repeat split; auto.
        -- intros Hbad. apply Hmk in Hbad as [_ ?]. discriminate.
        -- apply Hr2. exists item. auto.
      * right. right. left. apply Z.eqb_neq in Hv. exists b, item. repeat split; auto.
        -- intros Hbad. apply Hmk in Hbad as [_ ?]. discriminate.
        -- destruct (provider_redis.found o !! k) as [v|] eqn:Hf; [|reflexivity].
           destruct (Hr' v eq_refl) as (? & _ & ?). discriminate.
  - left. rewrite Hnil. repeat split; auto.
    + apply Hmk. auto.
    + destruct (provider_redis.found o !! k) as [v|] eqn:Hf; [|reflexivity].
      destruct (Hr' v eq_refl) as (? & _ & ?). discriminate.
Qed.

Lemma chunkBy_loop_concat {A : Type} (fuel : nat) (items : list A) (csize : Z)
    (chunks cs : list (list A)) :
  chunkBy_loop fuel items csize chunks = Some cs -> concat cs = concat chunks ++ items.
Proof.
  revert items chunks. induction fuel as [|fuel IH]; intros items chunks; simpl.
  - destruct (csize <? Z.of_nat (length items)).
    + destruct (csize <? 0); discriminate.
    + intros [= <-]. rewrite concat_app. simpl. rewrite app_nil_r. reflexivity.
  - destruct (csize <? Z.of_nat (length items)).
    + destruct (csize <? 0); [discriminate|].
      intros H. apply IH in H. rewrite H, concat_app. simpl.
      rewrite app_nil_r, <- app_assoc, take_drop. reflexivity.
    + intros [= <-]. rewrite concat_app. simpl. rewrite app_nil_r. reflexivity.
Qed.

Local Abbreviation sound_answer := (sound_batch GetCacheModelVersion).

Lemma classify_sound (slot : nat -> option nat) (req : Z) (P : nat -> Prop)
    (vals : list (option string)) :
  (forall i k, slot i = Some k -> P k) ->
  forall i missing results m' r',
    provider_redis.classify GetCacheModelVersion (decoded Unmarshal) slot req
      i vals missing results = Some (m', r') ->
    sound_answer req P missing results -> sound_answer req P m' r'.
Proof.
  intros Hslot. induction vals as [|v vals IH]; intros i missing results m' r'; simpl.
  - intros [= <- <-]. auto.
  - assert (forall k, P k -> sound_answer req P missing results ->
                      sound_answer req P (missing ++ [k]) results) as Hmiss.
    { intros k Hk [Hm Hr]. split; [|exact Hr].
      intros k'. rewrite elem_of_app, list_elem_of_singleton. intros [?| ->]; auto. }
    destruct v as [toUnpack|].
    + destruct (decoded Unmarshal toUnpack) as [item|] eqn:Hd.
      * destruct (GetCacheModelVersion item =? req) eqn:Hv; simpl.
        -- destruct (slot i) as [k|] eqn:Hk; simpl; [|discriminate].
           intros Hrun [Hm Hr]. eapply IH; [exact Hrun|]. split; [exact Hm|].
           intros k' v'. destruct (decide (k' = k)) as [->|Hne].
           ++ rewrite lookup_insert_eq. intros [= <-]. split; [eauto|].
              exists item. split; [reflexivity|]. apply Z.eqb_eq. exact Hv.
           ++ rewrite lookup_insert_ne by auto. apply Hr.
        -- intros Hrun Hs. eapply IH; eauto.
      * destruct (slot i) as [k|] eqn:Hk; simpl; [|discriminate].
        intros Hrun Hs. eapply IH; [exact Hrun|]. eauto.
    + destruct (slot i) as [k|] eqn:Hk; simpl; [|discriminate].
      intros Hrun Hs. eapply IH; [exact Hrun|]. eauto.
Qed.

Lemma collect_sound (req : Z) (P : nat -> Prop)
    (resps : list (@provider_redis.redisChunkResponse T)) missing results :
  Forall (fun resp => sound_answer req P (provider_redis.Missing resp)
                                   (provider_redis.Results resp)) resps ->
  sound_answer req P missing results ->
  sound_answer req P (provider_redis.collect resps missing results).1
                     (provider_redis.collect resps missing results).2.
Proof.
  intros Hall. revert missing results.
  induction Hall as [|resp resps [Hm1 Hr1] _ IH]; intros missing results [Hm Hr]; simpl.
  - split; auto.
  - destruct (provider_redis.Error resp); [apply IH; split; auto|].
    apply IH. split.
    + destruct (0 <? Z.of_nat (length (provider_redis.Missing resp))); [|exact Hm].
      intros k. rewrite elem_of_app. intros [?|?]; auto.
    + intros k v. rewrite assign_all_union, lookup_union_Some_raw.
      intros [?|[_ ?]]; auto.
Qed.

Lemma sound_answer_nil (req : Z) (P : nat -> Prop) : sound_answer req P [] ∅.
Proof.
  split.
  - intros k Hk. inversion Hk.
  - intros k v. rewrite lookup_empty. discriminate.
Qed.

Lemma fetch_chunk_sound (r : provider_redis.RedisCache) (req : Z) (P : nat -> Prop)
    (chunk : list nat) resp :
  (forall k, k ∈ chunk -> P k) ->
  provider_redis.fetch_chunk GetCacheModelVersion (decoded Unmarshal) deref r req chunk
    = Some resp ->
  sound_answer req P (provider_redis.Missing resp) (provider_redis.Results resp).
Proof.
  intros Hsub. unfold provider_redis.fetch_chunk.
  destruct (cmd_Err _).
  - intros [= <-]. simpl. apply sound_answer_nil.
  - destruct (provider_redis.classify _ _ _ _ _ _ _ _) as [[m r']|] eqn:Hcl; simpl;
      [|discriminate].
    intros [= <-]. simpl.
    eapply classify_sound; [|exact Hcl|apply sound_answer_nil].
    intros i k Hk. apply Hsub. eapply list_elem_of_lookup_2. exact Hk.
Qed.

(** X8. Whatever the redis client replies, a read of the redis tier only
    ever hands out items of the required version: [Get] never returns a
    value together with an error, and a value it returns has the required
    version; and when [MGet] returns, its error is nil, every entry of its
    found map is a non-nil item of the required version under a requested
    key, and every key it reports missing is a requested key. *)
Theorem X8_redis_reads_hand_out_required_version_only :
  (forall (client_Get : string -> StringCmd) key req item err,
     redis_Get client_Get key req = (Some item, err) ->
     err = None /\ GetCacheModelVersion item = req)
  /\
  (forall (r : provider_redis.RedisCache) keys req o,
     redis_MGet r keys req = Some o ->
     provider_redis.err_out o = None /\
     (forall k v, provider_redis.found o !! k = Some v ->
        k ∈ keys /\ exists item, v = Some item /\ GetCacheModelVersion item = req) /\
     (forall k, k ∈ provider_redis.missingKeys_out o -> k ∈ keys)).
Proof.
  split.
  - intros client_Get key req item err. unfold redis_tier.Get.
    destruct (str_Err _) as [e|].
    + destruct (is_redis_Nil e); discriminate.
    + destruct (str_Bytes _) as [bts [e|]]; [discriminate|].
      destruct (Unmarshal bts) as [e|item']; [discriminate|].
      destruct (GetCacheModelVersion item' =? req) eqn:Hv; simpl; [|discriminate].
      intros [= -> <-]. split; [reflexivity|]. apply Z.eqb_eq. exact Hv.
  - intros r keys req o. unfold provider_redis.MGet.
    destruct (chunkBy keys (provider_redis.chunkSize r)) as [chunks|] eqn:Hch; simpl;
      [|discriminate].
    destruct (mapM _ chunks) as [resps|] eqn:Hmap; simpl; [|discriminate].
    apply chunkBy_loop_concat in Hch. simpl in Hch.
    assert (Forall (fun resp => sound_answer req (fun k => k ∈ keys)
                      (provider_redis.Missing resp) (provider_redis.Results resp)) resps)
      as Hall.
    { apply mapM_Some_1 in Hmap.
      assert (forall ch, ch ∈ chunks -> forall k, k ∈ ch -> k ∈ keys) as Hsub.
      { intros ch Hin k Hk. rewrite <- Hch.
        apply list_elem_of_In, in_concat. exists ch.
        split; apply list_elem_of_In; assumption. }
      clear Hch. induction Hmap as [|ch resp chunks resps Hf _ IH]; constructor.
      - eapply fetch_chunk_sound; [|exact Hf]. apply Hsub. left.
      - apply IH. intros ch' Hin. apply Hsub. right. exact Hin. }
    pose proof (collect_sound req _ resps [] ∅ Hall (sound_answer_nil _ _)) as [Hm Hr].
    destruct (provider_redis.collect resps [] ∅) as [missing results].
    intros [= <-]. simpl in *. auto.
Qed.

Lemma classify_missing_exact (store : string -> option string) (req : Z)
    (chCopy pre suf : list nat) missing results m' r' :
  chCopy = pre ++ suf ->
  provider_redis.classify GetCacheModelVersion (decoded Unmarshal) (fun i => chCopy !! i)
    req (length pre) (map store (map (fun v => KeyOf (deref v)) suf)) missing results
    = Some (m', r') ->
  m' = missing ++ List.filter (absent_or_undecodable Unmarshal deref store) suf.
Proof.
  revert pre missing results. induction suf as [|k suf IH]; intros pre missing results Hch.
  - simpl. intros [= <- <-]. rewrite app_nil_r. reflexivity.
  - assert (chCopy !! length pre = Some k) as Hslot
      by (rewrite Hch; apply list_lookup_middle; reflexivity).
    assert (chCopy = (pre ++ [k]) ++ suf) as Hch'
      by (rewrite <- app_assoc; exact Hch).
    assert (length (pre ++ [k]) = S (length pre)) as Hlen
      by (rewrite length_app; simpl; lia).
    simpl. rewrite <- Hlen. unfold absent_or_undecodable at 1, decoded.
    destruct (store (KeyOf (deref k))) as [b|].
    + destruct (Unmarshal b) as [e|item].
      * rewrite Hslot. simpl. intros H. apply (IH _ _ _ Hch') in H.
        rewrite H, <- app_assoc. reflexivity.
      * destruct (GetCacheModelVersion item =? req); simpl.
        -- rewrite Hslot. simpl. apply IH. exact Hch'.
        -- apply IH. exact Hch'.
    + rewrite Hslot. simpl. intros H. apply (IH _ _ _ Hch') in H.
      rewrite H, <- app_assoc. reflexivity.
Qed.

Lemma collect_missing_exact (store : string -> option string)
    (fails : list string -> option error)
    (chunks : list (list nat)) (resps : list (@provider_redis.redisChunkResponse T))
    missing results :
  Forall2 (fun ch resp =>
             if chunk_ok deref fails ch
             then provider_redis.Error resp = None /\
                  provider_redis.Missing resp =
                    List.filter (absent_or_undecodable Unmarshal deref store) ch
             else provider_redis.Error resp <> None) chunks resps ->
  (provider_redis.collect resps missing results).1 =
    missing ++ List.filter (absent_or_undecodable Unmarshal deref store)
                 (concat (List.filter (chunk_ok deref fails) chunks)).
Proof.
  intros Hall. revert missing results.
  induction Hall as [|ch resp chunks resps Hok _ IH]; intros missing results; simpl.
  - rewrite app_nil_r. reflexivity.
  - destruct (chunk_ok deref fails ch).
    + destruct Hok as [-> Hmiss]. rewrite IH. simpl.
      rewrite List.filter_app, app_assoc, <- Hmiss.
      destruct (provider_redis.Missing resp) as [|m ms]; simpl.
      * rewrite app_nil_r. reflexivity.
      * replace (0 <? Z.pos (Pos.of_succ_nat (length ms))) with true
          by (symmetry; apply Z.ltb_lt; lia). reflexivity.
    + destruct (provider_redis.Error resp); [|congruence]. apply IH.
Qed.

(** X9. Over fixed store contents and for a positive chunk size, the
    missing list of the redis [MGet] is the list of the requested keys that
    are absent or undecodable, among the chunks whose command did not fail,
    in the order of the request and as often as they were requested; it
    does not depend on the required version.  When no command fails it is
    the request filtered. *)
Theorem X9_redis_MGet_missing_keeps_request_order
    (store : string -> option string) (fails : list string -> option error)
    (csize : Z) (keys : list nat) (requiredModelVersion : Z) :
  0 < csize ->
  exists chunks o,
    chunkBy keys csize = Some chunks /\
    redis_MGet (provider_redis.mkRedisCache (provider_redis.store_client store fails) csize)
               keys requiredModelVersion = Some o /\
    provider_redis.missingKeys_out o =
      List.filter (absent_or_undecodable Unmarshal deref store)
        (concat (List.filter (chunk_ok deref fails) chunks)) /\
    ((forall ks, fails ks = None) ->
     provider_redis.missingKeys_out o =
       List.filter (absent_or_undecodable Unmarshal deref store) keys).
Proof.
  intros Hc.
  destruct (MGet_store_spec GetCacheModelVersion (decoded Unmarshal) deref store
              fails requiredModelVersion csize keys Hc)
    as (full & last & o & Hch & Hcat & _ & _ & _ & Hrun & _).
  exists (full ++ [last]), o. split; [exact Hch|]. split; [exact Hrun|].
  assert (provider_redis.missingKeys_out o =
          List.filter (absent_or_undecodable Unmarshal deref store)
            (concat (List.filter (chunk_ok deref fails) (full ++ [last])))) as Hmiss.
  { revert Hrun. unfold provider_redis.MGet. simpl. rewrite Hch. simpl.
    destruct (mapM _ (full ++ [last])) as [resps|] eqn:Hmap; simpl; [|discriminate].
    apply mapM_Some_1 in Hmap.
    pose proof (collect_missing_exact store fails (full ++ [last]) resps [] ∅) as Hcol.
    destruct (provider_redis.collect resps [] ∅) as [missing results].
    intros [= <-]. simpl. apply Hcol. clear Hcol.
    eapply Forall2_impl; [exact Hmap|].
    intros ch resp. unfold provider_redis.fetch_chunk, provider_redis.store_client, chunk_ok.
    simpl. destruct (fails (map (fun v => KeyOf (deref v)) ch)); simpl.
    - intros [= <-]. simpl. discriminate.
    - destruct (provider_redis.classify _ _ _ _ _ _ _ _) as [[m r']|] eqn:Hcl; simpl;
        [|discriminate].
      intros [= <-]. simpl. split; [reflexivity|].
      apply (classify_missing_exact store requiredModelVersion ch [] ch [] ∅ m r' eq_refl Hcl). }
  split; [exact Hmiss|].
  intros Hno. rewrite Hmiss, all_chunks_ok, Hcat by exact Hno. reflexivity.
Qed.

(** X10. An empty request still makes one batch command, with no keys:
    for a chunk size that is not negative, [chunkBy] of the empty list is
    one empty chunk, and when that command fails or returns no slot, [MGet]
    of both providers returns an empty found map, no missing key and a nil
    error. *)
Theorem X10_redis_MGet_of_no_keys_sends_one_empty_command
    (r : provider_redis.RedisCache) (requiredModelVersion : Z) :
  0 <= provider_redis.chunkSize r ->
  cmd_Err (provider_redis.client_MGet r []) <> None \/
    cmd_Val (provider_redis.client_MGet r []) = [] ->
  chunkBy (@nil nat) (provider_redis.chunkSize r) = Some [[]] /\
  redis_MGet r [] requiredModelVersion =
    Some (provider_redis.mkOutcome ∅ [] None [[]]) /\
  provider_redis.MGet_v8 GetCacheModelVersion (decoded Unmarshal) deref r []
    requiredModelVersion = Some (provider_redis.mkOutcome ∅ [] None [[]]).
Proof.
  intros Hc Hreply.
  assert (forall A : Type, chunkBy (@nil A) (provider_redis.chunkSize r) = Some [[]]) as Hch.
  { intros A. unfold chunkBy. simpl. change (Z.of_nat 0) with 0.
    replace (provider_redis.chunkSize r <? 0) with false
      by (symmetry; apply Z.ltb_ge; lia). reflexivity. }
  split; [apply Hch|].
  unfold provider_redis.MGet, provider_redis.MGet_v8. simpl. rewrite !Hch. simpl.
  unfold provider_redis.fetch_chunk, provider_redis.fetch_chunk_v8. simpl.
  destruct (cmd_Err (provider_redis.client_MGet r [])) as [e|] eqn:He; simpl.
  - split; reflexivity.
  - destruct Hreply as [Hbad|Hval]; [congruence|]. rewrite Hval. simpl.
    unfold assign_all. rewrite map_fold_empty. split; reflexivity.
Qed.

(** X11. [chunkBy] does not return for a chunk size that is not positive,
    except on the empty list with chunk size 0: a negative size makes the
    slice expression panic, and with size 0 the loop over a non-empty list
    never ends, whatever fuel it is given; so the redis [MGet] of such a
    tier returns nothing. *)
Theorem X11_chunkBy_needs_positive_chunk_size :
  (forall (A : Type) (fuel : nat) (items : list A) (csize : Z) (chunks : list (list A)),
     csize < 0 -> chunkBy_loop fuel items csize chunks = None) /\
  (forall (A : Type) (fuel : nat) (items : list A) (chunks : list (list A)),
     items <> [] -> chunkBy_loop fuel items 0 chunks = None) /\
  (forall (r : provider_redis.RedisCache) keys req,
     provider_redis.chunkSize r < 0 \/ (provider_redis.chunkSize r = 0 /\ keys <> []) ->
     redis_MGet r keys req = None).
Proof.
  assert (forall (A : Type) (fuel : nat) (items : list A) (csize : Z) (chunks : list (list A)),
            csize < 0 -> chunkBy_loop fuel items csize chunks = None) as Hneg.
  { intros A fuel items csize chunks Hc.
    destruct fuel; simpl;
      (replace (csize <? Z.of_nat (length items)) with true
         by (symmetry; apply Z.ltb_lt; lia));
      (replace (csize <? 0) with true by (symmetry; apply Z.ltb_lt; lia)); reflexivity. }
  assert (forall (A : Type) (fuel : nat) (items : list A) (chunks : list (list A)),
            items <> [] -> chunkBy_loop fuel items 0 chunks = None) as Hzero.
  { intros A fuel items. induction fuel as [|fuel IH]; intros chunks Hne.
    - simpl. destruct items; [congruence|]. reflexivity.
    - simpl. destruct items as [|a items]; [congruence|].
      cbn [length]. replace (0 <? Z.of_nat (S (length items))) with true
        by (symmetry; apply Z.ltb_lt; lia).
      simpl. apply IH. exact Hne. }
  split; [exact Hneg|]. split; [exact Hzero|].
  intros r keys req Hbad. unfold provider_redis.MGet, chunkBy.
  destruct Hbad as [Hlt|[Hz Hne]].
  - rewrite Hneg by exact Hlt. reflexivity.
  - rewrite Hz, Hzero by exact Hne. reflexivity.
Qed.

End RedisMore.

(** ** The writes of the redis tier *)

Section RedisWrites.
Context {T V S : Type}.
Variable Marshal : option T -> error + string.

Lemma MSet_queue_spec (order : list (string * option T)) (ttl : Z)
    (pipe : list RedisCommand) (logged : list error) :
  redis_tier.MSet_queue Marshal order ttl pipe logged =
    (pipe ++ omap (queued_set Marshal ttl) order,
     logged ++ omap (marshal_error Marshal) order).
Proof.
  revert pipe logged. induction order as [|[k v] order IH]; intros pipe logged; simpl.
  - rewrite !app_nil_r. reflexivity.
  - unfold queued_set at 1, marshal_error at 1. simpl.
    destruct (Marshal v) as [e|b]; rewrite IH, <- app_assoc; reflexivity.
Qed.

Lemma queued_or_logged (order : list (string * option T)) (ttl : Z) :
  (length (omap (queued_set Marshal ttl) order) +
   length (omap (marshal_error Marshal) order))%nat = length order.
Proof.
  unfold omap. induction order as [|[k v] order IH]; simpl; [reflexivity|].
  unfold queued_set at 1, marshal_error at 1. simpl.
  destruct (Marshal v); simpl; lia.
Qed.

Lemma In_queued (order : list (string * option T)) (ttl : Z) k b t :
  In (CmdTxSet k b t) (omap (queued_set Marshal ttl) order) <->
  t = ttl /\ exists v, In (k, v) order /\ Marshal v = inr b.
Proof.
  induction order as [|[k' v'] order IH]; simpl.
  - split; [intros []|intros (_ & ? & [] & _)].
  - unfold queued_set at 1. simpl. destruct (Marshal v') as [e|b'] eqn:Hm; simpl.
    + rewrite IH. split.
      * intros (-> & v & Hin & Hv). split; [reflexivity|]. exists v. auto.
      * intros (-> & v & [Heq|Hin] & Hv).
        -- injection Heq as -> ->. congruence.
        -- split; [reflexivity|]. exists v. auto.
    + rewrite IH. split.
      * intros [Heq|(-> & v & Hin & Hv)].
        -- injection Heq as -> -> ->. split; [reflexivity|]. exists v'. auto.
        -- split; [reflexivity|]. exists v. auto.
      * intros (-> & v & [Heq|Hin] & Hv).
        -- injection Heq as -> ->. left. congruence.
        -- right. split; [reflexivity|]. exists v. auto.
Qed.

(** The transaction as a set: what is in it, and no key with two values. *)
Lemma queued_sets_of_map (values : gmap string (option T))
    (order : list (string * option T)) (ttl : Z) :
  order ≡ₚ map_to_list values ->
  (forall k b t,
     In (CmdTxSet k b t) (omap (queued_set Marshal ttl) order) <->
     t = ttl /\ exists v, values !! k = Some v /\ Marshal v = inr b) /\
  (forall k b b' t t',
     In (CmdTxSet k b t) (omap (queued_set Marshal ttl) order) ->
     In (CmdTxSet k b' t') (omap (queued_set Marshal ttl) order) -> b = b').
Proof.
  intros Hperm.
  assert (forall k v, In (k, v) order <-> values !! k = Some v) as Hin.
  { intros k v. rewrite <- list_elem_of_In, Hperm. apply elem_of_map_to_list. }
  assert (forall k b t,
            In (CmdTxSet k b t) (omap (queued_set Marshal ttl) order) <->
            t = ttl /\ exists v, values !! k = Some v /\ Marshal v = inr b) as Hmem.
  { intros k b t. rewrite In_queued. split; intros (-> & v & Hv & Hm);
      (split; [reflexivity|]); exists v; split; auto; apply Hin; exact Hv. }
  split; [exact Hmem|].
  intros k b b' t t' H1 H2.
  apply Hmem in H1 as (_ & v & Hv & Hm). apply Hmem in H2 as (_ & v' & Hv' & Hm').
  congruence.
Qed.

(** X12. [MSet] of provider_redis.go, for every order in which the loop
    may visit the map: the transaction holds exactly one [Set], with the
    given TTL, for each entry whose value marshals, and no key twice; an
    entry that does not marshal is logged and left out; and the error
    returned is the error of the transaction, so marshal failures never
    fail the call. *)
Theorem X12_redis_MSet_sends_what_marshals
    (TxPipelined : list RedisCommand -> S -> option error * S)
    (values : gmap string (option T)) (order : list (string * option T))
    (ttl : Z) (st : S) :
  order ≡ₚ map_to_list values ->
  let out := redis_tier.MSet Marshal TxPipelined order ttl st in
  (out.1.1.1, out.2) = TxPipelined out.1.1.2 st /\
  (forall k b t,
     In (CmdTxSet k b t) out.1.1.2 <->
     t = ttl /\ exists v, values !! k = Some v /\ Marshal v = inr b) /\
  (forall cmd, In cmd out.1.1.2 -> exists k b, cmd = CmdTxSet k b ttl) /\
  (forall k b b' t t',
     In (CmdTxSet k b t) out.1.1.2 -> In (CmdTxSet k b' t') out.1.1.2 -> b = b') /\
  (length out.1.1.2 + length out.1.2)%nat = size values.
Proof.
  intros Hperm out. subst out. unfold redis_tier.MSet.
  rewrite MSet_queue_spec. simpl.
  destruct (TxPipelined (omap (queued_set Marshal ttl) order) st) as [err st'] eqn:Htx.
  simpl.
  assert (forall k v, In (k, v) order <-> values !! k = Some v) as Hin.
  { intros k v. rewrite <- list_elem_of_In, Hperm. apply elem_of_map_to_list. }
  assert (forall k b t,
            In (CmdTxSet k b t) (omap (queued_set Marshal ttl) order) <->
            t = ttl /\ exists v, values !! k = Some v /\ Marshal v = inr b) as Hmem.
  { intros k b t. rewrite In_queued. split; intros (-> & v & Hv & Hm);
      (split; [reflexivity|]); exists v; split; auto; apply Hin; exact Hv. }
  split; [symmetry; exact Htx|]. split; [exact Hmem|]. split; [|split].
  - intros cmd Hcmd. apply list_elem_of_In, list_elem_of_omap in Hcmd as ([k v] & _ & Hq).
    unfold queued_set in Hq. simpl in Hq. destruct (Marshal v) as [e|b]; [discriminate|].
    injection Hq as <-. eauto.
  - intros k b b' t t' H1 H2.
    apply Hmem in H1 as (_ & v & Hv & Hm). apply Hmem in H2 as (_ & v' & Hv' & Hm').
    congruence.
  - rewrite queued_or_logged, Hperm, length_map_to_list. reflexivity.
Qed.

Lemma MSet_v8_collect_spec (order : list (string * option T))
    (fs : list error) (finalArr : list string) :
  redis_tier.MSet_v8_collect Marshal order (aggregate fs) finalArr =
    (aggregate (fs ++ map errors_WithStack (omap (marshal_error Marshal) order)),
     finalArr ++ flat_map (final_pair Marshal) order).
Proof.
  revert fs finalArr. induction order as [|[k v] order IH]; intros fs finalArr; simpl.
  - rewrite !app_nil_r. reflexivity.
  - unfold marshal_error at 1, final_pair at 1. simpl.
    destruct (Marshal v) as [e|b]; simpl.
    + rewrite multierror_Append_aggregate, IH, <- app_assoc. reflexivity.
    + rewrite IH, <- app_assoc. reflexivity.
Qed.

Lemma nothing_marshals (order : list (string * option T)) :
  (forall k v, In (k, v) order -> exists e, Marshal v = inl e) ->
  flat_map (final_pair Marshal) order = [] /\
  length (omap (marshal_error Marshal) order) = length order.
Proof.
  unfold omap. induction order as [|[k v] order IH]; intros Hall; simpl; [auto|].
  destruct (Hall k v) as [e He]; [left; reflexivity|].
  unfold final_pair at 1, marshal_error at 1. simpl. rewrite He. simpl.
  destruct IH as [-> ->]; [|auto]. intros k' v' Hin. apply (Hall k' v'). right. exact Hin.
Qed.

Lemma something_marshals (order : list (string * option T)) k v b :
  In (k, v) order -> Marshal v = inr b -> flat_map (final_pair Marshal) order <> [].
Proof.
  induction order as [|[k' v'] order IH]; simpl; [intros []|].
  intros [Heq|Hin] Hm.
  - injection Heq as -> ->. unfold final_pair. simpl. rewrite Hm. discriminate.
  - intros Hnil. apply app_eq_nil in Hnil as [_ Hnil]. exact (IH Hin Hm Hnil).
Qed.

Lemma MSet_v8_expire_spec
    (client_Expire : Context -> string -> Z -> S -> option error * S)
    (keys : list string) (ttl : Z) (sent : list RedisCommand) (logged : list error) (st : S) :
  (redis_tier.MSet_v8_expire client_Expire keys ttl sent logged st).1.1 =
    sent ++ map (fun k => CmdExpire context_Background k ttl) keys.
Proof.
  revert sent logged st. induction keys as [|k keys IH]; intros sent logged st; simpl.
  - rewrite app_nil_r. reflexivity.
  - destruct (client_Expire context_Background k ttl st) as [err st'].
    rewrite IH, <- app_assoc. reflexivity.
Qed.

(** X13. The older [MSet] when there is nothing it can write, for every
    order of its loop: it sends no command and leaves the server as it is;
    for an empty map it returns nil, because wrapping a nil error gives
    nil; and when the map has entries and none of them marshals it returns
    the marshal errors wrapped with "no items to continue". *)
Theorem X13_older_MSet_with_nothing_to_write
    (client_MSet : Context -> list string -> S -> option error * S)
    (client_Expire : Context -> string -> Z -> S -> option error * S)
    (ctx : Context) (values : gmap string (option T))
    (order order2 : list (string * option T)) (ttl : Z) (st : S) :
  order ≡ₚ map_to_list values ->
  (forall k v, values !! k = Some v -> exists e, Marshal v = inl e) ->
  redis_tier.MSet_v8 Marshal client_MSet client_Expire ctx order order2 ttl st =
    ((errors_Wrap_nilable
        (aggregate (map errors_WithStack (omap (marshal_error Marshal) order)))
        "no items to continue", [], []), st) /\
  (values = ∅ ->
   redis_tier.MSet_v8 Marshal client_MSet client_Expire ctx order order2 ttl st =
     ((None, [], []), st)) /\
  (values <> ∅ ->
   exists e,
     (redis_tier.MSet_v8 Marshal client_MSet client_Expire ctx order order2 ttl st).1.1.1 =
       Some (errors_Wrap e "no items to continue")).
Proof.
  intros Hperm Hall.
  assert (forall k v, In (k, v) order -> exists e, Marshal v = inl e) as Hall'.
  { intros k v Hin. apply (Hall k). apply elem_of_map_to_list.
    rewrite <- Hperm. apply list_elem_of_In. exact Hin. }
  destruct (nothing_marshals order Hall') as [Hnil Hlen].
  assert (redis_tier.MSet_v8 Marshal client_MSet client_Expire ctx order order2 ttl st =
          ((errors_Wrap_nilable
              (aggregate (map errors_WithStack (omap (marshal_error Marshal) order)))
              "no items to continue", [], []), st)) as Hrun.
  { unfold redis_tier.MSet_v8.
    change (@None error) with (aggregate []).
    rewrite MSet_v8_collect_spec, Hnil. simpl. reflexivity. }
  split; [exact Hrun|]. split.
  - intros ->. rewrite Hrun. rewrite map_to_list_empty in Hperm.
    apply Permutation_nil_r in Hperm. subst order. reflexivity.
  - intros Hne. rewrite Hrun. simpl.
    destruct (omap (marshal_error Marshal) order) as [|e es] eqn:Hom.
    + exfalso. apply Hne. apply map_to_list_empty_iff.
      simpl in Hlen. destruct order; [|discriminate].
      apply Permutation_nil_l in Hperm. symmetry. exact Hperm.
    + simpl. eauto.
Qed.

(** X14. The older [MSet] when at least one value marshals, for every
    order of its two loops: entries that do not marshal are dropped without
    any error; one [MSet] command carries the keys and bytes of the others;
    if that command fails its error is returned and no expiry is set; if it
    succeeds the call returns nil after one [Expire], under
    [context.Background()] and with the given TTL, for every key of the map,
    also for the keys that were not written, whatever these return. *)
Theorem X14_older_MSet_writes_then_expires_every_key
    (client_MSet : Context -> list string -> S -> option error * S)
    (client_Expire : Context -> string -> Z -> S -> option error * S)
    (ctx : Context) (values : gmap string (option T))
    (order order2 : list (string * option T)) (ttl : Z) (st : S)
    (k0 : string) (v0 : option T) (b0 : string) :
  order ≡ₚ map_to_list values ->
  order2 ≡ₚ map_to_list values ->
  values !! k0 = Some v0 -> Marshal v0 = inr b0 ->
  let out := redis_tier.MSet_v8 Marshal client_MSet client_Expire ctx order order2 ttl st in
  let finalArr := flat_map (final_pair Marshal) order in
  (forall e, (client_MSet ctx finalArr st).1 = Some e ->
     out = ((Some (errors_WithStack e), [CmdMSet ctx finalArr], [e]),
            (client_MSet ctx finalArr st).2))
  /\
  ((client_MSet ctx finalArr st).1 = None ->
   out.1.1.1 = None /\
   out.1.1.2 =
     CmdMSet ctx finalArr :: map (fun k => CmdExpire context_Background k ttl) (map fst order2) /\
   (forall k, In (CmdExpire context_Background k ttl) out.1.1.2 <-> is_Some (values !! k))).
Proof.
  intros Hperm Hperm2 Hv0 Hm0 out finalArr. subst out finalArr.
  assert (In (k0, v0) order) as Hin0.
  { apply list_elem_of_In. rewrite Hperm. apply elem_of_map_to_list. exact Hv0. }
  pose proof (something_marshals order k0 v0 b0 Hin0 Hm0) as Hne.
  unfold redis_tier.MSet_v8.
  change (@None error) with (aggregate []).
  rewrite MSet_v8_collect_spec. simpl.
  destruct (flat_map (final_pair Marshal) order) as [|a arr] eqn:Harr; [congruence|].
  cbn [length].
  replace (Z.of_nat (Datatypes.S (length arr)) =? 0) with false by (symmetry; apply Z.eqb_neq; lia).
  destruct (client_MSet ctx (a :: arr) st) as [[e|] st1]; simpl.
  - split; [|discriminate]. intros e' [= <-]. reflexivity.
  - split; [discriminate|]. intros _.
    pose proof (MSet_v8_expire_spec client_Expire (map fst order2) ttl
                  [CmdMSet ctx (a :: arr)] [] st1) as Hsent.
    destruct (redis_tier.MSet_v8_expire _ _ _ _ _ _) as [[sent logged] st2].
    simpl in *. subst sent. split; [reflexivity|]. split; [reflexivity|].
    intros k. split.
    + intros [Hbad|Hin]; [discriminate|].
      apply in_map_iff in Hin as (k' & [= ->] & Hin).
      apply in_map_iff in Hin as ([k'' v] & Hk & Hin). simpl in Hk. subst k''.
      exists v. apply elem_of_map_to_list. rewrite <- Hperm2.
      apply list_elem_of_In. exact Hin.
    + intros [v Hv]. right. apply in_map_iff. exists k. split; [reflexivity|].
      apply in_map_iff. exists (k, v). split; [reflexivity|].
      apply list_elem_of_In. rewrite Hperm2. apply elem_of_map_to_list. exact Hv.
Qed.

End RedisWrites.

Section RedisRoundTrip.
Context {T V : Type}.
Variable GetCacheModelVersion : T -> Z.
Variable Unmarshal : string -> error + T.
Variable Marshal : option T -> error + string.
Variable is_redis_Nil : error -> bool.
Variable deref : nat -> Key V.

Lemma server_apply_sets (k b : string) (pipe : list RedisCommand) (st : gmap string string) :
  (forall b' t, In (CmdTxSet k b' t) pipe -> b' = b) ->
  (exists t, In (CmdTxSet k b t) pipe) ->
  foldl server_apply st pipe !! k = Some b.
Proof.
  induction pipe as [|c pipe IH] using rev_ind; intros Hall [t Hin]; [destruct Hin|].
  rewrite foldl_app. simpl.
  assert (forall b' t', In (CmdTxSet k b' t') pipe -> b' = b) as Hall'.
  { intros b' t' H. apply (Hall b' t'). apply in_or_app. left. exact H. }
  destruct c as [k' b' t'| |]; simpl.
  - destruct (decide (k' = k)) as [->|Hne].
    + rewrite lookup_insert_eq. f_equal. apply (Hall b' t').
      apply in_or_app. right. left. reflexivity.
    + rewrite lookup_insert_ne by exact Hne. apply IH; [exact Hall'|].
      apply in_app_or in Hin as [Hin|[Heq|[]]]; [eauto|]. congruence.
  - apply IH; [exact Hall'|]. apply in_app_or in Hin as [Hin|[Heq|[]]]; [eauto|discriminate].
  - apply IH; [exact Hall'|]. apply in_app_or in Hin as [Hin|[Heq|[]]]; [eauto|discriminate].
Qed.

Lemma server_apply_other (k : string) (pipe : list RedisCommand) (st : gmap string string) :
  (forall b t, ~ In (CmdTxSet k b t) pipe) ->
  foldl server_apply st pipe !! k = st !! k.
Proof.
  induction pipe as [|c pipe IH] using rev_ind; intros Hno; [reflexivity|].
  rewrite foldl_app. simpl.
  assert (forall b t, ~ In (CmdTxSet k b t) pipe) as Hno'.
  { intros b t H. apply (Hno b t). apply in_or_app. left. exact H. }
  destruct c as [k' b' t'| |]; simpl; [|apply IH; exact Hno'|apply IH; exact Hno'].
  destruct (decide (k' = k)) as [->|Hne].
  - exfalso. apply (Hno b' t'). apply in_or_app. right. left. reflexivity.
  - rewrite lookup_insert_ne by exact Hne. apply IH. exact Hno'.
Qed.

(** X15. Write then read on a redis server that applies the transaction:
    after [MSet] of provider_redis.go, for every order of its loop, [Get]
    of a key whose entry holds an item that marshals, and that the codec
    reads back, returns that item when the required version is the item's
    version, and (nil, nil) for any other required version; a key that is
    not in the map, or whose value did not marshal, keeps what the server
    had. *)
Theorem X15_redis_MSet_then_Get
    (redis_Nil : error) (values : gmap string (option T))
    (order : list (string * option T)) (ttl : Z) (st : gmap string string)
    (key : nat) (item : T) (b : string) :
  order ≡ₚ map_to_list values ->
  values !! KeyOf (deref key) = Some (Some item) ->
  Marshal (Some item) = inr b ->
  Unmarshal b = inr item ->
  let out := redis_tier.MSet Marshal server_TxPipelined order ttl st in
  out.1.1.1 = None /\
  redis_tier.Get GetCacheModelVersion Unmarshal is_redis_Nil deref
    (server_Get redis_Nil out.2) key (GetCacheModelVersion item) = (Some item, None) /\
  (forall req, req <> GetCacheModelVersion item ->
     redis_tier.Get GetCacheModelVersion Unmarshal is_redis_Nil deref
       (server_Get redis_Nil out.2) key req = (None, None)) /\
  (forall k, (forall v b', values !! k = Some v -> Marshal v <> inr b') ->
     out.2 !! k = st !! k).
Proof.
  intros Hperm Hv Hm Hu out.
  destruct (queued_sets_of_map Marshal values order ttl Hperm) as [Hmem Huniq].
  subst out. unfold redis_tier.MSet. rewrite MSet_queue_spec. simpl.
  assert (foldl server_apply st (omap (queued_set Marshal ttl) order)
            !! KeyOf (deref key) = Some b) as Hst.
  { apply server_apply_sets.
    - intros b' t Hin. apply Hmem in Hin as (_ & v & Hv' & Hm'). congruence.
    - exists ttl. apply Hmem. split; [reflexivity|]. exists (Some item). auto. }
  split; [reflexivity|]. split; [|split].
  - unfold redis_tier.Get, server_Get, redis_tier.store_get. rewrite Hst. simpl.
    rewrite Hu, Z.eqb_refl. reflexivity.
  - intros req Hreq. unfold redis_tier.Get, server_Get, redis_tier.store_get.
    rewrite Hst. simpl. rewrite Hu.
    replace (GetCacheModelVersion item =? req) with false
      by (symmetry; apply Z.eqb_neq; congruence). reflexivity.
  - intros k Hk. apply server_apply_other. intros b' t Hin.
    apply Hmem in Hin as (_ & v & Hv' & Hm'). exact (Hk v b' Hv' Hm').
Qed.

End RedisRoundTrip.

(** ** More of the redis tier on concrete store contents *)

(** Key 1 holds an item of version 6 while version 7 is required. *)
Lemma X7_witness :
  exists o,
    provider_redis.MGet ModelVersion (decoded test_Unmarshal_err) test_key
      (provider_redis.mkRedisCache (provider_redis.store_client store_mixed (fun _ => None)) 2)
      [0%nat; 1%nat; 2%nat; 3%nat] 7 = Some o /\
    redis_tier.Get ModelVersion test_Unmarshal_err test_is_redis_Nil test_key
      (redis_tier.store_get test_redis_Nil store_mixed (fun _ => None)) 1%nat 7 = (None, None) /\
    (1%nat ∉ provider_redis.missingKeys_out o) /\
    provider_redis.found o !! 1%nat = None.
Proof.
  destruct (X7_redis_Get_and_MGet_over_one_store ModelVersion test_Unmarshal_err
              test_is_redis_Nil test_key test_redis_Nil store_mixed 2
              [0%nat; 1%nat; 2%nat; 3%nat] 7 eq_refl) as (o & Hrun & Hkeys); [lia|].
  exists o. split; [exact Hrun|].
  destruct (Hkeys 1%nat) as [H|[H|[H|H]]].
  - right. left.
  - destruct H as (Hs & _). vm_compute in Hs. discriminate.
  - destruct H as (b & e & Hs & Hu & _). vm_compute in Hs. injection Hs as <-.
    vm_compute in Hu. discriminate.
  - destruct H as (b & item & _ & _ & _ & Hget & Hm & Hf). auto.
  - destruct H as (b & item & Hs & Hu & Hv & _). vm_compute in Hs. injection Hs as <-.
    vm_compute in Hu. injection Hu as <-. vm_compute in Hv. discriminate.
Defined.

Lemma X8_witness :
  @None error = None /\ ModelVersion entity0 = 7.
Proof.
  exact (proj1 (X8_redis_reads_hand_out_required_version_only ModelVersion
                  test_Unmarshal_err test_is_redis_Nil test_key)
               (redis_tier.store_get test_redis_Nil store_all (fun _ => None))
               0%nat 7 entity0 None eq_refl).
Defined.

(** Key 2 is absent and asked twice. *)
Lemma X9_witness :
  exists o,
    provider_redis.MGet ModelVersion (decoded test_Unmarshal_err) test_key
      (provider_redis.mkRedisCache (provider_redis.store_client store_mixed no_failure) 2)
      [2%nat; 0%nat; 2%nat; 1%nat] 7 = Some o /\
    provider_redis.missingKeys_out o = [2%nat; 2%nat].
Proof.
  destruct (X9_redis_MGet_missing_keeps_request_order ModelVersion test_Unmarshal_err
              test_key store_mixed no_failure 2 [2%nat; 0%nat; 2%nat; 1%nat] 7)
    as (chunks & o & _ & Hrun & _ & Hmiss); [lia|].
  exists o. split; [exact Hrun|]. rewrite Hmiss; [reflexivity|]. intros ks. reflexivity.
Defined.

Lemma X10_witness :
  provider_redis.MGet ModelVersion (decoded test_Unmarshal_err) test_key
    (provider_redis.NewRedisCache (provider_redis.store_client store_all no_failure)) [] 7 =
    Some (provider_redis.mkOutcome ∅ [] None [[]]).
Proof.
  refine (proj1 (proj2 (X10_redis_MGet_of_no_keys_sends_one_empty_command ModelVersion
                          test_Unmarshal_err test_key
                          (provider_redis.NewRedisCache
                             (provider_redis.store_client store_all no_failure)) 7 _ _))).
  - simpl. lia.
  - right. reflexivity.
Defined.

Lemma X11_witness :
  chunkBy_loop 5 [1%nat] 0 [] = None /\
  provider_redis.MGet ModelVersion (decoded test_Unmarshal_err) test_key
    (provider_redis.mkRedisCache (provider_redis.store_client store_all no_failure) 0)
    [1%nat] 7 = None.
Proof.
  destruct (X11_chunkBy_needs_positive_chunk_size ModelVersion test_Unmarshal_err test_key)
    as (_ & Hzero & Hmget).
  split.
  - apply Hzero. discriminate.
  - apply Hmget. right. split; [reflexivity|discriminate].
Defined.

(** One entry that marshals and one that does not. *)
Lemma X12_witness :
  (length (redis_tier.MSet test_Marshal server_TxPipelined
             (map_to_list values_ab) 300 ∅).1.1.2 +
   length (redis_tier.MSet test_Marshal server_TxPipelined
             (map_to_list values_ab) 300 ∅).1.2)%nat = size values_ab.
Proof.
  exact (proj2 (proj2 (proj2 (proj2
           (X12_redis_MSet_sends_what_marshals test_Marshal server_TxPipelined
              values_ab (map_to_list values_ab) 300 ∅ (reflexivity _)))))).
Defined.

(** The empty map. *)
Lemma X13_witness :
  redis_tier.MSet_v8 test_Marshal quiet_MSet quiet_Expire context_TODO [] [] 300 tt =
    ((None, [], []), tt).
Proof.
  refine (proj1 (proj2 (X13_older_MSet_with_nothing_to_write test_Marshal
                          quiet_MSet quiet_Expire context_TODO ∅ [] [] 300 tt _ _)) eq_refl).
  - rewrite map_to_list_empty. reflexivity.
  - intros k v Hv. rewrite lookup_empty in Hv. discriminate.
Defined.

(** One entry that marshals and one that does not: no error, and both keys
    get an expiry. *)
Lemma X14_witness :
  (redis_tier.MSet_v8 test_Marshal quiet_MSet quiet_Expire context_TODO
     (map_to_list values_ab) (map_to_list values_ab) 300 tt).1.1.1 = None /\
  In (CmdExpire context_Background "b" 300)
     (redis_tier.MSet_v8 test_Marshal quiet_MSet quiet_Expire context_TODO
        (map_to_list values_ab) (map_to_list values_ab) 300 tt).1.1.2.
Proof.
  assert (values_ab !! "a"%string = Some (Some entity0)) as Ha
    by (vm_compute; reflexivity).
  destruct (X14_older_MSet_writes_then_expires_every_key test_Marshal
              quiet_MSet quiet_Expire context_TODO values_ab
              (map_to_list values_ab) (map_to_list values_ab)
              300 tt "a"%string (Some entity0) "random_content"%string
              (reflexivity _) (reflexivity _) Ha eq_refl) as [_ Hok].
  destruct Hok as (Herr & _ & Hexp); [reflexivity|].
  split; [exact Herr|]. apply Hexp. exists (Some entity_bad). vm_compute. reflexivity.
Defined.

Lemma X15_witness :
  redis_tier.Get ModelVersion test_Unmarshal_err test_is_redis_Nil test_key
    (server_Get test_redis_Nil
       (redis_tier.MSet test_Marshal server_TxPipelined
          (map_to_list values_key1) 300 ∅).2)
    1%nat 7 = (Some entity0, None).
Proof.
  assert (values_key1 !! KeyOf (test_key 1) = Some (Some entity0)) as Hk
    by (vm_compute; reflexivity).
  exact (proj1 (proj2
           (X15_redis_MSet_then_Get ModelVersion test_Unmarshal_err test_Marshal
              test_is_redis_Nil test_key test_redis_Nil values_key1
              (map_to_list values_key1) 300 ∅ 1%nat entity0 "random_content"%string
              (reflexivity _) Hk eq_refl eq_refl))).
Defined.

(** ** The in-process tier *)

Section LRUFacts.
Context {T V L : Type}.
Variable GetCacheModelVersion : T -> Z.
Variable deref : nat -> Key V.
Variable lru_Get : string -> L -> option (option T) * L.
Variable lru_Add : string -> option T -> L -> bool * L.

Local Abbreviation lru_MGet_loop := (lru_tier.MGet_loop GetCacheModelVersion deref lru_Get).
Local Abbreviation lru_MGet := (lru_tier.MGet GetCacheModelVersion deref lru_Get).
Local Abbreviation lru_Get_tier := (lru_tier.Get GetCacheModelVersion deref lru_Get).
Local Abbreviation hit := (lru_hit GetCacheModelVersion deref lru_Get).

Lemma lru_MGet_loop_any (keys : list nat) (req : Z) f m l f' m' e' l' :
  lru_MGet_loop keys req f m l = Some ((f', m', e'), l') ->
  e' = None /\
  (exists m2, m' = m ++ m2 /\ sublist m2 keys) /\
  (forall k, k ∈ keys -> is_Some (f' !! k) \/ k ∈ m') /\
  (forall k v, f' !! k = Some v ->
     f !! k = Some v \/
     (k ∈ keys /\ exists x, v = Some x /\ GetCacheModelVersion x = req)) /\
  (forall k, is_Some (f !! k) -> is_Some (f' !! k)) /\
  (forall k, k ∈ m -> k ∈ m').
Proof.
  revert f m l. induction keys as [|k0 keys IH]; intros f m l; simpl.
  - intros [= <- <- <- <-]. split; [reflexivity|]. split.
    + exists []. rewrite app_nil_r. split; [reflexivity|constructor].
    + split; [intros k Hk; inversion Hk|]. auto.
  - destruct (lru_Get (KeyOf (deref k0)) l) as [r l1].
    assert (forall f1, lru_MGet_loop keys req f1 (m ++ [k0]) l1 = Some ((f', m', e'), l') ->
              (forall k v, f1 !! k = Some v -> f !! k = Some v) ->
              (forall k, is_Some (f !! k) -> is_Some (f1 !! k)) ->
              e' = None /\
              (exists m2, m' = m ++ m2 /\ sublist m2 (k0 :: keys)) /\
              (forall k, k ∈ k0 :: keys -> is_Some (f' !! k) \/ k ∈ m') /\
              (forall k v, f' !! k = Some v ->
                 f !! k = Some v \/
                 (k ∈ k0 :: keys /\ exists x, v = Some x /\ GetCacheModelVersion x = req)) /\
              (forall k, is_Some (f !! k) -> is_Some (f' !! k)) /\
              (forall k, k ∈ m -> k ∈ m')) as Hmiss.
    { intros f1 Hrun Hsub Hmono.
      apply IH in Hrun as (He & (m2 & -> & Hsl) & Hcov & Hval & Hmon & Hkeep).
      split; [exact He|]. split; [|split; [|split; [|split]]].
      - exists (k0 :: m2). rewrite <- app_assoc. split; [reflexivity|].
        constructor. exact Hsl.
      - intros k Hk. apply elem_of_cons in Hk as [->|Hk]; [|auto].
        right. apply Hkeep. rewrite elem_of_app, list_elem_of_singleton. auto.
      - intros k v Hv. apply Hval in Hv as [Hv|(Hin & Hx)]; [left; auto|].
        right. split; [right; exact Hin|exact Hx].
      - intros k Hk. apply Hmon, Hmono, Hk.
      - intros k Hk. apply Hkeep. rewrite elem_of_app. auto. }
    destruct r as [[x|]|]; [|discriminate|intros Hrun; apply (Hmiss f); auto].
    destruct (GetCacheModelVersion x =? req) eqn:Hv; simpl;
      [|intros Hrun; apply (Hmiss f); auto].
    intros Hrun.
    apply IH in Hrun as (He & (m2 & -> & Hsl) & Hcov & Hval & Hmon & Hkeep).
    split; [exact He|]. split; [|split; [|split; [|split]]].
    + exists m2. split; [reflexivity|]. apply sublist_cons. exact Hsl.
    + intros k Hk. apply elem_of_cons in Hk as [->|Hk]; [|auto].
      left. apply Hmon. rewrite lookup_insert_eq. eauto.
    + intros k v Hk. apply Hval in Hk as [Hk|(Hin & Hx)].
      * destruct (decide (k = k0)) as [->|Hne].
        -- rewrite lookup_insert_eq in Hk. injection Hk as <-.
           right. split; [left|]. exists x. split; [reflexivity|].
           apply Z.eqb_eq. exact Hv.
        -- rewrite lookup_insert_ne in Hk by auto. auto.
      * right. split; [right; exact Hin|exact Hx].
    + intros k Hk. apply Hmon.
      destruct (decide (k = k0)) as [->|Hne].
      * rewrite lookup_insert_eq. eauto.
      * rewrite lookup_insert_ne by auto. exact Hk.
    + exact Hkeep.
Qed.

(** X16. [MGet] of the in-process tier, whatever the LRU answers: when it
    returns, its error is nil, every requested key is in the found map or
    in the missing list (no key is dropped, also not for a version
    mismatch), every found entry is a non-nil item of the required version
    under a requested key, and the missing list is a sub-list of the
    request, in its order. *)
Theorem X16_lru_MGet_accounts_for_every_key
    (keys : list nat) (req : Z) (l : L)
    (found : gmap nat (option T)) (missing : list nat) (err : option error) (l' : L) :
  lru_MGet keys req l = Some ((found, missing, err), l') ->
  err = None /\
  (forall k, k ∈ keys -> is_Some (found !! k) \/ k ∈ missing) /\
  (forall k v, found !! k = Some v ->
     k ∈ keys /\ exists x, v = Some x /\ GetCacheModelVersion x = req) /\
  sublist missing keys.
Proof.
  unfold lru_tier.MGet. intros Hrun.
  apply lru_MGet_loop_any in Hrun as (He & (m2 & -> & Hsl) & Hcov & Hval & _ & _).
  split; [exact He|]. split; [exact Hcov|]. split; [|exact Hsl].
  intros k v Hv. apply Hval in Hv as [Hv|Hv]; [|exact Hv].
  rewrite lookup_empty in Hv. discriminate.
Qed.

Lemma lru_MGet_loop_stable (req : Z) (l0 : L) :
  (forall k k' l, (lru_Get k' (lru_Get k l).2).1 = (lru_Get k' l).1) ->
  forall (keys : list nat) f m l f' m' e' l',
    (forall k, (lru_Get k l).1 = (lru_Get k l0).1) ->
    lru_MGet_loop keys req f m l = Some ((f', m', e'), l') ->
    m' = m ++ List.filter (fun k => negb (hit req l0 k)) keys /\
    (forall k, is_Some (f' !! k) <-> is_Some (f !! k) \/ (k ∈ keys /\ hit req l0 k = true)).
Proof.
  intros Hstable keys. induction keys as [|k0 keys IH]; intros f m l f' m' e' l' Hl; simpl.
  - intros [= <- <- <- <-]. rewrite app_nil_r. split; [reflexivity|].
    intros k. split; [auto|]. intros [?|[Hk _]]; [auto|inversion Hk].
  - pose proof (Hl (KeyOf (deref k0))) as Hr. unfold lru_hit at 1.
    assert (forall k, (lru_Get k (lru_Get (KeyOf (deref k0)) l).2).1 = (lru_Get k l0).1) as Hl1.
    { intros k. rewrite Hstable. apply Hl. }
    rewrite <- Hr.
    destruct (lru_Get (KeyOf (deref k0)) l) as [r l1]. simpl in *.
    assert (hit req l0 k0 = match r with
                            | Some (Some x) => GetCacheModelVersion x =? req
                            | _ => false
                            end) as Hhit by (unfold lru_hit; rewrite <- Hr; reflexivity).
    assert (forall f1, f1 = f -> hit req l0 k0 = false ->
              lru_MGet_loop keys req f1 (m ++ [k0]) l1 = Some ((f', m', e'), l') ->
              m' = m ++ (if negb (match r with
                                  | Some (Some x) => GetCacheModelVersion x =? req
                                  | _ => false
                                  end)
                         then k0 :: List.filter (fun k => negb (hit req l0 k)) keys
                         else List.filter (fun k => negb (hit req l0 k)) keys) /\
              (forall k, is_Some (f' !! k) <->
                         is_Some (f !! k) \/ (k ∈ k0 :: keys /\ hit req l0 k = true))) as Hmiss.
    { intros f1 -> Hno Hrun. apply (IH _ _ _ _ _ _ _ Hl1) in Hrun as [-> Hdom].
      rewrite <- Hhit, Hno. simpl. rewrite <- app_assoc. split; [reflexivity|].
      intros k. rewrite Hdom, elem_of_cons. split.
      - intros [?|[? ?]]; auto.
      - intros [?|[[->|?] Hh]]; auto. congruence. }
    destruct r as [[x|]|]; [|discriminate|apply (Hmiss f); auto].
    destruct (GetCacheModelVersion x =? req) eqn:Hv; simpl; [|apply (Hmiss f); auto].
    intros Hrun. apply (IH _ _ _ _ _ _ _ Hl1) in Hrun as [-> Hdom].
    split; [reflexivity|].
    intros k. rewrite Hdom, elem_of_cons. split.
    + intros [Hk|[? ?]]; [|auto].
      destruct (decide (k = k0)) as [->|Hne]; [auto|].
      rewrite lookup_insert_ne in Hk by auto. auto.
    + intros [Hk|[[->|?] Hh]]; [| |auto].
      * left. destruct (decide (k = k0)) as [->|Hne].
        -- rewrite lookup_insert_eq. eauto.
        -- rewrite lookup_insert_ne by auto. exact Hk.
      * left. rewrite lookup_insert_eq. eauto.
Qed.

(** X17. When reading the LRU does not change what it holds, [MGet] of the
    in-process tier splits the request in two: the missing list is the
    request without the keys under which the LRU holds an item of the
    required version, in request order, and the found map binds exactly
    those keys; no key is in both. *)
Theorem X17_lru_MGet_splits_the_request
    (keys : list nat) (req : Z) (l : L)
    (found : gmap nat (option T)) (missing : list nat) (err : option error) (l' : L) :
  (forall k k' l0, (lru_Get k' (lru_Get k l0).2).1 = (lru_Get k' l0).1) ->
  lru_MGet keys req l = Some ((found, missing, err), l') ->
  missing = List.filter (fun k => negb (hit req l k)) keys /\
  (forall k, is_Some (found !! k) <-> k ∈ keys /\ hit req l k = true) /\
  (forall k, k ∈ missing -> found !! k = None).
Proof.
  intros Hstable Hrun. unfold lru_tier.MGet in Hrun.
  apply (lru_MGet_loop_stable req l Hstable) in Hrun as [Hm Hdom]; [|reflexivity].
  simpl in Hm. subst missing.
  assert (forall k, is_Some (found !! k) <-> k ∈ keys /\ hit req l k = true) as Hdom'.
  { intros k. rewrite Hdom. split; [|auto].
    intros [[v Hv]|?]; [|auto]. rewrite lookup_empty in Hv. discriminate. }
  split; [reflexivity|]. split; [exact Hdom'|].
  intros k Hk. apply list_elem_of_In, filter_In in Hk as [_ Hk].
  destruct (found !! k) as [v|] eqn:Hf; [|reflexivity].
  assert (is_Some (found !! k)) as Hs by (rewrite Hf; eauto).
  apply Hdom' in Hs as [_ Hh]. rewrite Hh in Hk. discriminate.
Qed.

(** X18. Write then read on the in-process tier, when the LRU returns an
    entry that was just added: after [MSet] of a one-entry map (as the
    orchestrator's write-back sends it) whose value is an item, [Get] of
    that key returns the item when the required version is the item's and
    (nil, nil) otherwise, the TTL given to [MSet] playing no part; after
    [MSet] of a one-entry map whose value is nil, [Get] and [MGet] of that
    key panic on the nil item. *)
Theorem X18_lru_MSet_then_Get
    (key : nat) (x : T) (req ttl : Z) (l : L) :
  (forall k v l0, (lru_Get k (lru_Add k v l0).2).1 = Some v) ->
  let after v := (lru_tier.MSet lru_Add [(KeyOf (deref key), v)] ttl l).2 in
  (lru_tier.MSet lru_Add [(KeyOf (deref key), Some x)] ttl l).1 = None /\
  fst <$> lru_Get_tier key req (after (Some x)) =
    Some (if GetCacheModelVersion x =? req then (Some x, None) else (None, None)) /\
  lru_Get_tier key req (after None) = None /\
  lru_MGet [key] req (after None) = None.
Proof.
  intros Hadd after. subst after. simpl.
  split; [reflexivity|].
  unfold lru_tier.Get, lru_tier.MGet. simpl.
  pose proof (Hadd (KeyOf (deref key)) (Some x) l) as H1.
  pose proof (Hadd (KeyOf (deref key)) None l) as H2.
  destruct (lru_Get (KeyOf (deref key)) (lru_Add (KeyOf (deref key)) (Some x) l).2)
    as [r1 l1]. simpl in H1. subst r1.
  destruct (lru_Get (KeyOf (deref key)) (lru_Add (KeyOf (deref key)) None l).2)
    as [r2 l2]. simpl in H2. subst r2.
  split; [|split; reflexivity].
  destruct (GetCacheModelVersion x =? req); reflexivity.
Qed.

End LRUFacts.

(** ** The in-process tier on a concrete LRU *)

Lemma X16_witness :
  lru_tier.MGet ModelVersion test_key assoc_Get [1%nat; 2%nat] 7 lru_with_key1 =
    Some (({[ 1%nat := Some entity7 ]}, [2%nat], None), lru_with_key1) /\
  sublist [2%nat] [1%nat; 2%nat].
Proof.
  assert (lru_tier.MGet ModelVersion test_key assoc_Get [1%nat; 2%nat] 7 lru_with_key1 =
            Some (({[ 1%nat := Some entity7 ]}, [2%nat], None), lru_with_key1)) as Hrun
    by (vm_compute; reflexivity).
  split; [exact Hrun|].
  exact (proj2 (proj2 (proj2
           (X16_lru_MGet_accounts_for_every_key ModelVersion test_key assoc_Get
              [1%nat; 2%nat] 7 lru_with_key1 _ _ _ _ Hrun)))).
Defined.

Lemma X17_witness :
  [2%nat; 2%nat] =
    List.filter (fun k => negb (lru_hit ModelVersion test_key assoc_Get 7 lru_with_key1 k))
                [2%nat; 1%nat; 2%nat].
Proof.
  assert (lru_tier.MGet ModelVersion test_key assoc_Get [2%nat; 1%nat; 2%nat] 7 lru_with_key1 =
            Some (({[ 1%nat := Some entity7 ]}, [2%nat; 2%nat], None), lru_with_key1)) as Hrun
    by (vm_compute; reflexivity).
  refine (proj1 (X17_lru_MGet_splits_the_request ModelVersion test_key assoc_Get
                   [2%nat; 1%nat; 2%nat] 7 lru_with_key1 _ _ _ _ _ Hrun)).
  intros k k' l0. reflexivity.
Defined.

Lemma X18_witness :
  lru_tier.Get ModelVersion test_key assoc_Get 1%nat 7
    (lru_tier.MSet assoc_Add [(KeyOf (test_key 1), None)] 300 []).2 = None /\
  fst <$> lru_tier.Get ModelVersion test_key assoc_Get 1%nat 7
            (lru_tier.MSet assoc_Add [(KeyOf (test_key 1), Some entity7)] 300 []).2 =
    Some (Some entity7, None).
Proof.
  destruct (X18_lru_MSet_then_Get ModelVersion test_key assoc_Get assoc_Add
              1%nat entity7 7 300 []) as (_ & Hget & Hnil & _).
  - intros k v l0. unfold assoc_Get, assoc_Add. simpl.
    rewrite bool_decide_eq_true_2 by reflexivity. reflexivity.
  - split; [exact Hnil|exact Hget].
Defined.

(** ** The builder and the caches built from it *)

Section BuilderFacts.
Context {T W : Type}.

(** X19. A cache shares its builder: after [c := b.Build()] a later
    [b.WithTtl(ttl)] changes the TTL of [c] too, and of every cache built
    from [b], while tiers and model version stay; so the next [MSet]
    through [c] sends every tier the new TTL.  A builder made by
    [NewCacheBuilder] starts with a TTL of five minutes. *)
Theorem X19_WithTtl_reaches_caches_already_built
    (modelVersion0 : Z) (ps : list (@Provider T W)) (h : gmap nat (@Builder T W))
    (ttl1 : Z) :
  let b := (builder_heap.NewCacheBuilder modelVersion0 ps h).1 in
  let h1 := (builder_heap.NewCacheBuilder modelVersion0 ps h).2 in
  let c := builder_heap.Build b in
  h !! b = None /\
  builder_heap.load h1 c = Some (mkCache (mkBuilder ps (5 * time_Minute) modelVersion0)) /\
  exists h2,
    builder_heap.WithTtl b ttl1 h1 = Some (b, h2) /\
    builder_heap.load h2 c = Some (mkCache (mkBuilder ps ttl1 modelVersion0)) /\
    (forall b', b' <> b -> h2 !! b' = h !! b') /\
    forall c2 ctx records (s : @RT T W),
      builder_heap.load h2 c = Some c2 ->
      exists results : list (option error),
        length results = length ps /\
        trace (MSet c2 ctx records s).2 =
          trace s ++ zip_with (fun p r => EvMSet (provider_id p) ctx records ttl1 r) ps results.
Proof.
  intros b h1 c. subst b h1 c. unfold builder_heap.NewCacheBuilder. simpl.
  set (b := fresh (dom h)).
  assert (h !! b = None) as Hfresh.
  { apply not_elem_of_dom. apply is_fresh. }
  split; [exact Hfresh|].
  unfold builder_heap.load, builder_heap.WithTtl, builder_heap.Build. simpl.
  rewrite lookup_insert_eq. simpl. split; [reflexivity|].
  eexists. split; [reflexivity|]. rewrite lookup_insert_eq. simpl.
  split; [reflexivity|]. split.
  - intros b' Hne. rewrite !lookup_insert_ne by auto. reflexivity.
  - intros c2 ctx records s [= <-]. unfold MSet. simpl.
    destruct (MSet_loop_spec ps ctx records ttl1 [] s) as (results & Hlen & Htr & _).
    exists results. auto.
Qed.

End BuilderFacts.

Lemma X19_witness :
  exists h2,
    builder_heap.WithTtl
      (builder_heap.NewCacheBuilder 7 [tier_absent 1] ∅).1 60
      (builder_heap.NewCacheBuilder 7 [tier_absent 1] ∅).2 =
      Some ((builder_heap.NewCacheBuilder 7 [tier_absent 1] ∅).1, h2) /\
    builder_heap.load h2
      (builder_heap.Build (builder_heap.NewCacheBuilder 7 [tier_absent 1] ∅).1) =
      Some (mkCache (mkBuilder [tier_absent 1] 60 7)).
Proof.
  destruct (X19_WithTtl_reaches_caches_already_built 7 [tier_absent 1] ∅ 60)
    as (_ & _ & h2 & Hset & Hload & _).
  exists h2. split; [exact Hset|exact Hload].
Defined.
